(** * Reconciliation engine of the embeddings generator ([src/main.ts])

    A shallow embedding of [generateEmbeddings] and [run].  The two tables
    [page] and [page_section] are lists of rows, every SQL statement of the
    source is a pure function on the store, and the asynchronous body of the
    action is written in a small state-and-exception monad in which the
    effects of a computation survive the exception it raises, as they do in
    JavaScript. *)

From Stdlib Require Import ZArith List String Ascii Bool Lia PeanoNat.
Import ListNotations.

Local Open Scope string_scope.
Local Open Scope Z_scope.
Local Open Scope list_scope.

(* ===================================================================== *)
(** ** Rows and tables *)
(* ===================================================================== *)

(** A row of [page].  [page_checksum = None] is SQL [NULL]; so is
    [parent_page_id = None].  [meta] is an opaque payload and
    [last_refresh] a timestamp, both only carried around. *)
Record Page := mkPage {
  page_id : Z;
  page_path : string;
  page_checksum : option string;
  page_type : string;
  page_source : string;
  page_meta : string;
  parent_page_id : option Z;
  page_version : string;
  last_refresh : Z
}.

(** A row of [page_section].  The embedding vector is opaque to the engine:
    its components are carried as given by the provider. *)
Record PageSection := mkSection {
  section_id : Z;
  section_page_id : Z;
  section_slug : string;
  section_heading : string;
  section_content : string;
  token_count : Z;
  embedding : list Z
}.

(** The catalog: both tables and the two id sequences of the store. *)
Record Store := mkStore {
  pages : list Page;
  page_sections : list PageSection;
  page_seq : Z;
  section_seq : Z
}.

Definition option_eqb {A : Type} (eqb : A -> A -> bool) (x y : option A) : bool :=
  match x, y with
  | Some a, Some b => eqb a b
  | None, None => true
  | _, _ => false
  end.

(** Column updates, one per [SET] clause used by the source. *)
Definition set_parent (parent : option Z) (p : Page) : Page :=
  mkPage (page_id p) (page_path p) (page_checksum p) (page_type p)
         (page_source p) (page_meta p) parent (page_version p) (last_refresh p).

Definition set_meta (type source meta version : string) (refresh : Z) (p : Page) : Page :=
  mkPage (page_id p) (page_path p) (page_checksum p) type source meta
         (parent_page_id p) version refresh.

Definition set_checksum (checksum : option string) (p : Page) : Page :=
  mkPage (page_id p) (page_path p) checksum (page_type p)
         (page_source p) (page_meta p) (parent_page_id p) (page_version p)
         (last_refresh p).

(** The [DO UPDATE SET ...] list of the upsert: every column but [id] and
    [path] is taken from the proposed row, whose checksum is [NULL]. *)
Definition set_excluded (type source meta : string) (parent : option Z)
    (version : string) (refresh : Z) (p : Page) : Page :=
  mkPage (page_id p) (page_path p) None type source meta parent version refresh.

Definition with_pages (ps : list Page) (st : Store) : Store :=
  mkStore ps (page_sections st) (page_seq st) (section_seq st).

Definition with_sections (ss : list PageSection) (st : Store) : Store :=
  mkStore (pages st) ss (page_seq st) (section_seq st).

Definition update_where (c : Page -> bool) (f : Page -> Page) (ps : list Page) : list Page :=
  map (fun p => if c p then f p else p) ps.

Definition has_id (id : Z) (p : Page) : bool := page_id p =? id.
Definition has_path (path : string) (p : Page) : bool := String.eqb (page_path p) path.

(* ===================================================================== *)
(** ** The SQL statements of [generateEmbeddings] *)
(* ===================================================================== *)

(** [SELECT id, path, checksum, parent_page_id FROM page WHERE path = $1 LIMIT 1] *)
Definition select_page_by_path (path : string) (st : Store) : Store * option Page :=
  (st, find (has_path path) (pages st)).

(** The same lookup with the parameter the source passes for a parent: an
    absent [parentPath] is sent as [NULL], and [path = NULL] selects no row. *)
Definition select_parent_by_path (parentPath : option string) (st : Store)
    : Store * option Page :=
  match parentPath with
  | Some path => select_page_by_path path st
  | None => (st, None)
  end.

(** [SELECT id, path FROM page WHERE id = $1 LIMIT 1]; [id = NULL] selects no row. *)
Definition select_page_by_id (id : option Z) (st : Store) : Store * option Page :=
  match id with
  | Some i => (st, find (has_id i) (pages st))
  | None => (st, None)
  end.

(** [UPDATE page SET parent_page_id = $1 WHERE id = $2] *)
Definition update_parent_page_id (parent : option Z) (id : Z) (st : Store) : Store * unit :=
  (with_pages (update_where (has_id id) (set_parent parent) (pages st)) st, tt).

(** [UPDATE page SET type = $1, source = $2, meta = $3, version = $4,
    last_refresh = $5 WHERE id = $6] *)
Definition update_page_meta (type source meta version : string) (refresh : Z) (id : Z)
    (st : Store) : Store * unit :=
  (with_pages (update_where (has_id id) (set_meta type source meta version refresh)
                            (pages st)) st, tt).

(** [DELETE FROM page_section WHERE page_id = $1] *)
Definition delete_sections_of (id : Z) (st : Store) : Store * unit :=
  (with_sections (filter (fun s => negb (section_page_id s =? id)) (page_sections st)) st, tt).

(** [INSERT INTO page (checksum, path, ...) VALUES (NULL, $1, ...)
    ON CONFLICT (path) DO UPDATE SET checksum = EXCLUDED.checksum, ...
    RETURNING id]: the row of that path is overwritten in place, or a new row
    with the next id of the sequence is appended.  Both ways the stored
    checksum is the proposed one, [NULL]. *)
Definition upsert_page (path type source meta : string) (parent : option Z)
    (version : string) (refresh : Z) (st : Store) : Store * Z :=
  match find (has_path path) (pages st) with
  | Some old =>
      (with_pages (update_where (has_path path)
                     (set_excluded type source meta parent version refresh) (pages st)) st,
       page_id old)
  | None =>
      (mkStore (pages st ++ [mkPage (page_seq st) path None type source meta parent
                                         version refresh])
               (page_sections st) (page_seq st + 1) (section_seq st),
       page_seq st)
  end.

(** [INSERT INTO page_section (page_id, slug, heading, content, token_count,
    embedding) VALUES ($1, ..., $6) RETURNING id] *)
Definition insert_section (pid : Z) (slug heading content : string) (tokens : Z)
    (vec : list Z) (st : Store) : Store * Z :=
  (mkStore (pages st)
           (page_sections st ++ [mkSection (section_seq st) pid slug heading content tokens vec])
           (page_seq st) (section_seq st + 1),
   section_seq st).

(** [UPDATE page SET checksum = $1 WHERE id = $2] *)
Definition update_checksum (checksum : string) (id : Z) (st : Store) : Store * unit :=
  (with_pages (update_where (has_id id) (set_checksum (Some checksum)) (pages st)) st, tt).

(** [DELETE FROM page WHERE version <> $1].  The schema is not part of the
    sources; the statement is announced by the source as removing old pages
    and their sections, so the sections of a deleted page go with it. *)
Definition delete_stale_pages (version : string) (st : Store) : Store * unit :=
  let stale := filter (fun p => negb (String.eqb (page_version p) version)) (pages st) in
  (mkStore (filter (fun p => String.eqb (page_version p) version) (pages st))
           (filter (fun s => negb (existsb (has_id (section_page_id s)) stale))
                   (page_sections st))
           (page_seq st) (section_seq st),
   tt).

(* ===================================================================== *)
(** ** Collaborators: sources, the embedding provider, the console *)
(* ===================================================================== *)

(** What JavaScript can throw: an instance of [Error] with its message, or
    any other value. *)
Inductive Thrown :=
| ErrorObj (message : string)
| ThrownValue (repr : string).

(** How an awaited call ends. *)
Inductive Completion (A : Type) :=
| Normal (a : A)
| Throws (e : Thrown).
Arguments Normal {A} a.
Arguments Throws {A} e.

(** One chunk of a source, as [load()] yields it. *)
Record Chunk := mkChunk {
  slug : string;
  heading : string;
  content : string
}.

Record LoadResult := mkLoad {
  checksum : string;
  meta : string;
  sections : list Chunk
}.

(** An embedding source object: the four fields the loop destructures and
    the outcome of its [load()] method. *)
Record EmbeddingSource := mkSource {
  src_type : string;
  src_source : string;
  src_path : string;
  src_parentPath : option string;
  src_load : Completion LoadResult
}.

(** The response of [openai.createEmbedding]: [resp_data] lists the
    [embedding] of every entry of [data.data], [resp_total_tokens] is
    [data.usage.total_tokens] and [resp_inspect] the text [inspect] gives
    for [data]. *)
Record EmbeddingResponse := mkResponse {
  resp_status : Z;
  resp_data : list (list Z);
  resp_total_tokens : Z;
  resp_inspect : string
}.

(** The lines written with [console.log] and [console.error]. *)
Inductive LogEvent :=
| LogDiscovered (n : nat)
| LogChecking
| LogRefreshFlag
| LogParentChanged (path : string) (parentPath : option string)
| LogRemovingSections (path : string) (refresh : bool)
| LogAddingSections (path : string) (n : nat)
| ErrSectionFailed (path : string) (input_prefix : string)
| ErrPageFailed (path : string)
| ErrValue (err : Thrown)
| LogRemovingOldPages
| LogComplete.

(** Everything outside the engine that a run depends on.  [walk] and
    [MarkdownSource] are imported from modules that are not part of the
    sources and are taken as given; of a walked entry only its path is
    used.  [embed_outcome n input] is how the provider answers the [n]-th
    call of the run when asked for [input]; [db_fault n] is the error, if
    any, with which the store rejects the [n]-th call made on the client
    ([connect], every [query], [end]). *)
Record Env := mkEnv {
  uuidv4 : string;
  now : Z;
  getInput : string -> string;
  walk : string -> Completion (list string);
  MarkdownSource : string -> string -> EmbeddingSource;
  embed_outcome : nat -> string -> Completion EmbeddingResponse;
  db_fault : nat -> option string
}.

(* ===================================================================== *)
(** ** The effect monad *)
(* ===================================================================== *)

(** The observable world of a run.  [history] is a ghost record of the
    store after every call the store accepted, newest first; [failures]
    collects the messages passed to [core.setFailed]. *)
Record World := mkWorld {
  db : Store;
  db_ops : nat;
  embed_calls : list string;
  console : list LogEvent;
  failures : list string;
  history : list Store
}.

Definition Async (A : Type) : Type := World -> World * Completion A.

Definition ret {A : Type} (a : A) : Async A := fun w => (w, Normal a).

Definition throw {A : Type} (e : Thrown) : Async A := fun w => (w, Throws e).

Definition bind {A B : Type} (m : Async A) (k : A -> Async B) : Async B :=
  fun w =>
    match m w with
    | (w', Normal a) => k a w'
    | (w', Throws e) => (w', Throws e)
    end.

Definition try_catch {A : Type} (m : Async A) (handler : Thrown -> Async A) : Async A :=
  fun w =>
    match m w with
    | (w', Normal a) => (w', Normal a)
    | (w', Throws e) => handler e w'
    end.

Declare Scope async_scope.
Delimit Scope async_scope with async.
Notation "x <- m ;; k" := (bind m (fun x => k))
  (at level 61, m at next level, right associativity) : async_scope.
Notation "m ;;; k" := (bind m (fun _ => k))
  (at level 61, right associativity) : async_scope.
Local Open Scope async_scope.

Fixpoint for_of {A : Type} (l : list A) (body : A -> Async unit) : Async unit :=
  match l with
  | [] => ret tt
  | x :: rest => body x ;;; for_of rest body
  end.

Definition await {A : Type} (c : Completion A) : Async A :=
  fun w => (w, c).

Definition console_write (e : LogEvent) : Async unit :=
  fun w => (mkWorld (db w) (db_ops w) (embed_calls w) (console w ++ [e])
                    (failures w) (history w), Normal tt).

(** The world after the store rejected, or accepted, one more call. *)
Definition rejected (w : World) : World :=
  mkWorld (db w) (S (db_ops w)) (embed_calls w) (console w) (failures w) (history w).

Definition accepted (st : Store) (w : World) : World :=
  mkWorld st (S (db_ops w)) (embed_calls w) (console w) (failures w) (st :: history w).

Definition setFailed (message : string) : Async unit :=
  fun w => (mkWorld (db w) (db_ops w) (embed_calls w) (console w)
                    (failures w ++ [message]) (history w), Normal tt).

(* ===================================================================== *)
(** ** Pure helpers of the source *)
(* ===================================================================== *)

(** [content.replace(/\n/g, " ")] *)
Fixpoint replace_newlines (s : string) : string :=
  match s with
  | EmptyString => EmptyString
  | String c rest =>
      String (if Ascii.eqb c "010"%char then " "%char else c) (replace_newlines rest)
  end.

Definition ends_with (suffix s : string) : bool :=
  let n := String.length s in
  let m := String.length suffix in
  (m <=? n)%nat && String.eqb (substring (n - m) m s) suffix.

(** [/\.mdx?$/.test(path)] *)
Definition is_markdown (path : string) : bool :=
  ends_with ".md" path || ends_with ".mdx" path.

Definition ignoredFiles : list string := ["pages/404.mdx"].

(** [ignoredFiles.includes(path)] *)
Definition includes (l : list string) (path : string) : bool :=
  existsb (String.eqb path) l.

(** [existingPage?.checksum === checksum] and
    [existingParentPage?.path !== parentPath]: a missing row and a [NULL]
    column both differ from every string. *)
Definition stored_checksum (existingPage : option Page) : option string :=
  match existingPage with
  | Some p => page_checksum p
  | None => None
  end.

Definition stored_path (existingParentPage : option Page) : option string :=
  match existingParentPage with
  | Some p => Some (page_path p)
  | None => None
  end.

Definition id_of (row : option Page) : option Z :=
  match row with
  | Some p => Some (page_id p)
  | None => None
  end.

Definition unchanged (shouldRefresh : bool) (existingPage : option Page)
    (checksum : string) : bool :=
  negb shouldRefresh && option_eqb String.eqb (stored_checksum existingPage) (Some checksum).

(* ===================================================================== *)
(** ** [generateEmbeddings] and [run] *)
(* ===================================================================== *)

Record GenerateEmbeddingsProps := mkProps {
  shouldRefresh : option bool;
  postgresConnectionString : string;
  openaiKey : string;
  docsRootPath : string
}.

Section Engine.

Context (env : Env).

(** A call on the [pg] client: rejected with the fault the environment has
    for it, or run against the store. *)
Definition client_call {A : Type} (stmt : Store -> Store * A) : Async A :=
  fun w =>
    match db_fault env (db_ops w) with
    | Some message => (rejected w, Throws (ErrorObj message))
    | None => (accepted (fst (stmt (db w))) w, Normal (snd (stmt (db w))))
    end.

Definition client_query {A : Type} (stmt : Store -> Store * A) : Async A :=
  client_call stmt.

Definition client_connect : Async unit := client_call (fun st => (st, tt)).

Definition client_end : Async unit := client_call (fun st => (st, tt)).

(** [openai.createEmbedding({ model, input })] *)
Definition createEmbedding (input : string) : Async EmbeddingResponse :=
  fun w =>
    (mkWorld (db w) (db_ops w) (embed_calls w ++ [input]) (console w) (failures w)
             (history w),
     embed_outcome env (List.length (embed_calls w)) input).

(** [existingPage.id] where the source dereferences without a guard. *)
Definition deref (row : option Page) : Async Page :=
  match row with
  | Some p => ret p
  | None => throw (ErrorObj "Cannot read properties of undefined")
  end.

(** The body of the loop over [sections] (lines 95-126). *)
Definition embed_section (path : string) (pageId : Z) (c : Chunk) : Async unit :=
  let input := replace_newlines (content c) in
  try_catch
    (embeddingResponse <- createEmbedding input ;;
     if negb (resp_status embeddingResponse =? 200) then
       throw (ErrorObj (resp_inspect embeddingResponse))
     else
       match resp_data embeddingResponse with
       | [] => throw (ErrorObj "Cannot read properties of undefined (reading 'embedding')")
       | responseData :: _ =>
           client_query (insert_section pageId (slug c) (heading c) (content c)
                           (resp_total_tokens embeddingResponse) responseData) ;;;
           ret tt
       end)
    (fun err =>
       console_write (ErrSectionFailed path (substring 0 40 input)) ;;;
       throw err).

(** The unchanged branch (lines 46-69). *)
Definition refresh_metadata (refreshVersion : string) (refreshDate : Z)
    (s : EmbeddingSource) (m : string) (existingPage : option Page) : Async unit :=
  ep <- deref existingPage ;;
  existingParentPage <- client_query (select_page_by_id (parent_page_id ep)) ;;
  (if negb (option_eqb String.eqb (stored_path existingParentPage) (src_parentPath s)) then
     console_write (LogParentChanged (src_path s) (src_parentPath s)) ;;;
     parentPage <- client_query (select_parent_by_path (src_parentPath s)) ;;
     client_query (update_parent_page_id (id_of parentPage) (page_id ep))
   else ret tt) ;;;
  client_query (update_page_meta (src_type s) (src_source s) m refreshVersion refreshDate
                  (page_id ep)).

(** The upsert, the section loop and the commit of the checksum
    (lines 81-128). *)
Definition write_page (refreshVersion : string) (refreshDate : Z)
    (s : EmbeddingSource) (l : LoadResult) (parentPage : option Page) : Async unit :=
  pageId <- client_query (upsert_page (src_path s) (src_type s) (src_source s) (meta l)
                            (id_of parentPage) refreshVersion refreshDate) ;;
  console_write (LogAddingSections (src_path s) (List.length (sections l))) ;;;
  for_of (sections l) (embed_section (src_path s) pageId) ;;;
  client_query (update_checksum (checksum l) pageId).

(** The changed, forced or new branch (lines 72-128). *)
Definition resync (refresh : bool) (refreshVersion : string) (refreshDate : Z)
    (s : EmbeddingSource) (l : LoadResult) (existingPage : option Page) : Async unit :=
  match existingPage with
  | Some ep =>
      console_write (LogRemovingSections (src_path s) refresh) ;;;
      client_query (delete_sections_of (page_id ep))
  | None => ret tt
  end ;;;
  parentPage <- client_query (select_parent_by_path (src_parentPath s)) ;;
  write_page refreshVersion refreshDate s l parentPage.

(** The [try] block of the loop over the sources (lines 39-128). *)
Definition process_source_body (refresh : bool) (refreshVersion : string)
    (refreshDate : Z) (s : EmbeddingSource) : Async unit :=
  l <- await (src_load s) ;;
  existingPage <- client_query (select_page_by_path (src_path s)) ;;
  if unchanged refresh existingPage (checksum l) then
    refresh_metadata refreshVersion refreshDate s (meta l) existingPage
  else
    resync refresh refreshVersion refreshDate s l existingPage.

(** One iteration of the loop, with its [catch] (lines 35-135). *)
Definition process_source (refresh : bool) (refreshVersion : string)
    (refreshDate : Z) (s : EmbeddingSource) : Async unit :=
  try_catch
    (process_source_body refresh refreshVersion refreshDate s)
    (fun err =>
       console_write (ErrPageFailed (src_path s)) ;;;
       console_write (ErrValue err)).

Definition discover (entries : list string) : list EmbeddingSource :=
  map (MarkdownSource env "markdown")
      (filter (fun path => negb (includes ignoredFiles path))
              (filter is_markdown entries)).

Definition generateEmbeddings (props : GenerateEmbeddingsProps) : Async unit :=
  let refresh := match shouldRefresh props with Some b => b | None => false end in
  client_connect ;;;
  let refreshVersion := uuidv4 env in
  let refreshDate := now env in
  entries <- await (walk env (docsRootPath props)) ;;
  let embeddingSources := discover entries in
  console_write (LogDiscovered (List.length embeddingSources)) ;;;
  console_write (if negb refresh then LogChecking else LogRefreshFlag) ;;;
  for_of embeddingSources (process_source refresh refreshVersion refreshDate) ;;;
  console_write LogRemovingOldPages ;;;
  client_query (delete_stale_pages refreshVersion) ;;;
  console_write LogComplete ;;;
  client_end.

Definition run : Async unit :=
  try_catch
    (generateEmbeddings
       (mkProps None (getInput env "postgres-connection-string")
                (getInput env "openai-key") (getInput env "docs-root-path")))
    (fun error =>
       match error with
       | ErrorObj message => setFailed message
       | ThrownValue _ => ret tt
       end).

End Engine.

(* ===================================================================== *)
(** ** Views of the store and its integrity constraints *)
(* ===================================================================== *)

(** The row of a path, and the section rows that belong to a page. *)
Definition page_at (st : Store) (path : string) : option Page :=
  find (has_path path) (pages st).

Definition sections_of (st : Store) (id : Z) : list PageSection :=
  filter (fun s => section_page_id s =? id) (page_sections st).

Definition sections_at (st : Store) (path : string) : list PageSection :=
  match page_at st path with
  | Some p => sections_of st (page_id p)
  | None => []
  end.

Definition page_ids (st : Store) : list Z := map page_id (pages st).
Definition page_paths (st : Store) : list string := map page_path (pages st).

(** The constraints of the schema: [page.id] is a key drawn from the
    sequence, [page.path] is unique, [page_section.page_id] references
    [page.id]. *)
Record wf (st : Store) : Prop := mkWf {
  wf_ids : NoDup (page_ids st);
  wf_paths : NoDup (page_paths st);
  wf_seq : Forall (fun i => i < page_seq st) (page_ids st);
  wf_fk : Forall (fun s => In (section_page_id s) (page_ids st)) (page_sections st)
}.

(** [confined p st st']: [st'] satisfies the constraints and differs from
    [st] at most in the row of path [p] and in the sections of that row,
    and a row of that path does not disappear or change its id. *)
Record confined (p : string) (st st' : Store) : Prop := mkConfined {
  conf_wf : wf st';
  conf_pages : forall q, q <> p -> page_at st' q = page_at st q;
  conf_sections : forall q, q <> p -> sections_at st' q = sections_at st q;
  conf_own : forall pg, page_at st p = Some pg ->
               exists pg', page_at st' p = Some pg' /\ page_id pg' = page_id pg
}.

(** The columns a metadata refresh may write. *)
Definition same_but_meta_and_parent (p p' : Page) : Prop :=
  page_id p' = page_id p /\ page_path p' = page_path p /\
  page_checksum p' = page_checksum p.

(** A section row carries the chunk as loaded and what the provider
    returned for its normalised text. *)
Definition payload (s : PageSection) : string * string * string :=
  (section_slug s, section_heading s, section_content s).

Definition chunk_payload (c : Chunk) : string * string * string :=
  (slug c, heading c, content c).

Definition normalized (c : Chunk) : string := replace_newlines (content c).

(** Environments in which the store never rejects a call. *)
Definition no_db_fault (env : Env) : Prop := forall n, db_fault env n = None.

(** A usable answer of the provider: status 200 and at least one vector. *)
Definition usable (r : Completion EmbeddingResponse) : bool :=
  match r with
  | Normal resp =>
      (resp_status resp =? 200) &&
      match resp_data resp with [] => false | _ :: _ => true end
  | Throws _ => false
  end.

(** The provider answers usably, whenever asked, for every chunk of [cs]. *)
Definition embeddable (env : Env) (cs : list Chunk) : Prop :=
  forall n c, In c cs -> usable (embed_outcome env n (normalized c)) = true.

(** [hoare P m Q E]: started in a world satisfying [P], the computation
    [m] ends normally with a value and world satisfying [Q], or throws a
    value in a world satisfying [E]. *)
Definition hoare {A : Type} (P : World -> Prop) (m : Async A)
    (Q : A -> World -> Prop) (E : Thrown -> World -> Prop) : Prop :=
  forall w, P w ->
    match m w with
    | (w', Normal a) => Q a w'
    | (w', Throws e) => E e w'
    end.

(** [owns st p id]: the row of path [p] exists and has id [id]. *)
Definition owns (st : Store) (p : string) (id : Z) : Prop :=
  exists pg, page_at st p = Some pg /\ page_id pg = id.

(** [row_of env pid c row]: [row] is the section row the loop inserts for
    chunk [c] of page [pid]: the chunk as loaded, with the token count and
    the first vector of a status-200 answer of the provider to the
    normalised text of the chunk. *)
Definition row_of (env : Env) (pid : Z) (c : Chunk) (row : PageSection) : Prop :=
  section_page_id row = pid /\
  payload row = chunk_payload c /\
  exists n resp,
    embed_outcome env n (normalized c) = Normal resp /\
    resp_status resp = 200 /\
    token_count row = resp_total_tokens resp /\
    hd_error (resp_data resp) = Some (embedding row).

(** The unchanged branch: whether the parent it finds stored differs from
    the parent of the source, the parent it then looks up, and what it
    writes to the row when every call is accepted. *)
Definition parent_differs (s : EmbeddingSource) (ep : Page) (st : Store) : bool :=
  negb (option_eqb String.eqb
          (stored_path (snd (select_page_by_id (parent_page_id ep) st)))
          (src_parentPath s)).

Definition resolved_parent (s : EmbeddingSource) (st : Store) : option Z :=
  id_of (snd (select_parent_by_path (src_parentPath s) st)).

Definition refreshed (v : string) (d : Z) (s : EmbeddingSource) (m : string)
    (ep : Page) (st : Store) (x : Page) : Page :=
  set_meta (src_type s) (src_source s) m v d
    (if parent_differs s ep st then set_parent (resolved_parent s st) x else x).

(* ===================================================================== *)
(** ** A small documentation tree, used to exercise the statements *)
(* ===================================================================== *)

Module Demo.

(** Two markdown files, the ignored 404 page and a file of another kind. *)
Definition tree : list string := ["a.md"; "b/c.mdx"; "pages/404.mdx"; "notes.txt"].

Definition chunks_of (filePath : string) : list Chunk :=
  [mkChunk "intro" "Intro" ("first line
second line of " ++ filePath)%string;
   mkChunk "usage" "Usage" "usage"].

Definition loaded (filePath : string) : LoadResult :=
  mkLoad ("sha:" ++ filePath)%string "{}" (chunks_of filePath).

Definition source_of (source filePath : string) : EmbeddingSource :=
  mkSource "markdown" source filePath
           (if String.eqb filePath "b/c.mdx" then Some "b" else None)
           (Normal (loaded filePath)).

(** A provider that answers every call with one vector. *)
Definition answer (n : nat) (input : string) : Completion EmbeddingResponse :=
  Normal (mkResponse 200 [[Z.of_nat n; Z.of_nat (String.length input)]] 7 "{ data }").

Definition env_at (version : string) (date : Z) : Env :=
  mkEnv version date (fun _ => "docs") (fun _ => Normal tree) source_of answer
        (fun _ => None).

Definition env1 : Env := env_at "run-1" 1000.
Definition env2 : Env := env_at "run-2" 2000.

Definition empty_store : Store := mkStore [] [] 1 1.
Definition world0 : World := mkWorld empty_store 0 [] [] [] [].

(** The world after a first run on the empty catalog. *)
Definition world1 : World := Eval vm_compute in fst (run env1 world0).

Definition src_a : EmbeddingSource := source_of "markdown" "a.md".
Definition src_c : EmbeddingSource := source_of "markdown" "b/c.mdx".

(** The stored row of [b/c.mdx] after the first run. *)
Definition page_c : Page :=
  mkPage 2 "b/c.mdx" (Some "sha:b/c.mdx") "markdown" "markdown" "{}" None "run-1" 1000.

(** A provider that fails on the second chunk of [b/c.mdx] only. *)
Definition usage_c : Chunk := mkChunk "usage" "Usage" "usage of b/c.mdx".

Definition chunks_c : list Chunk :=
  [mkChunk "intro" "Intro" "intro of b/c.mdx"; usage_c].

Definition failing_source_of (source filePath : string) : EmbeddingSource :=
  if String.eqb filePath "b/c.mdx"
  then mkSource "markdown" source filePath (Some "b")
                (Normal (mkLoad "sha:b/c.mdx" "{}" chunks_c))
  else source_of source filePath.

Definition flaky (n : nat) (input : string) : Completion EmbeddingResponse :=
  if String.eqb input "usage of b/c.mdx" then Throws (ErrorObj "429") else answer n input.

Definition flaky_env : Env :=
  mkEnv "run-1" 1000 (fun _ => "docs") (fun _ => Normal tree) failing_source_of flaky
        (fun _ => None).

Definition flaky_c : EmbeddingSource := failing_source_of "markdown" "b/c.mdx".

(** A second run in which [a.md] cannot be read. *)
Definition unreadable_source_of (source filePath : string) : EmbeddingSource :=
  if String.eqb filePath "a.md"
  then mkSource "markdown" source filePath None (Throws (ErrorObj "EACCES"))
  else source_of source filePath.

Definition unreadable_env : Env :=
  mkEnv "run-2" 2000 (fun _ => "docs") (fun _ => Normal tree) unreadable_source_of answer
        (fun _ => None).

End Demo.

(** The world after some lines were written to the console. *)
Definition logged (evs : list LogEvent) (w : World) : World :=
  mkWorld (db w) (db_ops w) (embed_calls w) (console w ++ evs) (failures w) (history w).

(** [stamped v st q]: the row of path [q] exists and carries version [v]. *)
Definition stamped (v : string) (st : Store) (q : string) : Prop :=
  exists pg, page_at st q = Some pg /\ page_version pg = v.

(** [current st s l]: the row of source [s] exists and stores the checksum
    of [l]. *)
Definition current (st : Store) (s : EmbeddingSource) (l : LoadResult) : Prop :=
  exists pg, page_at st (src_path s) = Some pg /\ page_checksum pg = Some (checksum l).

(** The effective refresh flag of a call of [generateEmbeddings]. *)
Definition refresh_flag (props : GenerateEmbeddingsProps) : bool :=
  match shouldRefresh props with Some b => b | None => false end.

(** The world in which [generateEmbeddings] leaves the loop over the
    sources, once the client is connected and the tree is walked. *)
Definition after_loop (env : Env) (refresh : bool) (entries : list string) (w : World)
    : World :=
  fst (for_of (discover env entries)
              (process_source env refresh (uuidv4 env) (now env))
              (logged [if negb refresh then LogChecking else LogRefreshFlag]
                 (logged [LogDiscovered (List.length (discover env entries))]
                    (accepted (db w) w)))).

(** The world after the sweep of a run that got that far. *)
Definition after_sweep (env : Env) (refresh : bool) (entries : list string) (w : World)
    : World :=
  let wl := logged [LogRemovingOldPages] (after_loop env refresh entries w) in
  logged [LogComplete] (accepted (fst (delete_stale_pages (uuidv4 env) (db wl))) wl).

(** What [run] hands to [core.setFailed] for a thrown value. *)
Definition reported (e : Thrown) : list string :=
  match e with
  | ErrorObj message => [message]
  | ThrownValue _ => []
  end.

(** The console lines an iteration of the loop over the sources can write. *)
Definition per_source (ev : LogEvent) : bool :=
  match ev with
  | LogParentChanged _ _ | LogRemovingSections _ _ | LogAddingSections _ _
  | ErrSectionFailed _ _ | ErrPageFailed _ | ErrValue _ => true
  | _ => false
  end.

(** [keeps P]: [P] only depends on the console and on the reported
    failures, and survives every per-source line. *)
Definition keeps (P : World -> Prop) : Prop :=
  (forall w st n calls hist,
     P w -> P (mkWorld st n calls (console w) (failures w) hist)) /\
  (forall w ev, per_source ev = true -> P w -> P (logged [ev] w)).

(** The line [generateEmbeddings] prints when the refresh flag is set. *)
Definition is_refresh_line (ev : LogEvent) : bool :=
  match ev with LogRefreshFlag => true | _ => false end.

(** [pending p st]: the row of path [p] exists and its checksum is [NULL].
    [complete env p l st]: the row of path [p] stores the checksum of [l]
    and the page owns exactly one section row per chunk of [l], in order. *)
Definition pending (p : string) (st : Store) : Prop :=
  exists pg, page_at st p = Some pg /\ page_checksum pg = None.

Definition complete (env : Env) (p : string) (l : LoadResult) (st : Store) : Prop :=
  exists pg, page_at st p = Some pg /\
             page_checksum pg = Some (checksum l) /\
             Forall2 (row_of env (page_id pg)) (sections l) (sections_at st p).

(** [no_newline s]: no character of [s] is a line feed. *)
Definition no_newline (s : string) : Prop :=
  forall i, String.get i s <> Some "010"%char.

(** [has_suffix suffix s]: [s] ends with [suffix]. *)
Definition has_suffix (suffix s : string) : Prop :=
  exists prefix, s = String.append prefix suffix.

(** The texts a forced run sends to the provider: the normalised chunks
    of every source that loads, source after source. *)
Definition all_inputs (ss : list EmbeddingSource) : list string :=
  flat_map (fun s => match src_load s with
                     | Normal l => map normalized (sections l)
                     | Throws _ => []
                     end) ss.

(** More documentation trees and catalogs to exercise the statements. *)
Module Scene.

(** A tree without any markdown file to embed. *)
Definition barren_tree : list string := ["notes.txt"; "pages/404.mdx"; "md"].

Definition barren_env : Env :=
  mkEnv "run-2" 2000 (fun _ => "docs") (fun _ => Normal barren_tree) Demo.source_of
        Demo.answer (fun _ => None).

(** A root directory that cannot be walked. *)
Definition missing_env : Env :=
  mkEnv "run-2" 2000 (fun _ => "docs") (fun _ => Throws (ErrorObj "ENOENT"))
        Demo.source_of Demo.answer (fun _ => None).

(** The catalog of the first run, seen by a fresh client. *)
Definition settled : World := mkWorld (db Demo.world1) 0 [] [] [] [].

(** Two sources that resolve to the same path with different contents. *)
Definition first_a : EmbeddingSource :=
  mkSource "markdown" "markdown" "a" None
           (Normal (mkLoad "sha:a.md" "{}" [mkChunk "one" "One" "from a.md"])).

Definition second_a : EmbeddingSource :=
  mkSource "markdown" "markdown" "a" None
           (Normal (mkLoad "sha:a.mdx" "{}" [mkChunk "two" "Two" "from a.mdx"])).

(** A source without any chunk. *)
Definition blank : EmbeddingSource :=
  mkSource "markdown" "markdown" "blank.md" None (Normal (mkLoad "sha:blank" "{}" [])).

(** A store that drops the connection at the third call. *)
Definition dropping_env : Env :=
  mkEnv "run-2" 2000 (fun _ => "docs") (fun _ => Normal Demo.tree) Demo.source_of
        Demo.answer (fun n => if Nat.eqb n 2 then Some "connection lost" else None).

(** The stored row of [a.md] after the first run. *)
Definition page_a : Page :=
  mkPage 1 "a.md" (Some "sha:a.md") "markdown" "markdown" "{}" None "run-1" 1000.

(** A provider that works again, for the sources of [Demo.flaky_env]. *)
Definition healed_env : Env :=
  mkEnv "run-2" 2000 (fun _ => "docs") (fun _ => Normal Demo.tree) Demo.failing_source_of
        Demo.answer (fun _ => None).

(** The world in which the failed iteration of [Demo.flaky_c] leaves the
    first run. *)
Definition interrupted : World :=
  fst (process_source Demo.flaky_env false "run-1" 1000 Demo.flaky_c Demo.world0).

(** A child page stored before its parent, hence without parent id. *)
Definition child_page : Page :=
  mkPage 1 "guide/intro.md" (Some "sha:intro") "markdown" "markdown" "{}" None "run-1" 1000.

Definition parent_page : Page :=
  mkPage 2 "guide.md" (Some "sha:guide") "markdown" "markdown" "{}" None "run-1" 1000.

Definition family : World :=
  mkWorld (mkStore [child_page; parent_page] [] 3 1) 0 [] [] [] [].

Definition child : EmbeddingSource :=
  mkSource "markdown" "markdown" "guide/intro.md" (Some "guide.md")
           (Normal (mkLoad "sha:intro" "{}" [])).

End Scene.

(** The calls an iteration makes on the store before the upsert, on the
    changed, forced or new branch: the page lookup (line 42), the purge of
    the old sections when the page exists (line 75) and the parent lookup
    (line 78). *)
Definition calls_before_upsert (existingPage : option Page) : nat :=
  match existingPage with Some _ => 3%nat | None => 2%nat end.

(** [accepts env n k]: the store accepts the [k] calls that follow its
    first [n] calls. *)
Definition accepts (env : Env) (n k : nat) : Prop :=
  forall i, (i < k)%nat -> db_fault env (n + i)%nat = None.

(** What a recorded store shows of a path: the checksum of its row, if it
    has one, and the number of sections the page owns. *)
Definition glimpse (p : string) (st : Store) : option (option string) * nat :=
  (option_map page_checksum (page_at st p), List.length (sections_at st p)).

(** The stores an iteration recorded, oldest first, seen from a path. *)
Definition trace (p : string) (w : World) : list (option (option string) * nat) :=
  map (glimpse p) (rev (history w)).

(** Catalogs and trees for the window before the upsert and for files that
    share a path. *)
Module Study.

(** [a.md] after an edit: another checksum, the same two chunks. *)
Definition edited_a : EmbeddingSource :=
  mkSource "markdown" "markdown" "a.md" None
           (Normal (mkLoad "sha:a.md (edited)" "{}" (Demo.chunks_of "a.md"))).

(** Two files that resolve to the same path, the first of which cannot be
    read. *)
Definition twin_source_of (source filePath : string) : EmbeddingSource :=
  if String.eqb filePath "a.md"
  then mkSource "markdown" source "a" None (Throws (ErrorObj "EACCES"))
  else mkSource "markdown" source "a" None
                (Normal (mkLoad "sha:a.mdx" "{}" [mkChunk "two" "Two" "from a.mdx"])).

Definition twin_env : Env :=
  mkEnv "run-1" 1000 (fun _ => "docs") (fun _ => Normal ["a.md"; "a.mdx"]) twin_source_of
        Demo.answer (fun _ => None).

End Study.


(* ===================================================================== *)
(** ** Lists and rows *)
(* ===================================================================== *)

Lemma has_path_true (p : string) (pg : Page) : has_path p pg = true <-> page_path pg = p.
Proof. unfold has_path. apply String.eqb_eq. Qed.

Lemma has_path_false (p : string) (pg : Page) : has_path p pg = false <-> page_path pg <> p.
Proof. unfold has_path. apply String.eqb_neq. Qed.

Lemma has_id_true (i : Z) (pg : Page) : has_id i pg = true <-> page_id pg = i.
Proof. unfold has_id. apply Z.eqb_eq. Qed.

Lemma has_id_false (i : Z) (pg : Page) : has_id i pg = false <-> page_id pg <> i.
Proof. unfold has_id. apply Z.eqb_neq. Qed.

Lemma page_at_some (st : Store) (p : string) (pg : Page) :
  page_at st p = Some pg -> In pg (pages st) /\ page_path pg = p.
Proof.
  unfold page_at. intros H. apply find_some in H. destruct H as [Hin Hp].
  split; [assumption | now apply has_path_true].
Qed.

Lemma page_at_none (st : Store) (p : string) :
  page_at st p = None -> ~ In p (page_paths st).
Proof.
  unfold page_at, page_paths. intros H Hin. apply in_map_iff in Hin.
  destruct Hin as [pg [Hp Hin]].
  apply (find_none _ _ H) in Hin. apply has_path_false in Hin. contradiction.
Qed.

Lemma find_unique {A B : Type} (key : A -> B) (P : A -> bool) (l : list A) (x : A) :
  NoDup (map key l) ->
  (forall y, In y l -> P y = true -> key y = key x) ->
  In x l -> P x = true -> find P l = Some x.
Proof.
  induction l as [|a l IH]; simpl; intros Hnd Hkey Hin Hx; [contradiction|].
  inversion Hnd as [|? ? Hnotin Hnd']; subst.
  destruct (P a) eqn:Ha.
  - destruct Hin as [->|Hin]; [reflexivity|].
    exfalso. apply Hnotin. rewrite (Hkey a (or_introl eq_refl) Ha).
    now apply in_map.
  - destruct Hin as [->|Hin]; [congruence|].
    apply IH; auto.
Qed.

Lemma page_at_in (st : Store) (pg : Page) :
  NoDup (page_paths st) -> In pg (pages st) -> page_at st (page_path pg) = Some pg.
Proof.
  intros Hnd Hin. unfold page_at.
  apply (find_unique page_path); auto.
  - intros y _ Hy. now apply has_path_true.
  - now apply has_path_true.
Qed.

Lemma unique_by_key {A B : Type} (key : A -> B) (l : list A) (x y : A) :
  NoDup (map key l) -> In x l -> In y l -> key x = key y -> x = y.
Proof.
  induction l as [|a l IH]; simpl; intros Hnd Hx Hy Hk; [contradiction|].
  inversion Hnd as [|? ? Hnotin Hnd']; subst.
  destruct Hx as [->|Hx], Hy as [->|Hy]; auto.
  - exfalso. apply Hnotin. rewrite Hk. now apply in_map.
  - exfalso. apply Hnotin. rewrite <- Hk. now apply in_map.
Qed.

Lemma distinct_paths_distinct_ids (st : Store) (p q : string) (pg pq : Page) :
  wf st -> page_at st p = Some pg -> page_at st q = Some pq -> q <> p ->
  page_id pq <> page_id pg.
Proof.
  intros Hwf Hp Hq Hne Hid.
  apply page_at_some in Hp. apply page_at_some in Hq.
  destruct Hp as [Hp1 Hp2], Hq as [Hq1 Hq2].
  assert (pq = pg) by (apply (unique_by_key page_id (pages st)); auto; apply Hwf).
  subst pq. congruence.
Qed.

Lemma find_update_where (P c : Page -> bool) (f : Page -> Page) (l : list Page) :
  (forall x, P (f x) = P x) ->
  find P (update_where c f l) = option_map (fun x => if c x then f x else x) (find P l).
Proof.
  intros HP. induction l as [|a l IH]; simpl; [reflexivity|].
  assert (Ha : P (if c a then f a else a) = P a) by (destruct (c a); auto).
  rewrite Ha. destruct (P a); [reflexivity | exact IH].
Qed.

Lemma map_update_where {B : Type} (key : Page -> B) (c : Page -> bool) (f : Page -> Page)
    (l : list Page) :
  (forall x, key (f x) = key x) -> map key (update_where c f l) = map key l.
Proof.
  intros Hk. unfold update_where. rewrite map_map. apply map_ext.
  intros a. destruct (c a); auto.
Qed.

Lemma filter_filter_neq (i j : Z) (l : list PageSection) :
  i <> j ->
  filter (fun s => section_page_id s =? i)
         (filter (fun s => negb (section_page_id s =? j)) l)
  = filter (fun s => section_page_id s =? i) l.
Proof.
  intros Hne. induction l as [|a l IH]; simpl; [reflexivity|].
  destruct (section_page_id a =? j) eqn:Hj; simpl.
  - apply Z.eqb_eq in Hj.
    destruct (section_page_id a =? i) eqn:Hi; [apply Z.eqb_eq in Hi; lia | exact IH].
  - destruct (section_page_id a =? i); [now rewrite IH | exact IH].
Qed.

Lemma filter_filter_same (i : Z) (l : list PageSection) :
  filter (fun s => section_page_id s =? i)
         (filter (fun s => negb (section_page_id s =? i)) l) = [].
Proof.
  induction l as [|a l IH]; simpl; [reflexivity|].
  destruct (section_page_id a =? i) eqn:Hi; simpl; [exact IH|].
  now rewrite Hi.
Qed.

(* ===================================================================== *)
(** ** Each statement keeps the constraints and stays within its page *)
(* ===================================================================== *)

Lemma confined_refl (p : string) (st : Store) : wf st -> confined p st st.
Proof.
  intros Hwf. constructor; auto.
  intros pg H. now exists pg.
Qed.

Lemma confined_trans (p : string) (a b c : Store) :
  confined p a b -> confined p b c -> confined p a c.
Proof.
  intros [Hw1 Hp1 Hs1 Ho1] [Hw2 Hp2 Hs2 Ho2]. constructor; auto.
  - intros q Hq. now rewrite Hp2, Hp1.
  - intros q Hq. now rewrite Hs2, Hs1.
  - intros pg H. destruct (Ho1 _ H) as [pg' [H' Hid']].
    destruct (Ho2 _ H') as [pg'' [H'' Hid'']].
    exists pg''. split; [assumption | congruence].
Qed.

Lemma wf_update (st : Store) (c : Page -> bool) (f : Page -> Page) :
  (forall x, page_id (f x) = page_id x) ->
  (forall x, page_path (f x) = page_path x) ->
  wf st -> wf (with_pages (update_where c f (pages st)) st).
Proof.
  intros Hid Hpath [H1 H2 H3 H4].
  constructor; unfold page_ids, page_paths in *; simpl;
    rewrite ?(map_update_where page_id), ?(map_update_where page_path); auto.
Qed.

Lemma page_at_update (st : Store) (c : Page -> bool) (f : Page -> Page) (q : string) :
  (forall x, page_path (f x) = page_path x) ->
  page_at (with_pages (update_where c f (pages st)) st) q
  = option_map (fun x => if c x then f x else x) (page_at st q).
Proof.
  intros Hpath. unfold page_at. simpl. apply find_update_where.
  intros x. unfold has_path. now rewrite Hpath.
Qed.

Lemma sections_at_update (st : Store) (c : Page -> bool) (f : Page -> Page) (q : string) :
  (forall x, page_id (f x) = page_id x) ->
  (forall x, page_path (f x) = page_path x) ->
  sections_at (with_pages (update_where c f (pages st)) st) q = sections_at st q.
Proof.
  intros Hid Hpath. unfold sections_at. rewrite page_at_update by assumption.
  destruct (page_at st q) as [pq|]; simpl; [|reflexivity].
  unfold sections_of. simpl. destruct (c pq); now rewrite ?Hid.
Qed.

Lemma confined_update_by_id (p : string) (st : Store) (pg : Page) (f : Page -> Page) :
  (forall x, page_id (f x) = page_id x) ->
  (forall x, page_path (f x) = page_path x) ->
  wf st -> page_at st p = Some pg ->
  confined p st (with_pages (update_where (has_id (page_id pg)) f (pages st)) st).
Proof.
  intros Hid Hpath Hwf Hp. constructor.
  - now apply wf_update.
  - intros q Hq. rewrite page_at_update by assumption.
    destruct (page_at st q) as [pq|] eqn:Hpq; simpl; [|reflexivity].
    assert (Hne : page_id pq <> page_id pg)
      by (eapply distinct_paths_distinct_ids; eauto).
    apply has_id_false in Hne. now rewrite Hne.
  - intros q _. now apply sections_at_update.
  - intros pg0 H0. rewrite page_at_update by assumption. rewrite H0. simpl.
    eexists. split; [reflexivity|]. destruct (has_id (page_id pg) pg0); auto.
Qed.

Lemma confined_update_by_path (p : string) (st : Store) (f : Page -> Page) :
  (forall x, page_id (f x) = page_id x) ->
  (forall x, page_path (f x) = page_path x) ->
  wf st ->
  confined p st (with_pages (update_where (has_path p) f (pages st)) st).
Proof.
  intros Hid Hpath Hwf. constructor.
  - now apply wf_update.
  - intros q Hq. rewrite page_at_update by assumption.
    destruct (page_at st q) as [pq|] eqn:Hpq; simpl; [|reflexivity].
    apply page_at_some in Hpq. destruct Hpq as [_ Hpq].
    assert (Hne : has_path p pq = false) by (apply has_path_false; congruence).
    now rewrite Hne.
  - intros q _. now apply sections_at_update.
  - intros pg0 H0. rewrite page_at_update by assumption. rewrite H0. simpl.
    eexists. split; [reflexivity|]. destruct (has_path p pg0); auto.
Qed.

Lemma confined_delete_sections (p : string) (st : Store) (pg : Page) :
  wf st -> page_at st p = Some pg ->
  confined p st (fst (delete_sections_of (page_id pg) st)).
Proof.
  intros Hwf Hp. simpl. constructor.
  - destruct Hwf as [H1 H2 H3 H4]. constructor; auto.
    simpl. apply Forall_forall. intros s Hs. apply filter_In in Hs.
    destruct Hs as [Hs _]. revert s Hs. now apply Forall_forall.
  - reflexivity.
  - intros q Hq. unfold sections_at, page_at. simpl.
    destruct (find (has_path q) (pages st)) as [pq|] eqn:Hpq; [|reflexivity].
    unfold sections_of. simpl. apply filter_filter_neq.
    eapply distinct_paths_distinct_ids; eauto.
  - intros pg0 H0. now exists pg0.
Qed.

Lemma confined_insert_section (p : string) (st : Store) (pg : Page)
    (sl hd ct : string) (tk : Z) (vec : list Z) :
  wf st -> page_at st p = Some pg ->
  confined p st (fst (insert_section (page_id pg) sl hd ct tk vec st)).
Proof.
  intros Hwf Hp. simpl. constructor.
  - destruct Hwf as [H1 H2 H3 H4]. constructor; auto.
    simpl. apply Forall_app. split; [assumption|].
    constructor; [|constructor]. simpl. unfold page_ids.
    apply in_map. now apply page_at_some in Hp.
  - reflexivity.
  - intros q Hq. unfold sections_at, page_at. simpl.
    destruct (find (has_path q) (pages st)) as [pq|] eqn:Hpq; [|reflexivity].
    unfold sections_of. simpl. rewrite filter_app. simpl.
    assert (Hne : page_id pq <> page_id pg)
      by (eapply distinct_paths_distinct_ids; eauto).
    assert (Heq : (page_id pg =? page_id pq) = false) by (apply Z.eqb_neq; congruence).
    rewrite Heq. apply app_nil_r.
  - intros pg0 H0. now exists pg0.
Qed.

Lemma find_app_none {A : Type} (P : A -> bool) (l : list A) (x : A) :
  find P l = None -> find P (l ++ [x]) = if P x then Some x else None.
Proof.
  induction l as [|a l IH]; simpl; [reflexivity|].
  destruct (P a); [discriminate | exact IH].
Qed.

Lemma find_app_skip {A : Type} (P : A -> bool) (l : list A) (x : A) :
  P x = false -> find P (l ++ [x]) = find P l.
Proof.
  intros Hx. induction l as [|a l IH]; simpl; [now rewrite Hx|].
  destruct (P a); [reflexivity | exact IH].
Qed.

Lemma NoDup_snoc {A : Type} (l : list A) (x : A) :
  NoDup l -> ~ In x l -> NoDup (l ++ [x]).
Proof.
  intros Hnd Hx. induction l as [|a l IH]; simpl.
  - constructor; [auto | constructor].
  - inversion Hnd; subst. constructor.
    + rewrite in_app_iff. simpl. intros [H|[H|[]]]; [contradiction|].
      subst. apply Hx. now left.
    + apply IH; auto. intros H. apply Hx. now right.
Qed.

Lemma confined_upsert (p ty so me : string) (parent : option Z) (v : string) (d : Z)
    (st : Store) :
  wf st -> confined p st (fst (upsert_page p ty so me parent v d st)).
Proof.
  intros Hwf. unfold upsert_page.
  destruct (find (has_path p) (pages st)) as [old|] eqn:Hold; simpl.
  - now apply confined_update_by_path.
  - pose proof (page_at_none st p Hold) as Hfresh.
    destruct Hwf as [H1 H2 H3 H4]. constructor.
    + constructor; unfold page_ids, page_paths in *; simpl; rewrite ?map_app; simpl.
      * apply NoDup_snoc; [assumption|]. intros Hin.
        rewrite Forall_forall in H3. apply H3 in Hin. lia.
      * now apply NoDup_snoc.
      * apply Forall_app. split.
        -- eapply Forall_impl; [|exact H3]. simpl. intros; lia.
        -- constructor; [lia | constructor].
      * eapply Forall_impl; [|exact H4]. simpl. intros s Hs.
        apply in_or_app. now left.
    + intros q Hq. unfold page_at. simpl. apply find_app_skip.
      apply has_path_false. simpl. congruence.
    + intros q Hq. unfold sections_at, page_at. simpl.
      rewrite find_app_skip; [reflexivity|].
      apply has_path_false. simpl. congruence.
    + intros pg Hpg. unfold page_at in Hpg. congruence.
Qed.

(** What the upsert leaves at its path: a row with the returned id, a
    [NULL] checksum and the version of the run, owning the sections the
    former row of that path owned, none if there was no such row. *)
Lemma upsert_row (p ty so me : string) (parent : option Z) (v : string) (d : Z)
    (st : Store) :
  wf st ->
  exists pg, page_at (fst (upsert_page p ty so me parent v d st)) p = Some pg /\
             page_id pg = snd (upsert_page p ty so me parent v d st) /\
             page_checksum pg = None /\ page_version pg = v /\
             sections_at (fst (upsert_page p ty so me parent v d st)) p = sections_at st p.
Proof.
  intros Hwf. unfold upsert_page, sections_at, page_at.
  destruct (find (has_path p) (pages st)) as [old|] eqn:Hold; simpl.
  - rewrite find_update_where by (intros x; reflexivity).
    rewrite Hold. simpl.
    assert (Hp : has_path p old = true) by (apply find_some in Hold; tauto).
    rewrite Hp. eexists. repeat split.
  - rewrite find_app_none by assumption. simpl.
    assert (Hp : has_path p (mkPage (page_seq st) p None ty so me parent v d) = true)
      by (apply has_path_true; reflexivity).
    rewrite Hp. eexists. repeat split.
    unfold sections_of. simpl.
    destruct Hwf as [_ _ H3 H4].
    induction (page_sections st) as [|s l IH]; simpl; [reflexivity|].
    inversion H4; subst.
    assert (Hlt : section_page_id s < page_seq st)
      by (rewrite Forall_forall in H3; now apply H3).
    assert (Hne : (section_page_id s =? page_seq st) = false) by (apply Z.eqb_neq; lia).
    rewrite Hne. now apply IH.
Qed.

(* ===================================================================== *)
(** ** Rules of the program logic *)
(* ===================================================================== *)

Section Rules.

Context (env : Env).

Lemma hoare_ret {A : Type} (P : World -> Prop) (a : A) Q E :
  (forall w, P w -> Q a w) -> hoare P (ret a) Q E.
Proof. intros H w Hw. simpl. auto. Qed.

Lemma hoare_throw {A : Type} (P : World -> Prop) (e : Thrown) (Q : A -> World -> Prop) E :
  (forall w, P w -> E e w) -> hoare P (throw e) Q E.
Proof. intros H w Hw. simpl. auto. Qed.

Lemma hoare_bind {A B : Type} (P : World -> Prop) (m : Async A) (k : A -> Async B)
    (Q1 : A -> World -> Prop) (Q : B -> World -> Prop) E :
  hoare P m Q1 E -> (forall a, hoare (Q1 a) (k a) Q E) -> hoare P (bind m k) Q E.
Proof.
  intros Hm Hk w Hw. unfold bind. specialize (Hm w Hw).
  destruct (m w) as [w' [a|e]]; [now apply Hk | assumption].
Qed.

Lemma hoare_try_catch {A : Type} (P : World -> Prop) (m : Async A)
    (h : Thrown -> Async A) (Q : A -> World -> Prop) E1 E :
  hoare P m Q E1 -> (forall e, hoare (E1 e) (h e) Q E) -> hoare P (try_catch m h) Q E.
Proof.
  intros Hm Hh w Hw. unfold try_catch. specialize (Hm w Hw).
  destruct (m w) as [w' [a|e]]; [assumption | now apply Hh].
Qed.

Lemma hoare_conseq {A : Type} (P P' : World -> Prop) (m : Async A)
    (Q Q' : A -> World -> Prop) (E E' : Thrown -> World -> Prop) :
  hoare P' m Q' E' ->
  (forall w, P w -> P' w) ->
  (forall a w, Q' a w -> Q a w) ->
  (forall e w, E' e w -> E e w) ->
  hoare P m Q E.
Proof.
  intros Hm HP HQ HE w Hw. specialize (Hm w (HP w Hw)).
  destruct (m w) as [w' [a|e]]; auto.
Qed.

Lemma hoare_for_of {A : Type} (I : World -> Prop) (l : list A) (body : A -> Async unit) E :
  (forall x, In x l -> hoare I (body x) (fun _ => I) E) ->
  hoare I (for_of l body) (fun _ => I) E.
Proof.
  induction l as [|x l IH]; intros Hbody.
  - apply hoare_ret. auto.
  - simpl. eapply hoare_bind.
    + apply Hbody. now left.
    + intros u. apply IH. intros y Hy. apply Hbody. now right.
Qed.

Lemma hoare_await {A : Type} (P : World -> Prop) (c : Completion A) Q E :
  (forall a w, c = Normal a -> P w -> Q a w) ->
  (forall e w, c = Throws e -> P w -> E e w) ->
  hoare P (await c) Q E.
Proof. intros HQ HE w Hw. unfold await. destruct c; auto. Qed.

Lemma hoare_console (P : World -> Prop) (ev : LogEvent) Q E :
  (forall w, P w ->
     Q tt (mkWorld (db w) (db_ops w) (embed_calls w) (console w ++ [ev])
                   (failures w) (history w))) ->
  hoare P (console_write ev) Q E.
Proof. intros H w Hw. simpl. auto. Qed.

Lemma hoare_call {A : Type} (P : World -> Prop) (stmt : Store -> Store * A) Q E :
  (forall w message, P w -> db_fault env (db_ops w) = Some message ->
     E (ErrorObj message) (rejected w)) ->
  (forall w, P w -> db_fault env (db_ops w) = None ->
     Q (snd (stmt (db w))) (accepted (fst (stmt (db w))) w)) ->
  hoare P (client_call env stmt) Q E.
Proof.
  intros HE HQ w Hw. unfold client_call.
  destruct (db_fault env (db_ops w)) eqn:Hf; auto.
Qed.

Lemma hoare_embedding (P : World -> Prop) (input : string) Q E :
  (forall w, P w ->
     match embed_outcome env (List.length (embed_calls w)) input with
     | Normal r =>
         Q r (mkWorld (db w) (db_ops w) (embed_calls w ++ [input]) (console w)
                      (failures w) (history w))
     | Throws e =>
         E e (mkWorld (db w) (db_ops w) (embed_calls w ++ [input]) (console w)
                      (failures w) (history w))
     end) ->
  hoare P (createEmbedding env input) Q E.
Proof.
  intros H w Hw. unfold createEmbedding. specialize (H w Hw).
  destruct (embed_outcome env (List.length (embed_calls w)) input); assumption.
Qed.

Lemma call_accepted {A : Type} (stmt : Store -> Store * A) (w : World) :
  db_fault env (db_ops w) = None ->
  client_call env stmt w = (accepted (fst (stmt (db w))) w, Normal (snd (stmt (db w)))).
Proof. intros Hf. unfold client_call. now rewrite Hf. Qed.

Lemma bind_call {A B : Type} (stmt : Store -> Store * A) (k : A -> Async B) (w : World) :
  bind (client_call env stmt) k w
  = match db_fault env (db_ops w) with
    | Some m => (rejected w, Throws (ErrorObj m))
    | None => k (snd (stmt (db w))) (accepted (fst (stmt (db w))) w)
    end.
Proof. unfold bind, client_call. now destruct (db_fault env (db_ops w)). Qed.

End Rules.

(* ===================================================================== *)
(** ** One iteration stays within the page of its source *)
(* ===================================================================== *)

Section Confinement.

Context (env : Env).
Variables (refresh : bool) (v : string) (d : Z) (s : EmbeddingSource) (st0 : Store).

Let p := src_path s.
Let I (w : World) : Prop := confined p st0 (db w).
Let Own (id : Z) (w : World) : Prop := confined p st0 (db w) /\ owns (db w) p id.

Lemma confined_step (st st' : Store) (id : Z) :
  confined p st0 st -> owns st p id -> confined p st st' ->
  confined p st0 st' /\ owns st' p id.
Proof.
  intros H0 [pg [Hpg Hid]] Hst. split.
  - eapply confined_trans; eauto.
  - destruct (conf_own _ _ _ Hst _ Hpg) as [pg' [Hpg' Hid']].
    exists pg'. split; [assumption | congruence].
Qed.

Lemma owned_update (st : Store) (id : Z) (f : Page -> Page) :
  (forall x, page_id (f x) = page_id x) ->
  (forall x, page_path (f x) = page_path x) ->
  confined p st0 st -> owns st p id ->
  confined p st0 (with_pages (update_where (has_id id) f (pages st)) st) /\
  owns (with_pages (update_where (has_id id) f (pages st)) st) p id.
Proof.
  intros Hid Hpath H0 Hown. apply confined_step with (st := st); auto.
  destruct Hown as [pg [Hpg <-]].
  apply confined_update_by_id; auto. apply H0.
Qed.

Lemma owned_delete (st : Store) (id : Z) :
  confined p st0 st -> owns st p id ->
  confined p st0 (fst (delete_sections_of id st)) /\
  owns (fst (delete_sections_of id st)) p id.
Proof.
  intros H0 Hown. apply confined_step with (st := st); auto.
  destruct Hown as [pg [Hpg <-]].
  apply confined_delete_sections; auto. apply H0.
Qed.

Lemma owned_insert (st : Store) (id : Z) (sl hd ct : string) (tk : Z) (vec : list Z) :
  confined p st0 st -> owns st p id ->
  confined p st0 (fst (insert_section id sl hd ct tk vec st)) /\
  owns (fst (insert_section id sl hd ct tk vec st)) p id.
Proof.
  intros H0 Hown. apply confined_step with (st := st); auto.
  destruct Hown as [pg [Hpg <-]].
  apply confined_insert_section; auto. apply H0.
Qed.

Lemma owned_upsert (st : Store) (ty so me : string) (parent : option Z) :
  confined p st0 st ->
  confined p st0 (fst (upsert_page p ty so me parent v d st)) /\
  owns (fst (upsert_page p ty so me parent v d st)) p
       (snd (upsert_page p ty so me parent v d st)).
Proof.
  intros H0. split.
  - eapply confined_trans; [exact H0|]. apply confined_upsert. apply H0.
  - destruct (upsert_row p ty so me parent v d st (conf_wf _ _ _ H0))
      as [pg [Hpg [Hid _]]].
    now exists pg.
Qed.

Lemma embed_section_confined (pid : Z) (c : Chunk) :
  hoare (Own pid) (embed_section env p pid c) (fun _ => Own pid) (fun _ => Own pid).
Proof.
  unfold embed_section. eapply hoare_try_catch with (E1 := fun _ => Own pid).
  - eapply hoare_bind with (Q1 := fun _ => Own pid).
    + apply hoare_embedding. intros w Hw.
      destruct (embed_outcome env _ _); exact Hw.
    + intros r. destruct (negb (resp_status r =? 200)).
      * apply hoare_throw. auto.
      * destruct (resp_data r) as [|vec rest].
        -- apply hoare_throw. auto.
        -- eapply hoare_bind with (Q1 := fun _ => Own pid).
           ++ apply hoare_call.
              ** intros w m Hw _. exact Hw.
              ** intros w [H0 Hown] _. now apply owned_insert.
           ++ intros _. apply hoare_ret. auto.
  - intros e. eapply hoare_bind with (Q1 := fun _ => Own pid).
    + apply hoare_console. auto.
    + intros _. apply hoare_throw. auto.
Qed.

Lemma write_page_confined (l : LoadResult) (parentPage : option Page) :
  hoare I (write_page env v d s l parentPage) (fun _ => I) (fun _ => I).
Proof.
  unfold write_page.
  eapply hoare_bind with (Q1 := fun pid => Own pid).
  - apply hoare_call.
    + intros w m Hw _. exact Hw.
    + intros w Hw _. now apply owned_upsert.
  - intros pid. eapply hoare_bind with (Q1 := fun _ => Own pid).
    + apply hoare_console. auto.
    + intros _. eapply hoare_bind with (Q1 := fun _ => Own pid).
      * eapply hoare_conseq.
        -- apply hoare_for_of with (I := Own pid) (E := fun _ => Own pid).
           intros c _. apply embed_section_confined.
        -- auto.
        -- auto.
        -- intros e w Hw. apply Hw.
      * intros _. apply hoare_call.
        -- intros w m Hw _. apply Hw.
        -- intros w [H0 Hown] _. simpl. now apply owned_update.
Qed.

Lemma resync_confined (l : LoadResult) (existingPage : option Page) :
  hoare (fun w => I w /\ existingPage = page_at (db w) p)
        (resync env refresh v d s l existingPage) (fun _ => I) (fun _ => I).
Proof.
  unfold resync.
  eapply hoare_bind with (Q1 := fun _ => I).
  - destruct existingPage as [ep|].
    + eapply hoare_bind with (Q1 := fun _ w => I w /\ Some ep = page_at (db w) p).
      * apply hoare_console. auto.
      * intros _. apply hoare_call.
        -- intros w m Hw _. apply Hw.
        -- intros w [H0 Hep] _.
           apply owned_delete; auto. exists ep. now split.
    + apply hoare_ret. intros w Hw. apply Hw.
  - intros _. eapply hoare_bind with (Q1 := fun _ => I).
    + apply hoare_call.
      * intros w m Hw _. exact Hw.
      * intros w Hw _. unfold select_parent_by_path.
        destruct (src_parentPath s); exact Hw.
    + intros parentPage. apply write_page_confined.
Qed.

Lemma refresh_metadata_confined (m : string) (existingPage : option Page) :
  hoare (fun w => I w /\ existingPage = page_at (db w) p)
        (refresh_metadata env v d s m existingPage) (fun _ => I) (fun _ => I).
Proof.
  unfold refresh_metadata.
  eapply hoare_bind with (Q1 := fun ep => Own (page_id ep)).
  - destruct existingPage as [ep|].
    + apply hoare_ret. intros w [H0 Hep]. split; [assumption|]. now exists ep.
    + apply hoare_throw. intros w Hw. apply Hw.
  - intros ep. eapply hoare_bind with (Q1 := fun _ => Own (page_id ep)).
    + apply hoare_call.
      * intros w msg Hw _. apply Hw.
      * intros w Hw _. unfold select_page_by_id.
        destruct (parent_page_id ep); exact Hw.
    + intros existingParentPage.
      eapply hoare_bind with (Q1 := fun _ => Own (page_id ep)).
      * destruct (negb _).
        -- eapply hoare_bind with (Q1 := fun _ => Own (page_id ep)).
           ++ apply hoare_console. auto.
           ++ intros _. eapply hoare_bind with (Q1 := fun _ => Own (page_id ep)).
              ** apply hoare_call.
                 --- intros w msg Hw _. apply Hw.
                 --- intros w Hw _. unfold select_parent_by_path.
                     destruct (src_parentPath s); exact Hw.
              ** intros parentPage. apply hoare_call.
                 --- intros w msg Hw _. apply Hw.
                 --- intros w [H0 Hown] _. simpl. now apply owned_update.
        -- apply hoare_ret. auto.
      * intros _. apply hoare_call.
        -- intros w msg Hw _. apply Hw.
        -- intros w [H0 Hown] _. simpl. now apply owned_update.
Qed.

Lemma process_source_body_confined :
  hoare I (process_source_body env refresh v d s) (fun _ => I) (fun _ => I).
Proof.
  unfold process_source_body.
  eapply hoare_bind with (Q1 := fun _ => I).
  - apply hoare_await; auto.
  - intros l.
    eapply hoare_bind with (Q1 := fun ep w => I w /\ ep = page_at (db w) p).
    + apply hoare_call.
      * intros w msg Hw _. exact Hw.
      * intros w Hw _. simpl. split; [exact Hw | reflexivity].
    + intros existingPage. destruct (unchanged _ _ _).
      * apply refresh_metadata_confined.
      * apply resync_confined.
Qed.

(** The [catch] of the loop swallows whatever the body throws. *)
Lemma process_source_confined :
  hoare I (process_source env refresh v d s) (fun _ => I) (fun _ _ => False).
Proof.
  unfold process_source.
  eapply hoare_try_catch.
  - apply process_source_body_confined.
  - intros e. eapply hoare_bind with (Q1 := fun _ => I).
    + apply hoare_console. auto.
    + intros _. apply hoare_console. auto.
Qed.

End Confinement.

(* ===================================================================== *)
(** ** The loop over the sections of a page *)
(* ===================================================================== *)

Section SectionLoop.

Context (env : Env).
Variables (p : string) (pid : Z).

(** One section: either a row is appended for it, or the iteration throws
    and the store is as it was.  The provider has been called once in both
    cases. *)
Lemma embed_section_run (c : Chunk) (w : World) :
  let w' := fst (embed_section env p pid c w) in
  embed_calls w' = embed_calls w ++ [normalized c] /\
  failures w' = failures w /\
  pages (db w') = pages (db w) /\
  page_seq (db w') = page_seq (db w) /\
  match snd (embed_section env p pid c w) with
  | Normal _ =>
      exists row, row_of env pid c row /\
                  page_sections (db w') = page_sections (db w) ++ [row] /\
                  history w' = db w' :: history w
  | Throws _ => db w' = db w /\ history w' = history w
  end.
Proof.
  unfold embed_section, try_catch, bind, createEmbedding, client_query, client_call,
    console_write, throw, ret, normalized.
  simpl.
  destruct (embed_outcome env (List.length (embed_calls w))
              (replace_newlines (content c))) as [resp|e] eqn:Hout;
    simpl; [|now auto].
  destruct (resp_status resp =? 200) eqn:Hst; simpl; [|now auto].
  destruct (resp_data resp) as [|vec rest] eqn:Hdata; simpl; [now auto|].
  destruct (db_fault env (db_ops w)) as [msg|] eqn:Hf; simpl; [now auto|].
  repeat split; auto.
  eexists. split; [|split; reflexivity].
  unfold row_of, payload, chunk_payload, normalized. cbn.
  repeat split; auto.
  exists (List.length (embed_calls w)), resp.
  rewrite Hout, Hdata. apply Z.eqb_eq in Hst. auto.
Qed.

(** The whole loop: rows are appended for a prefix of the chunks, in the
    order of the chunks, one provider call each; the loop ends normally
    exactly when the prefix is the whole list, and otherwise has stopped
    at the first chunk that failed, after calling the provider for it. *)
Lemma embed_sections_run (cs : list Chunk) (w : World) :
  exists (k : nat) (rows : list PageSection) (hs : list Store),
    let w' := fst (for_of cs (embed_section env p pid) w) in
    pages (db w') = pages (db w) /\
    page_seq (db w') = page_seq (db w) /\
    page_sections (db w') = page_sections (db w) ++ rows /\
    Forall2 (row_of env pid) (firstn k cs) rows /\
    failures w' = failures w /\
    history w' = hs ++ history w /\
    Forall (fun st => pages st = pages (db w)) hs /\
    match snd (for_of cs (embed_section env p pid) w) with
    | Normal _ =>
        k = List.length cs /\
        embed_calls w' = embed_calls w ++ map normalized cs
    | Throws _ =>
        (k < List.length cs)%nat /\
        embed_calls w' = embed_calls w ++ map normalized (firstn (S k) cs)
    end.
Proof.
  revert w. induction cs as [|c cs IH]; intros w.
  - exists 0%nat, [], []. cbn. rewrite !app_nil_r. repeat split; auto.
  - pose proof (embed_section_run c w) as Hone.
    destruct (embed_section env p pid c w) as [w1 [u|e]] eqn:Hrun;
      cbn [fst snd] in Hone;
      match goal with
      | |- context [for_of (c :: cs) ?body w] =>
          let Hb := fresh "Hb" in
          assert (Hb : for_of (c :: cs) body w
                       = match embed_section env p pid c w with
                         | (w', Normal _) => for_of cs body w'
                         | (w', Throws e) => (w', Throws e)
                         end) by reflexivity;
          rewrite Hb, Hrun; clear Hb
      end.
    + destruct Hone as (Hcalls & Hfail & Hpages & Hseq & row & Hrow & Hsec & Hhist).
      destruct (IH w1) as (k & rows & hs & Hp' & Hs' & Hsec' & Hrows & Hf' & Hh' & Hall & Hres).
      exists (S k), (row :: rows), (hs ++ [db w1]).
      cbn [firstn]. repeat split.
      * congruence.
      * congruence.
      * rewrite Hsec', Hsec, <- app_assoc. reflexivity.
      * constructor; assumption.
      * congruence.
      * rewrite Hh', Hhist, <- app_assoc. reflexivity.
      * apply Forall_app. split.
        -- eapply Forall_impl; [|exact Hall]. cbn. intros st Hst. congruence.
        -- constructor; [assumption | constructor].
      * destruct (snd (for_of cs (embed_section env p pid) w1)).
        -- destruct Hres as [-> Hc]. split; [reflexivity|].
           rewrite Hc, Hcalls, <- app_assoc. reflexivity.
        -- destruct Hres as [Hlt Hc]. split; [cbn; lia|].
           rewrite Hc, Hcalls, <- app_assoc. reflexivity.
    + destruct Hone as (Hcalls & Hfail & Hpages & Hseq & Hdb & Hhist).
      exists 0%nat, [], []. cbn [firstn app map fst snd].
      rewrite Hdb, app_nil_r. repeat split; auto.
      cbn. lia.
Qed.

(** When the store accepts every call and the provider answers usably for
    every chunk, the loop ends normally. *)
Lemma embed_sections_normal (cs : list Chunk) (w : World) :
  no_db_fault env -> embeddable env cs ->
  snd (for_of cs (embed_section env p pid) w) = Normal tt.
Proof.
  intros Hdb. revert w. induction cs as [|c cs IH]; intros w Hemb; [reflexivity|].
  cbn [for_of]. unfold bind at 1.
  assert (Hc : usable (embed_outcome env (List.length (embed_calls w)) (normalized c)) = true)
    by (apply Hemb; now left).
  assert (Hstep : snd (embed_section env p pid c w) = Normal tt).
  { unfold embed_section, try_catch, bind, createEmbedding, client_query, client_call.
    cbn [fst snd db_ops]. unfold normalized in Hc.
    destruct (embed_outcome env _ _) as [resp|e]; cbn in Hc; [|discriminate].
    apply andb_true_iff in Hc. destruct Hc as [Hst Hd]. rewrite Hst. cbn [negb].
    destruct (resp_data resp); [discriminate|].
    rewrite Hdb. reflexivity. }
  destruct (embed_section env p pid c w) as [w1 [[]|e]]; cbn in Hstep; [|discriminate].
  apply IH. intros n c' Hin. apply Hemb. now right.
Qed.

(** When the provider never answers usably for one of the chunks, the
    loop throws. *)
Lemma embed_sections_throw (cs : list Chunk) (c : Chunk) (w : World) :
  In c cs ->
  (forall n, usable (embed_outcome env n (normalized c)) = false) ->
  exists e, snd (for_of cs (embed_section env p pid) w) = Throws e.
Proof.
  intros Hin Hbad. revert w. induction cs as [|c0 cs IH]; intros w; [contradiction|].
  cbn [for_of]. unfold bind at 1.
  destruct (embed_section env p pid c0 w) as [w1 [u|e]] eqn:Hrun; [|now exists e].
  destruct Hin as [->|Hin]; [|now apply IH].
  exfalso. specialize (Hbad (List.length (embed_calls w))).
  unfold embed_section, try_catch, bind, createEmbedding, client_query, client_call,
    normalized in Hrun, Hbad.
  cbn [fst snd db_ops] in Hrun.
  destruct (embed_outcome env _ _) as [resp|e]; cbn in Hbad, Hrun; [|discriminate].
  destruct (resp_status resp =? 200); cbn in Hbad, Hrun; [|discriminate].
  destruct (resp_data resp); cbn in Hrun; discriminate.
Qed.

End SectionLoop.

(* ===================================================================== *)
(** ** The upsert, the section loop and the commit of the checksum *)
(* ===================================================================== *)

Lemma page_at_same_pages (st st' : Store) (q : string) :
  pages st' = pages st -> page_at st' q = page_at st q.
Proof. unfold page_at. now intros ->. Qed.

Lemma rows_of_payload (env : Env) (pid : Z) (cs : list Chunk) (rows : list PageSection) :
  Forall2 (row_of env pid) cs rows ->
  map payload rows = map chunk_payload cs /\
  Forall (fun r => section_page_id r = pid) rows.
Proof.
  induction 1 as [|c row cs rows Hrow _ [IH1 IH2]]; simpl; [now split|].
  destruct Hrow as (Hid & Hpay & _). split; [congruence | now constructor].
Qed.

Lemma filter_own_rows (pid : Z) (rows : list PageSection) :
  Forall (fun r => section_page_id r = pid) rows ->
  filter (fun s => section_page_id s =? pid) rows = rows.
Proof.
  induction 1 as [|r rows Hr _ IH]; simpl; [reflexivity|].
  rewrite Hr, Z.eqb_refl. now rewrite IH.
Qed.

Section WritePage.

Context (env : Env).
Variables (v : string) (d : Z) (s : EmbeddingSource) (l : LoadResult)
          (parentPage : option Page).

Let p := src_path s.
Let upsert := upsert_page p (src_type s) (src_source s) (meta l) (id_of parentPage) v d.

(** Symbolic run of [write_page]: nothing happens when the upsert is
    rejected; otherwise the page table is the one the upsert left until
    the checksum is committed, which happens exactly when the computation
    ends normally, and rows are appended for a prefix of the chunks. *)
Lemma write_page_run (w : World) :
  let st1 := fst (upsert (db w)) in
  let pid := snd (upsert (db w)) in
  let w' := fst (write_page env v d s l parentPage w) in
  match db_fault env (db_ops w) with
  | Some _ =>
      db w' = db w /\ history w' = history w /\ embed_calls w' = embed_calls w /\
      failures w' = failures w /\
      exists e, snd (write_page env v d s l parentPage w) = Throws e
  | None =>
      exists (k : nat) (rows : list PageSection) (hs : list Store),
        Forall2 (row_of env pid) (firstn k (sections l)) rows /\
        page_sections (db w') = page_sections (db w) ++ rows /\
        page_seq (db w') = page_seq st1 /\
        Forall (fun st => pages st = pages st1) hs /\
        failures w' = failures w /\
        embed_calls w' = embed_calls w ++ map normalized (firstn (S k) (sections l)) /\
        match snd (write_page env v d s l parentPage w) with
        | Normal _ =>
            k = List.length (sections l) /\
            pages (db w')
            = update_where (has_id pid) (set_checksum (Some (checksum l))) (pages st1) /\
            history w' = db w' :: hs ++ st1 :: history w
        | Throws _ =>
            pages (db w') = pages st1 /\
            history w' = hs ++ st1 :: history w /\
            ((k < List.length (sections l))%nat \/ exists n, db_fault env n <> None)
        end
  end.
Proof.
  intros st1 pid w'. subst w'.
  set (R := write_page env v d s l parentPage w).
  assert (HR : R = match db_fault env (db_ops w) with
                   | Some m => (rejected w, Throws (ErrorObj m))
                   | None =>
                       (console_write (LogAddingSections p (List.length (sections l))) ;;;
                        for_of (sections l) (embed_section env p pid) ;;;
                        client_call env (update_checksum (checksum l) pid))
                         (accepted st1 w)
                   end).
  { subst R. unfold write_page, client_query. unfold bind at 1. unfold client_call at 1.
    destruct (db_fault env (db_ops w)); reflexivity. }
  rewrite HR. clear HR R.
  destruct (db_fault env (db_ops w)) as [msg|] eqn:Hf.
  - simpl. repeat split; auto. now eexists.
  - set (w1 := mkWorld st1 (S (db_ops w)) (embed_calls w)
                       (console w ++ [LogAddingSections p (List.length (sections l))])
                       (failures w) (st1 :: history w)).
    set (R := (_ ;;; _) (accepted st1 w)).
    assert (HR : R = match for_of (sections l) (embed_section env p pid) w1 with
                     | (w2, Normal _) =>
                         client_call env (update_checksum (checksum l) pid) w2
                     | (w2, Throws e) => (w2, Throws e)
                     end) by reflexivity.
    rewrite HR. clear HR R.
    destruct (embed_sections_run env p pid (sections l) w1)
      as (k & rows & hs & Hp & Hseq & Hsec & Hrows & Hfl & Hh & Hall & Hres).
    assert (Hs1 : page_sections st1 = page_sections (db w)).
    { subst st1 upsert. unfold upsert_page.
      destruct (find (has_path p) (pages (db w))); reflexivity. }
    destruct (for_of (sections l) (embed_section env p pid) w1) as [w2 [u|e]] eqn:Hloop;
      cbn [fst snd] in *; subst w1; cbn [db history failures embed_calls] in *;
      rewrite Hs1 in Hsec.
    + destruct Hres as [Hk Hcalls].
      exists k, rows, hs.
      assert (Hfirst : firstn (S k) (sections l) = sections l)
        by (apply firstn_all2; lia).
      rewrite Hfirst.
      unfold client_call.
      destruct (db_fault env (db_ops w2)) as [msg|] eqn:Hf2; cbn [fst snd].
      * cbn. repeat split; auto.
        right. exists (db_ops w2). congruence.
      * cbn. rewrite Hp, Hh. repeat split; auto.
    + destruct Hres as [Hk Hcalls].
      exists k, rows, hs. repeat split; auto.
Qed.

(** The outcome of [write_page] when the store accepts every call: it
    ends normally if the provider answers usably for every chunk, and
    throws if there is a chunk for which it never does. *)
Lemma write_page_outcome (w : World) :
  no_db_fault env ->
  (embeddable env (sections l) ->
   snd (write_page env v d s l parentPage w) = Normal tt) /\
  (forall c, In c (sections l) ->
     (forall n, usable (embed_outcome env n (normalized c)) = false) ->
     exists e, snd (write_page env v d s l parentPage w) = Throws e).
Proof.
  intros Hdb.
  set (pid := snd (upsert (db w))). set (st1 := fst (upsert (db w))).
  set (w1 := mkWorld st1 (S (db_ops w)) (embed_calls w)
                     (console w ++ [LogAddingSections p (List.length (sections l))])
                     (failures w) (st1 :: history w)).
  assert (HR : write_page env v d s l parentPage w
               = match for_of (sections l) (embed_section env p pid) w1 with
                 | (w2, Normal _) =>
                     client_call env (update_checksum (checksum l) pid) w2
                 | (w2, Throws e) => (w2, Throws e)
                 end).
  { unfold write_page, client_query. unfold bind at 1. unfold client_call at 1.
    fold p. fold upsert. rewrite Hdb. reflexivity. }
  rewrite HR. split.
  - intros Hemb.
    pose proof (embed_sections_normal env p pid (sections l) w1 Hdb Hemb) as Hn.
    destruct (for_of (sections l) (embed_section env p pid) w1) as [w2 [u|e]];
      cbn in Hn; [|discriminate].
    rewrite call_accepted by apply Hdb. reflexivity.
  - intros c Hin Hbad.
    destruct (embed_sections_throw env p pid (sections l) c w1 Hin Hbad) as [e He].
    destruct (for_of (sections l) (embed_section env p pid) w1) as [w2 [u|e']];
      cbn in He; [discriminate|].
    now exists e'.
Qed.

End WritePage.

Section WritePageView.

Context (env : Env).
Variables (v : string) (d : Z) (s : EmbeddingSource) (l : LoadResult)
          (parentPage : option Page).

Let p := src_path s.

(** [write_page] seen from its path, when the upsert is accepted: the row
    carries the version of the run and a [NULL] checksum unless the
    computation ends normally, and the page owns, after the sections it
    owned before, one new row per chunk of a prefix of the chunks. *)
Lemma write_page_view (w : World) :
  wf (db w) -> db_fault env (db_ops w) = None ->
  let w' := fst (write_page env v d s l parentPage w) in
  exists (pg : Page) (k : nat) (rows : list PageSection),
    page_at (db w') p = Some pg /\
    page_version pg = v /\
    Forall2 (row_of env (page_id pg)) (firstn k (sections l)) rows /\
    sections_at (db w') p = sections_at (db w) p ++ rows /\
    page_sections (db w') = page_sections (db w) ++ rows /\
    embed_calls w' = embed_calls w ++ map normalized (firstn (S k) (sections l)) /\
    match snd (write_page env v d s l parentPage w) with
    | Normal _ =>
        k = List.length (sections l) /\ page_checksum pg = Some (checksum l)
    | Throws _ =>
        page_checksum pg = None /\
        ((k < List.length (sections l))%nat \/ exists n, db_fault env n <> None)
    end.
Proof.
  intros Hwf Hf w'.
  pose proof (write_page_run env v d s l parentPage w) as Hrun.
  cbv zeta in Hrun. rewrite Hf in Hrun. fold p in Hrun.
  destruct Hrun as (k & rows & hs & Hrows & Hsec & Hseq & Hall & Hfl & Hcalls & Hres).
  destruct (upsert_row p (src_type s) (src_source s) (meta l) (id_of parentPage) v d
              (db w) Hwf) as (pg1 & Hpg1 & Hid & Hck & Hver & Hsat).
  set (st1 := fst (upsert_page p (src_type s) (src_source s) (meta l)
                     (id_of parentPage) v d (db w))) in *.
  set (pid := snd (upsert_page p (src_type s) (src_source s) (meta l)
                     (id_of parentPage) v d (db w))) in *.
  assert (Hs1 : page_sections st1 = page_sections (db w)).
  { subst st1. unfold upsert_page.
    destruct (find (has_path p) (pages (db w))); reflexivity. }
  assert (Hown : sections_of (db w) pid = sections_at (db w) p).
  { rewrite <- Hsat. unfold sections_at. rewrite Hpg1, Hid.
    unfold sections_of. now rewrite Hs1. }
  destruct (rows_of_payload _ _ _ _ Hrows) as [_ Hpid].
  assert (Hmine : sections_of (db w') pid = sections_at (db w) p ++ rows).
  { unfold sections_of. subst w'. rewrite Hsec, filter_app.
    rewrite (filter_own_rows pid rows Hpid). fold (sections_of (db w) pid).
    now rewrite Hown. }
  subst w'.
  destruct (snd (write_page env v d s l parentPage w)) as [u|e].
  - destruct Hres as (Hk & Hpages & Hh).
    exists (set_checksum (Some (checksum l)) pg1), k, rows.
    assert (Hat : page_at (fst (write_page env v d s l parentPage w)) .(db) p
                  = Some (set_checksum (Some (checksum l)) pg1)).
    { unfold page_at. rewrite Hpages.
      rewrite find_update_where by (intros x; reflexivity).
      fold (page_at st1 p). rewrite Hpg1. simpl.
      assert (Hh1 : has_id pid pg1 = true) by now apply has_id_true.
      now rewrite Hh1. }
    repeat split; auto.
    + cbn. now rewrite Hid.
    + unfold sections_at. rewrite Hat. cbn [page_id set_checksum].
      now rewrite Hid.
  - destruct Hres as (Hpages & Hh & Hlt).
    exists pg1, k, rows.
    assert (Hat : page_at (fst (write_page env v d s l parentPage w)) .(db) p = Some pg1).
    { rewrite (page_at_same_pages st1); assumption. }
    repeat split; auto.
    + now rewrite Hid.
    + unfold sections_at. rewrite Hat. now rewrite Hid.
Qed.

End WritePageView.

(* ===================================================================== *)
(** ** One iteration of the loop over the sources *)
(* ===================================================================== *)

Section Iteration.

Context (env : Env).
Variables (refresh : bool) (v : string) (d : Z) (s : EmbeddingSource).

Let p := src_path s.

(** The [catch] of an iteration only writes to the console. *)
Lemma process_source_catch (w : World) :
  let b := process_source_body env refresh v d s w in
  let w' := fst (process_source env refresh v d s w) in
  snd (process_source env refresh v d s w) = Normal tt /\
  db w' = db (fst b) /\ db_ops w' = db_ops (fst b) /\
  embed_calls w' = embed_calls (fst b) /\
  failures w' = failures (fst b) /\ history w' = history (fst b) /\
  console w' = console (fst b) ++
               match snd b with
               | Normal _ => []
               | Throws e => [ErrPageFailed p; ErrValue e]
               end.
Proof.
  unfold process_source, try_catch.
  destruct (process_source_body env refresh v d s w) as [w1 [[]|e]]; simpl.
  - rewrite app_nil_r. repeat split.
  - rewrite <- app_assoc. repeat split.
Qed.

Lemma body_load_failure (e : Thrown) (w : World) :
  src_load s = Throws e ->
  process_source_body env refresh v d s w = (w, Throws e).
Proof.
  intros Hload. unfold process_source_body, bind, await. now rewrite Hload.
Qed.

(** When the store accepts every call, a source that is not unchanged
    reaches [write_page] in a store where its page owns no section and
    nothing else has changed. *)
Lemma body_resync (l : LoadResult) (w : World) :
  no_db_fault env -> wf (db w) ->
  src_load s = Normal l ->
  unchanged refresh (page_at (db w) p) (checksum l) = false ->
  exists (w3 : World) (parentPage : option Page),
    process_source_body env refresh v d s w = write_page env v d s l parentPage w3 /\
    wf (db w3) /\
    sections_at (db w3) p = [] /\
    page_at (db w3) p = page_at (db w) p /\
    page_sections (db w3)
    = match page_at (db w) p with
      | Some ep => filter (fun x => negb (section_page_id x =? page_id ep))
                          (page_sections (db w))
      | None => page_sections (db w)
      end /\
    embed_calls w3 = embed_calls w /\ failures w3 = failures w /\
    history w3 = db w3 :: (match page_at (db w) p with Some _ => [db w3] | None => [] end)
                  ++ db w :: history w.
Proof.
  intros Hdb Hwf Hload Hun.
  unfold process_source_body, bind at 1, await. rewrite Hload.
  unfold bind at 1, client_query. rewrite call_accepted by apply Hdb.
  cbn [fst snd select_page_by_path]. fold p. fold (page_at (db w) p).
  cbn [db accepted]. rewrite Hun.
  unfold resync. fold p.
  destruct (page_at (db w) p) as [ep|] eqn:Hep.
  - unfold bind at 1 2, console_write. rewrite call_accepted by apply Hdb.
    cbn [fst snd]. unfold bind at 1. rewrite call_accepted by apply Hdb.
    cbn [fst snd].
    eexists. eexists. split; [reflexivity|].
    assert (Hsel : forall st, fst (select_parent_by_path (src_parentPath s) st) = st)
      by (intros st; unfold select_parent_by_path; destruct (src_parentPath s); reflexivity).
    cbn [db accepted]. rewrite !Hsel.
    pose proof (confined_delete_sections p (db w) ep Hwf Hep) as Hc.
    cbn [fst delete_sections_of db] in *.
    split; [apply Hc|].
    split; [|repeat split; auto].
    unfold sections_at, page_at. cbn. fold (page_at (db w) p). rewrite Hep.
    unfold sections_of. cbn. apply filter_filter_same.
  - unfold bind at 1 2, ret. rewrite call_accepted by apply Hdb.
    cbn [fst snd].
    eexists. eexists. split; [reflexivity|].
    assert (Hsel : forall st, fst (select_parent_by_path (src_parentPath s) st) = st)
      by (intros st; unfold select_parent_by_path; destruct (src_parentPath s); reflexivity).
    cbn [db accepted]. rewrite !Hsel. cbn [db accepted].
    split; [assumption|].
    split; [|repeat split; auto].
    unfold sections_at. now rewrite Hep.
Qed.

End Iteration.

(* ===================================================================== *)
(** ** The unchanged branch *)
(* ===================================================================== *)

Lemma update_where_id (c : Page -> bool) (l : list Page) :
  update_where c (fun x => x) l = l.
Proof.
  unfold update_where. induction l as [|a l IH]; simpl; [reflexivity|].
  rewrite IH. now destruct (c a).
Qed.

Lemma update_where_twice (c : Page -> bool) (f g : Page -> Page) (l : list Page) :
  (forall x, c (f x) = c x) ->
  update_where c g (update_where c f l) = update_where c (fun x => g (f x)) l.
Proof.
  intros Hc. unfold update_where. rewrite map_map. apply map_ext.
  intros a. destruct (c a) eqn:Ha; [|now rewrite Ha].
  now rewrite Hc, Ha.
Qed.

Lemma update_where_related (R : Page -> Page -> Prop) (c : Page -> bool)
    (f : Page -> Page) (l : list Page) :
  (forall x, R x x) -> (forall x, c x = true -> R x (f x)) ->
  Forall2 R l (update_where c f l).
Proof.
  intros Hrefl Hf. induction l as [|a l IH]; simpl; constructor; auto.
  destruct (c a) eqn:Ha; auto.
Qed.

Section Unchanged.

Context (env : Env).
Variables (refresh : bool) (v : string) (d : Z) (s : EmbeddingSource).

Let p := src_path s.

Lemma body_unchanged_run (l : LoadResult) (ep : Page) (w w' : World)
    (r : Completion unit) :
  src_load s = Normal l ->
  page_at (db w) p = Some ep ->
  unchanged refresh (Some ep) (checksum l) = true ->
  process_source_body env refresh v d s w = (w', r) ->
  page_sections (db w') = page_sections (db w) /\
  embed_calls w' = embed_calls w /\
  failures w' = failures w /\
  page_seq (db w') = page_seq (db w) /\
  exists f,
    pages (db w') = update_where (has_id (page_id ep)) f (pages (db w)) /\
    (forall x, same_but_meta_and_parent x (f x)) /\
    (no_db_fault env ->
       r = Normal tt /\ forall x, f x = refreshed v d s (meta l) ep (db w) x).
Proof.
  intros Hload Hep Hun Hrun.
  unfold process_source_body, bind at 1, await in Hrun. rewrite Hload in Hrun.
  unfold client_query in Hrun. rewrite bind_call in Hrun.
  assert (Hid : forall x : Page, same_but_meta_and_parent x x)
    by (intros x; repeat split).
  assert (Hnone : forall m n, db_fault env n = Some m -> no_db_fault env -> False)
    by (intros m n Hn H; rewrite H in Hn; discriminate).
  assert (Hstop : forall w0 e,
            (w0, Throws e) = (w', r) -> db w0 = db w ->
            embed_calls w0 = embed_calls w -> failures w0 = failures w ->
            (no_db_fault env -> False) ->
            page_sections (db w') = page_sections (db w) /\
            embed_calls w' = embed_calls w /\
            failures w' = failures w /\
            page_seq (db w') = page_seq (db w) /\
            exists f,
              pages (db w') = update_where (has_id (page_id ep)) f (pages (db w)) /\
              (forall x, same_but_meta_and_parent x (f x)) /\
              (no_db_fault env ->
                 r = Normal tt /\ forall x, f x = refreshed v d s (meta l) ep (db w) x)).
  { intros w0 e Heq Hdb Hc Hfl Hno. injection Heq as <- <-.
    rewrite Hdb. repeat split; auto. exists (fun x => x).
    rewrite update_where_id. split; [reflexivity|]. split; [assumption|].
    intros H. exfalso. exact (Hno H). }
  destruct (db_fault env (db_ops w)) as [m1|] eqn:Hf1.
  { eapply Hstop; eauto. }
  cbn [fst snd select_page_by_path] in Hrun. fold p in Hrun.
  fold (page_at (db w) p) in Hrun.
  rewrite Hep, Hun in Hrun.
  unfold refresh_metadata, deref, client_query in Hrun.
  unfold bind at 1, ret in Hrun.
  rewrite bind_call in Hrun. cbn [db_ops accepted db] in Hrun.
  destruct (db_fault env (S (db_ops w))) as [m2|] eqn:Hf2.
  { eapply Hstop; eauto. }
  assert (Hsel : forall st, fst (select_page_by_id (parent_page_id ep) st) = st)
    by (intros st; unfold select_page_by_id; destruct (parent_page_id ep); reflexivity).
  assert (Hselp : forall st, fst (select_parent_by_path (src_parentPath s) st) = st)
    by (intros st; unfold select_parent_by_path; destruct (src_parentPath s); reflexivity).
  rewrite Hsel in Hrun.
  assert (Hfresh : forall x, refreshed v d s (meta l) ep (db w) x
            = set_meta (src_type s) (src_source s) (meta l) v d
                (if negb (option_eqb String.eqb
                            (stored_path (snd (select_page_by_id (parent_page_id ep) (db w))))
                            (src_parentPath s))
                 then set_parent (id_of (snd (select_parent_by_path (src_parentPath s)
                                                (db w)))) x
                 else x)) by reflexivity.
  destruct (negb (option_eqb String.eqb
                    (stored_path (snd (select_page_by_id (parent_page_id ep) (db w))))
                    (src_parentPath s))) eqn:Hpar.
  - unfold bind at 1 in Hrun. unfold bind at 1 in Hrun.
    unfold console_write at 1 in Hrun.
    rewrite bind_call in Hrun. cbn [db_ops accepted db] in Hrun.
    destruct (db_fault env (S (S (db_ops w)))) as [m3|] eqn:Hf3.
    { eapply Hstop; eauto. }
    rewrite Hselp in Hrun. unfold client_call at 1 in Hrun.
    cbn [db_ops accepted db] in Hrun.
    destruct (db_fault env (S (S (S (db_ops w))))) as [m4|] eqn:Hf4.
    { eapply Hstop; eauto. }
    cbn [fst snd update_parent_page_id] in Hrun.
    unfold client_call in Hrun. cbn [db_ops accepted db] in Hrun.
    destruct (db_fault env (S (S (S (S (db_ops w)))))) as [m5|] eqn:Hf5.
    + injection Hrun as <- <-. cbn. repeat split; auto.
      exists (set_parent (id_of (snd (select_parent_by_path (src_parentPath s) (db w))))).
      split; [reflexivity|]. split; [intros x; repeat split|].
      intros H. exfalso. eapply Hnone; eauto.
    + injection Hrun as <- <-. cbn. repeat split; auto.
      eexists. split; [apply update_where_twice; intros x; reflexivity|].
      split; [intros x; repeat split|].
      intros _. split; [reflexivity|]. intros x. now rewrite Hfresh.
  - unfold bind at 1, ret in Hrun. unfold client_call in Hrun.
    cbn [db_ops accepted db] in Hrun.
    destruct (db_fault env (S (S (db_ops w)))) as [m3|] eqn:Hf3.
    { eapply Hstop; eauto. }
    injection Hrun as <- <-. cbn. repeat split; auto.
    eexists. split; [reflexivity|].
    split; [intros x; repeat split|].
    intros _. split; [reflexivity|]. intros x. now rewrite Hfresh.
Qed.

End Unchanged.

(* ===================================================================== *)
(** ** What one iteration leaves at the path of its source *)
(* ===================================================================== *)

Lemma unchanged_true (refresh : bool) (existingPage : option Page) (c : string) :
  unchanged refresh existingPage c = true ->
  refresh = false /\
  exists ep, existingPage = Some ep /\ page_checksum ep = Some c.
Proof.
  unfold unchanged. intros H. apply andb_true_iff in H. destruct H as [Hr Hc].
  split; [now destruct refresh|].
  destruct existingPage as [ep|]; simpl in Hc; [|discriminate].
  exists ep. split; [reflexivity|].
  destruct (page_checksum ep) as [c'|]; simpl in Hc; [|discriminate].
  apply String.eqb_eq in Hc. now subst.
Qed.

Section IterationView.

Context (env : Env).
Variables (refresh : bool) (v : string) (d : Z) (s : EmbeddingSource).

Let p := src_path s.

(** An unchanged source: no section row and no provider call is added or
    removed, and only the row of the source is written, in columns other
    than [id], [path] and [checksum]. *)
Lemma iteration_unchanged (l : LoadResult) (ep : Page) (w : World) :
  src_load s = Normal l ->
  page_at (db w) p = Some ep ->
  unchanged refresh (Some ep) (checksum l) = true ->
  let w' := fst (process_source env refresh v d s w) in
  page_sections (db w') = page_sections (db w) /\
  embed_calls w' = embed_calls w /\
  failures w' = failures w /\
  sections_at (db w') p = sections_at (db w) p /\
  exists f,
    pages (db w') = update_where (has_id (page_id ep)) f (pages (db w)) /\
    (forall x, same_but_meta_and_parent x (f x)) /\
    page_at (db w') p = Some (f ep) /\
    (no_db_fault env -> forall x, f x = refreshed v d s (meta l) ep (db w) x).
Proof.
  intros Hload Hep Hun w'. subst w'.
  destruct (process_source_catch env refresh v d s w)
    as (_ & Hdb & _ & Hcalls & Hfl & _).
  cbv zeta in Hdb, Hcalls, Hfl. rewrite Hdb, Hcalls, Hfl.
  destruct (process_source_body env refresh v d s w) as [w1 r] eqn:Hrun.
  destruct (body_unchanged_run env refresh v d s l ep w w1 r Hload Hep Hun Hrun)
    as (Hsec & Hc & Hf & Hseq & f & Hpages & Hsame & Hno).
  cbn [fst].
  assert (Hat : page_at (db w1) p = Some (f ep)).
  { unfold page_at. rewrite Hpages. rewrite find_update_where.
    - fold (page_at (db w) p). rewrite Hep. simpl.
      assert (Hh : has_id (page_id ep) ep = true) by now apply has_id_true.
      now rewrite Hh.
    - intros x. unfold has_path. destruct (Hsame x) as (_ & Hp & _). now rewrite Hp. }
  repeat split; auto.
  - unfold sections_at. rewrite Hat, Hep. unfold sections_of. rewrite Hsec.
    destruct (Hsame ep) as (Hid & _). now rewrite Hid.
  - exists f. repeat split; auto.
    + apply Hsame.
    + apply Hsame.
    + apply Hsame.
    + intros Hnf. now apply Hno.
Qed.

(** A source that is not unchanged, when the store accepts every call: the
    row carries the version of the run, the page owns exactly the rows of
    a prefix of the chunks, the sections of other pages are as they were,
    and the checksum is the loaded one if the prefix is the whole list and
    [NULL] otherwise. *)
Lemma iteration_resync (l : LoadResult) (w : World) :
  no_db_fault env -> wf (db w) ->
  src_load s = Normal l ->
  unchanged refresh (page_at (db w) p) (checksum l) = false ->
  let w' := fst (process_source env refresh v d s w) in
  exists (pg : Page) (k : nat) (rows : list PageSection),
    page_at (db w') p = Some pg /\
    page_version pg = v /\
    Forall2 (row_of env (page_id pg)) (firstn k (sections l)) rows /\
    sections_at (db w') p = rows /\
    page_sections (db w')
    = match page_at (db w) p with
      | Some ep => filter (fun x => negb (section_page_id x =? page_id ep))
                          (page_sections (db w))
      | None => page_sections (db w)
      end ++ rows /\
    embed_calls w' = embed_calls w ++ map normalized (firstn (S k) (sections l)) /\
    ((k = List.length (sections l) /\ page_checksum pg = Some (checksum l)) \/
     ((k < List.length (sections l))%nat /\ page_checksum pg = None)) /\
    (embeddable env (sections l) -> k = List.length (sections l)) /\
    (forall c, In c (sections l) ->
       (forall n, usable (embed_outcome env n (normalized c)) = false) ->
       (k < List.length (sections l))%nat).
Proof.
  intros Hdb Hwf Hload Hun w'. subst w'.
  destruct (process_source_catch env refresh v d s w)
    as (_ & Hdb' & _ & Hcalls & _).
  cbv zeta in Hdb', Hcalls. rewrite Hdb', Hcalls.
  destruct (body_resync env refresh v d s l w Hdb Hwf Hload Hun)
    as (w3 & parentPage & Hbody & Hwf3 & Hnone & Hat3 & Hsec3 & Hcalls3 & _).
  rewrite Hbody.
  destruct (write_page_view env v d s l parentPage w3 Hwf3 (Hdb _))
    as (pg & k & rows & Hat & Hver & Hrows & Hsat & Hsec & Hc & Hres).
  destruct (write_page_outcome env v d s l parentPage w3 Hdb) as [Hok Hbad].
  fold p in Hat, Hsat, Hnone, Hat3, Hsec3.
  exists pg, k, rows.
  rewrite Hnone in Hsat. cbn [app] in Hsat.
  rewrite Hsec3 in Hsec. rewrite Hcalls3 in Hc.
  repeat split; auto.
  - destruct (snd (write_page env v d s l parentPage w3)) as [u|e].
    + left. exact Hres.
    + right. destruct Hres as [Hck [Hlt|[n Hn]]]; [now split|].
      exfalso. apply Hn. apply Hdb.
  - intros Hemb. rewrite (Hok Hemb) in Hres. apply Hres.
  - intros c Hin Hc'. destruct (Hbad c Hin Hc') as [e He].
    rewrite He in Hres. destruct Hres as [_ [Hlt|[n Hn]]]; [assumption|].
    exfalso. apply Hn. apply Hdb.
Qed.

End IterationView.

(* ===================================================================== *)
(** ** Checksum-gated regeneration, reparenting, section order *)
(* ===================================================================== *)

(** C2. The unchanged case is exactly: [shouldRefresh] false and a row of
    the path whose stored checksum equals the loaded one.  Such a source
    causes no provider call and leaves every section row as it was.  In
    every other case (no row, a differing or [NULL] stored checksum, or
    [shouldRefresh] true), when the store accepts
    every call and the provider answers usably for every chunk, the
    sections the existing page owned are all deleted and one row per
    chunk is inserted, each with the answer of a provider call made for
    it in this iteration; the page then carries the loaded checksum. *)
Theorem checksum_gated_regeneration (env : Env) (refresh : bool) (v : string) (d : Z)
    (s : EmbeddingSource) (l : LoadResult) (w : World) :
  wf (db w) ->
  src_load s = Normal l ->
  let w' := fst (process_source env refresh v d s w) in
  (unchanged refresh (page_at (db w) (src_path s)) (checksum l) = true <->
   refresh = false /\
   exists ep, page_at (db w) (src_path s) = Some ep /\
              page_checksum ep = Some (checksum l)) /\
  if unchanged refresh (page_at (db w) (src_path s)) (checksum l) then
    embed_calls w' = embed_calls w /\
    page_sections (db w') = page_sections (db w)
  else
    no_db_fault env -> embeddable env (sections l) ->
    exists (pg : Page) (rows : list PageSection),
      page_at (db w') (src_path s) = Some pg /\
      page_checksum pg = Some (checksum l) /\
      Forall2 (row_of env (page_id pg)) (sections l) rows /\
      sections_at (db w') (src_path s) = rows /\
      page_sections (db w')
      = match page_at (db w) (src_path s) with
        | Some ep => filter (fun x => negb (section_page_id x =? page_id ep))
                            (page_sections (db w))
        | None => page_sections (db w)
        end ++ rows /\
      embed_calls w' = embed_calls w ++ map normalized (sections l).
Proof.
  intros Hwf Hload w'. split.
  { split; [apply unchanged_true|].
    intros (-> & ep & -> & Hck). unfold unchanged. simpl. rewrite Hck. simpl.
    apply String.eqb_refl. }
  destruct (unchanged refresh (page_at (db w) (src_path s)) (checksum l)) eqn:Hun.
  - destruct (unchanged_true _ _ _ Hun) as (_ & ep & Hep & _).
    rewrite Hep in Hun.
    destruct (iteration_unchanged env refresh v d s l ep w Hload Hep Hun)
      as (Hsec & Hcalls & _).
    now split.
  - intros Hdb Hemb.
    destruct (iteration_resync env refresh v d s l w Hdb Hwf Hload Hun)
      as (pg & k & rows & Hat & _ & Hrows & Hsat & Hsec & Hcalls & Hres & Hall & _).
    specialize (Hall Hemb). subst k.
    rewrite firstn_all in Hrows.
    rewrite firstn_all2 in Hcalls by lia.
    exists pg, rows. repeat split; auto.
    destruct Hres as [[_ Hck]|[Hlt _]]; [assumption | lia].
Qed.

Lemma checksum_gated_regeneration_witness :
  exists (pg : Page) (rows : list PageSection),
    page_at (db (fst (process_source Demo.env1 false "run-1" 1000 Demo.src_a Demo.world0)))
            "a.md" = Some pg /\
    page_checksum pg = Some "sha:a.md" /\
    Forall2 (row_of Demo.env1 (page_id pg)) (Demo.chunks_of "a.md") rows /\
    sections_at (db (fst (process_source Demo.env1 false "run-1" 1000 Demo.src_a
                            Demo.world0))) "a.md" = rows /\
    page_sections (db (fst (process_source Demo.env1 false "run-1" 1000 Demo.src_a
                              Demo.world0))) = [] ++ rows /\
    embed_calls (fst (process_source Demo.env1 false "run-1" 1000 Demo.src_a Demo.world0))
    = [] ++ map normalized (Demo.chunks_of "a.md").
Proof.
  assert (Hwf : wf (db Demo.world0)).
  { constructor; simpl; constructor. }
  destruct (checksum_gated_regeneration Demo.env1 false "run-1" 1000 Demo.src_a
              (Demo.loaded "a.md") Demo.world0 Hwf eq_refl) as [_ H].
  apply H.
  - intros n. reflexivity.
  - intros n c _. reflexivity.
Defined.

(** C6. A source whose checksum matches the stored one while the stored
    parent differs from its [parentPath], with [shouldRefresh] false:
    every section row and the provider are left alone, no row but the
    row of the source is written, and that row keeps its id, path and
    checksum; when the store accepts every call the row ends with the
    re-resolved parent and the fresh type, source, meta, version and
    last_refresh. *)
Theorem reparenting_keeps_checksum_and_sections (env : Env) (v : string) (d : Z)
    (s : EmbeddingSource) (l : LoadResult) (ep : Page) (w : World) :
  src_load s = Normal l ->
  page_at (db w) (src_path s) = Some ep ->
  page_checksum ep = Some (checksum l) ->
  parent_differs s ep (db w) = true ->
  let w' := fst (process_source env false v d s w) in
  page_sections (db w') = page_sections (db w) /\
  embed_calls w' = embed_calls w /\
  Forall2 (fun x y => same_but_meta_and_parent x y /\ (page_id x <> page_id ep -> y = x))
          (pages (db w)) (pages (db w')) /\
  (exists pg, page_at (db w') (src_path s) = Some pg /\
              page_checksum pg = Some (checksum l)) /\
  (no_db_fault env ->
     page_at (db w') (src_path s)
     = Some (set_meta (src_type s) (src_source s) (meta l) v d
               (set_parent (resolved_parent s (db w)) ep))).
Proof.
  intros Hload Hep Hck Hpar w'.
  assert (Hun : unchanged false (Some ep) (checksum l) = true).
  { unfold unchanged. simpl. rewrite Hck. simpl. apply String.eqb_refl. }
  destruct (iteration_unchanged env false v d s l ep w Hload Hep Hun)
    as (Hsec & Hcalls & _ & _ & f & Hpages & Hsame & Hat & Hno).
  fold w' in Hsec, Hcalls, Hpages, Hat.
  repeat split; auto.
  - rewrite Hpages. apply update_where_related.
    + intros x. split; [repeat split | reflexivity].
    + intros x Hx. split; [apply Hsame|].
      apply has_id_true in Hx. intros Hne. contradiction.
  - exists (f ep). split; [assumption|].
    destruct (Hsame ep) as (_ & _ & Hc). congruence.
  - intros Hdb. rewrite Hat, (Hno Hdb). unfold refreshed. now rewrite Hpar.
Qed.

Lemma reparenting_keeps_checksum_and_sections_witness :
  page_sections (db (fst (process_source Demo.env2 false "run-2" 2000 Demo.src_c
                            Demo.world1)))
  = page_sections (db Demo.world1) /\
  page_at (db (fst (process_source Demo.env2 false "run-2" 2000 Demo.src_c Demo.world1)))
          "b/c.mdx"
  = Some (mkPage 2 "b/c.mdx" (Some "sha:b/c.mdx") "markdown" "markdown" "{}" None
                 "run-2" 2000).
Proof.
  pose proof (reparenting_keeps_checksum_and_sections Demo.env2 "run-2" 2000 Demo.src_c
                (Demo.loaded "b/c.mdx") Demo.page_c Demo.world1
                eq_refl eq_refl eq_refl eq_refl) as H.
  destruct H as (Hsec & _ & _ & _ & Hrow).
  split; [exact Hsec|].
  apply Hrow. intros n. reflexivity.
Defined.

Lemma replace_newlines_length (s : string) :
  String.length (replace_newlines s) = String.length s.
Proof. induction s as [|c s IH]; simpl; [reflexivity | now rewrite IH]. Qed.

(** C8 (amended). The section loop calls the provider with the content
    of each chunk in which every newline is replaced by one space, and
    (a run of newlines becomes as many spaces), and inserts rows in the
    order of the chunks, one per chunk of a prefix of the list (the whole
    list when the loop ends normally), without looking at slugs; the
    content stored in a row is the content of the chunk as loaded, not
    the normalised text. *)
Theorem sections_follow_source_order (env : Env) (path : string) (pid : Z)
    (cs : list Chunk) (w : World) :
  exists (k : nat) (rows : list PageSection),
    let w' := fst (for_of cs (embed_section env path pid) w) in
    page_sections (db w') = page_sections (db w) ++ rows /\
    Forall2 (row_of env pid) (firstn k cs) rows /\
    map section_content rows = map content (firstn k cs) /\
    map section_slug rows = map slug (firstn k cs) /\
    Forall (fun c => String.length (replace_newlines (content c))
                     = String.length (content c)) cs /\
    match snd (for_of cs (embed_section env path pid) w) with
    | Normal _ =>
        k = List.length cs /\
        embed_calls w'
        = embed_calls w ++ map (fun c => replace_newlines (content c)) cs
    | Throws _ =>
        (k < List.length cs)%nat /\
        embed_calls w'
        = embed_calls w ++ map (fun c => replace_newlines (content c)) (firstn (S k) cs)
    end.
Proof.
  destruct (embed_sections_run env path pid cs w)
    as (k & rows & hs & _ & _ & Hsec & Hrows & _ & _ & _ & Hres).
  exists k, rows. cbv zeta. repeat split; auto.
  - clear Hres Hsec. induction Hrows as [|c row cs' rows' Hrow _ IH]; simpl;
      [reflexivity|].
    destruct Hrow as (_ & Hpay & _). unfold payload, chunk_payload in Hpay.
    injection Hpay as _ _ Hc. now rewrite Hc, IH.
  - clear Hres Hsec. induction Hrows as [|c row cs' rows' Hrow _ IH]; simpl;
      [reflexivity|].
    destruct Hrow as (_ & Hpay & _). unfold payload, chunk_payload in Hpay.
    injection Hpay as Hs _ _. now rewrite Hs, IH.
  - apply Forall_forall. intros c _. apply replace_newlines_length.
Qed.

(** The claim as the specification has it fails on a chunk with a
    newline: the provider is sent the normalised text, the row keeps the
    text as loaded. *)
Lemma stored_content_is_not_normalized :
  let c := mkChunk "intro" "Intro" "first line
second line" in
  let w' := fst (embed_section Demo.env1 "a.md" 1 c Demo.world0) in
  embed_calls w' = ["first line second line"] /\
  map section_content (page_sections (db w')) = ["first line
second line"] /\
  map section_content (page_sections (db w')) <> [replace_newlines (content c)].
Proof.
  vm_compute. repeat split; discriminate.
Qed.

(* ===================================================================== *)
(** ** The loop over the sources *)
(* ===================================================================== *)

Section SourceLoop.

Context (env : Env).
Variables (refresh : bool) (v : string) (d : Z).

Let body := process_source env refresh v d.

Lemma loop_cons (s : EmbeddingSource) (ss : list EmbeddingSource) (w : World) :
  for_of (s :: ss) body w = for_of ss body (fst (body s w)).
Proof.
  cbn [for_of]. unfold bind.
  destruct (process_source_catch env refresh v d s w) as (Hn & _).
  fold body in Hn. destruct (body s w) as [w1 r]. cbn in Hn. now subst r.
Qed.

(** No iteration lets an error escape: the loop always ends normally. *)
Lemma loop_never_throws (ss : list EmbeddingSource) (w : World) :
  snd (for_of ss body w) = Normal tt.
Proof.
  revert w. induction ss as [|s ss IH]; intros w; [reflexivity|].
  rewrite loop_cons. apply IH.
Qed.

Lemma iteration_confined (s : EmbeddingSource) (w : World) :
  wf (db w) -> confined (src_path s) (db w) (db (fst (body s w))).
Proof.
  intros Hwf.
  pose proof (process_source_confined env refresh v d s (db w) w
                (confined_refl _ _ Hwf)) as H.
  fold body in H. destruct (body s w) as [w1 [u|e]]; [exact H | contradiction].
Qed.

(** The loop keeps the constraints, leaves alone every path that is not
    the path of one of its sources, removes no row, and never reports a
    fatal failure. *)
Lemma loop_confined (ss : list EmbeddingSource) (w : World) :
  wf (db w) ->
  let w' := fst (for_of ss body w) in
  wf (db w') /\
  (forall q, ~ In q (map src_path ss) ->
     page_at (db w') q = page_at (db w) q /\
     sections_at (db w') q = sections_at (db w) q) /\
  (forall q pg, page_at (db w) q = Some pg ->
     exists pg', page_at (db w') q = Some pg' /\ page_id pg' = page_id pg).
Proof.
  revert w. induction ss as [|s ss IH]; intros w Hwf.
  - cbn. split; [assumption|]. split; [intros q _; split; reflexivity|].
    intros q pg H. now exists pg.
  - cbv zeta. rewrite loop_cons.
    pose proof (iteration_confined s w Hwf) as Hc.
    destruct (IH (fst (body s w)) (conf_wf _ _ _ Hc)) as (Hwf' & Hout & Hkeep).
    split; [exact Hwf'|]. split.
    + intros q Hq. cbn [map] in Hq.
      assert (Hq1 : q <> src_path s) by (intros ->; apply Hq; now left).
      assert (Hq2 : ~ In q (map src_path ss)) by (intros H; apply Hq; now right).
      destruct (Hout q Hq2) as [Hp Hs].
      rewrite Hp, Hs. split; [now apply (conf_pages _ _ _ Hc) | now apply (conf_sections _ _ _ Hc)].
    + intros q pg Hpg.
      assert (H1 : exists pg1, page_at (db (fst (body s w))) q = Some pg1 /\
                               page_id pg1 = page_id pg).
      { destruct (string_dec q (src_path s)) as [->|Hne].
        - now apply (conf_own _ _ _ Hc).
        - exists pg. split; [|reflexivity].
          now rewrite (conf_pages _ _ _ Hc q Hne). }
      destruct H1 as (pg1 & Hpg1 & Hid1).
      destruct (Hkeep q pg1 Hpg1) as (pg' & Hpg' & Hid').
      exists pg'. split; [assumption | congruence].
Qed.

(** With pairwise distinct paths, what the loop leaves at the path of a
    source is what the iteration of that source left there, and that
    iteration started from what the loop found there. *)
Lemma loop_view (ss : list EmbeddingSource) (s : EmbeddingSource) (w : World) :
  NoDup (map src_path ss) -> In s ss -> wf (db w) ->
  exists w1,
    wf (db w1) /\
    page_at (db w1) (src_path s) = page_at (db w) (src_path s) /\
    sections_at (db w1) (src_path s) = sections_at (db w) (src_path s) /\
    page_at (db (fst (for_of ss body w))) (src_path s)
    = page_at (db (fst (body s w1))) (src_path s) /\
    sections_at (db (fst (for_of ss body w))) (src_path s)
    = sections_at (db (fst (body s w1))) (src_path s).
Proof.
  revert w. induction ss as [|a ss IH]; intros w Hnd Hin Hwf; [contradiction|].
  cbn [map] in Hnd. inversion Hnd as [|? ? Hnotin Hnd']; subst.
  rewrite loop_cons.
  pose proof (iteration_confined a w Hwf) as Hc.
  destruct Hin as [->|Hin].
  - exists w. split; [assumption|]. split; [reflexivity|]. split; [reflexivity|].
    destruct (loop_confined ss (fst (body s w)) (conf_wf _ _ _ Hc)) as (_ & Hout & _).
    now apply Hout.
  - assert (Hne : src_path s <> src_path a).
    { intros Heq. apply Hnotin. rewrite <- Heq. now apply in_map. }
    destruct (IH (fst (body a w)) Hnd' Hin (conf_wf _ _ _ Hc))
      as (w1 & Hwf1 & Hp1 & Hs1 & Hfin).
    exists w1. split; [assumption|].
    rewrite Hp1, Hs1.
    split; [now apply (conf_pages _ _ _ Hc)|].
    split; [now apply (conf_sections _ _ _ Hc) | exact Hfin].
Qed.

End SourceLoop.

(* ===================================================================== *)
(** ** The final sweep *)
(* ===================================================================== *)

Lemma NoDup_map_filter {A B : Type} (key : A -> B) (P : A -> bool) (l : list A) :
  NoDup (map key l) -> NoDup (map key (filter P l)).
Proof.
  induction l as [|a l IH]; simpl; intros Hnd; [constructor|].
  inversion Hnd as [|? ? Hnotin Hnd']; subst.
  destruct (P a); simpl; [|now apply IH].
  constructor; [|now apply IH].
  intros Hin. apply Hnotin. apply in_map_iff in Hin.
  destruct Hin as [x [Hx Hin]]. apply filter_In in Hin.
  rewrite <- Hx. apply in_map. tauto.
Qed.

Lemma wf_sweep (v : string) (st : Store) :
  wf st -> wf (fst (delete_stale_pages v st)).
Proof.
  intros [H1 H2 H3 H4]. unfold delete_stale_pages. cbn [fst].
  constructor; unfold page_ids, page_paths in *; cbn [pages page_seq page_sections].
  - now apply NoDup_map_filter.
  - now apply NoDup_map_filter.
  - apply Forall_forall. intros i Hi. apply in_map_iff in Hi.
    destruct Hi as [pg [<- Hin]]. apply filter_In in Hin.
    rewrite Forall_forall in H3. apply H3. apply in_map. tauto.
  - apply Forall_forall. intros x Hx. apply filter_In in Hx.
    destruct Hx as [Hx Hkeep].
    rewrite Forall_forall in H4. pose proof (H4 x Hx) as Hid.
    apply in_map_iff in Hid. destruct Hid as [pg [Hpid Hpg]].
    apply in_map_iff. exists pg. split; [assumption|].
    apply filter_In. split; [assumption|].
    destruct (String.eqb (page_version pg) v) eqn:Hv; [reflexivity|].
    exfalso. apply negb_true_iff in Hkeep.
    assert (Hex : existsb (has_id (section_page_id x))
                    (filter (fun p => negb (String.eqb (page_version p) v)) (pages st))
                  = true).
    { apply existsb_exists. exists pg. split.
      - apply filter_In. split; [assumption|]. now rewrite Hv.
      - now apply has_id_true. }
    congruence.
Qed.

Lemma find_filter {A : Type} (P Q : A -> bool) (l : list A) (x : A) :
  find P l = Some x -> Q x = true -> find P (filter Q l) = Some x.
Proof.
  induction l as [|a l IH]; simpl; [discriminate|].
  destruct (P a) eqn:Ha.
  - intros H Hq. injection H as ->. rewrite Hq. simpl. now rewrite Ha.
  - intros H Hq. destruct (Q a); simpl; [rewrite Ha|]; now apply IH.
Qed.

Lemma page_at_sweep (v : string) (st : Store) (q : string) (pg : Page) :
  page_at st q = Some pg -> page_version pg = v ->
  page_at (fst (delete_stale_pages v st)) q = Some pg.
Proof.
  intros Hat Hv. unfold page_at, delete_stale_pages. cbn [fst pages].
  apply find_filter; [exact Hat|]. rewrite Hv. apply String.eqb_refl.
Qed.

Lemma in_sweep (v : string) (st : Store) (pg : Page) :
  In pg (pages (fst (delete_stale_pages v st))) <->
  In pg (pages st) /\ page_version pg = v.
Proof.
  unfold delete_stale_pages. cbn [fst pages]. rewrite filter_In.
  now rewrite String.eqb_eq.
Qed.

Lemma filter_all {A : Type} (P : A -> bool) (l : list A) :
  (forall x, In x l -> P x = true) -> filter P l = l.
Proof.
  induction l as [|a l IH]; simpl; intros H; [reflexivity|].
  rewrite (H a (or_introl eq_refl)). rewrite IH; auto.
Qed.

Lemma filter_none {A : Type} (P : A -> bool) (l : list A) :
  (forall x, In x l -> P x = false) -> filter P l = [].
Proof.
  induction l as [|a l IH]; simpl; intros H; [reflexivity|].
  rewrite (H a (or_introl eq_refl)). apply IH; auto.
Qed.

(** A sweep that finds every row stamped with the version of the run
    changes nothing. *)
Lemma sweep_noop (v : string) (st : Store) :
  (forall pg, In pg (pages st) -> page_version pg = v) ->
  fst (delete_stale_pages v st) = st.
Proof.
  intros Hall. unfold delete_stale_pages. cbn [fst].
  rewrite (filter_none (fun p => negb (String.eqb (page_version p) v))).
  - rewrite filter_all.
    + rewrite filter_all; [now destruct st | reflexivity].
    + intros pg Hpg. rewrite (Hall pg Hpg). apply String.eqb_refl.
  - intros pg Hpg. rewrite (Hall pg Hpg). now rewrite String.eqb_refl.
Qed.

(* ===================================================================== *)
(** ** A whole run *)
(* ===================================================================== *)

(** [generateEmbeddings] unfolded: the only calls whose failure leaves the
    function are [connect], [walk], the sweep and [end]. *)
Lemma generateEmbeddings_run (env : Env) (props : GenerateEmbeddingsProps) (w : World) :
  generateEmbeddings env props w
  = match db_fault env (db_ops w) with
    | Some m => (rejected w, Throws (ErrorObj m))
    | None =>
        match walk env (docsRootPath props) with
        | Throws e => (accepted (db w) w, Throws e)
        | Normal entries =>
            let wl := logged [LogRemovingOldPages]
                        (after_loop env (refresh_flag props) entries w) in
            match db_fault env (db_ops wl) with
            | Some m => (rejected wl, Throws (ErrorObj m))
            | None =>
                let ws := after_sweep env (refresh_flag props) entries w in
                match db_fault env (db_ops ws) with
                | Some m => (rejected ws, Throws (ErrorObj m))
                | None => (accepted (db ws) ws, Normal tt)
                end
            end
        end
    end.
Proof.
  unfold generateEmbeddings, client_connect, client_end, client_query.
  rewrite bind_call. destruct (db_fault env (db_ops w)) as [m|]; [reflexivity|].
  cbn [fst snd]. unfold bind at 1, await.
  destruct (walk env (docsRootPath props)) as [entries|e]; [|reflexivity].
  unfold bind at 1. unfold console_write at 1.
  unfold bind at 1. unfold console_write at 1.
  unfold bind at 1.
  fold (refresh_flag props).
  unfold after_sweep, after_loop, logged.
  pose proof (loop_never_throws env (refresh_flag props) (uuidv4 env) (now env)
                (discover env entries)) as Hn.
  match goal with
  | |- context [for_of ?l ?b ?w0] => specialize (Hn w0); destruct (for_of l b w0) as [wl r]
  end.
  cbn [snd] in Hn. subst r. cbn [fst].
  unfold bind at 1. unfold console_write at 1.
  rewrite bind_call. cbn [db_ops db].
  destruct (db_fault env (db_ops wl)) as [m|]; [reflexivity|].
  cbn [fst snd]. unfold bind at 1. unfold console_write at 1.
  unfold client_call. cbn [db_ops db accepted].
  destruct (db_fault env (S (db_ops wl))) as [m|]; reflexivity.
Qed.

(* ===================================================================== *)
(** ** What an iteration can do to the console and to the failure signal *)
(* ===================================================================== *)

Section Footprint.

Context (env : Env).
Variables (P : World -> Prop) (HP : keeps P).

Let inv {A : Type} (m : Async A) : Prop := hoare P m (fun _ => P) (fun _ => P).

Lemma inv_ret {A : Type} (a : A) : inv (ret a).
Proof. apply hoare_ret. auto. Qed.

Lemma inv_throw {A : Type} (e : Thrown) : inv (@throw A e).
Proof. apply hoare_throw. auto. Qed.

Lemma inv_bind {A B : Type} (m : Async A) (k : A -> Async B) :
  inv m -> (forall a, inv (k a)) -> inv (bind m k).
Proof. intros Hm Hk. eapply hoare_bind; [exact Hm | exact Hk]. Qed.

Lemma inv_try_catch {A : Type} (m : Async A) (h : Thrown -> Async A) :
  inv m -> (forall e, inv (h e)) -> inv (try_catch m h).
Proof. intros Hm Hh. eapply hoare_try_catch; [exact Hm | exact Hh]. Qed.

Lemma inv_for_of {A : Type} (l : list A) (body : A -> Async unit) :
  (forall x, inv (body x)) -> inv (for_of l body).
Proof.
  intros Hb. eapply hoare_conseq.
  - apply hoare_for_of with (I := P) (E := fun _ => P). intros x _. apply Hb.
  - auto.
  - auto.
  - auto.
Qed.

Lemma inv_call {A : Type} (stmt : Store -> Store * A) : inv (client_call env stmt).
Proof.
  apply hoare_call; intros; unfold rejected, accepted; now apply HP.
Qed.

Lemma inv_console (ev : LogEvent) : per_source ev = true -> inv (console_write ev).
Proof.
  intros Hev. apply hoare_console. intros w Hw.
  destruct HP as [_ H2]. exact (H2 w ev Hev Hw).
Qed.

Lemma inv_embedding (input : string) : inv (createEmbedding env input).
Proof.
  apply hoare_embedding. intros w Hw.
  destruct (embed_outcome env _ _); now apply HP.
Qed.

Lemma inv_await {A : Type} (c : Completion A) : inv (await c).
Proof. apply hoare_await; auto. Qed.

Lemma embed_section_keeps (path : string) (pid : Z) (c : Chunk) :
  inv (embed_section env path pid c).
Proof.
  unfold embed_section. apply inv_try_catch.
  - apply inv_bind; [apply inv_embedding|]. intros r.
    destruct (negb _); [apply inv_throw|].
    destruct (resp_data r); [apply inv_throw|].
    apply inv_bind; [apply inv_call | intros _; apply inv_ret].
  - intros e. apply inv_bind; [now apply inv_console | intros _; apply inv_throw].
Qed.

Lemma process_source_body_keeps (refresh : bool) (v : string) (d : Z)
    (s : EmbeddingSource) :
  inv (process_source_body env refresh v d s).
Proof.
  unfold process_source_body. apply inv_bind; [apply inv_await|]. intros l.
  apply inv_bind; [apply inv_call|]. intros existingPage.
  destruct (unchanged _ _ _).
  - unfold refresh_metadata. apply inv_bind.
    + unfold deref. destruct existingPage; [apply inv_ret | apply inv_throw].
    + intros ep. apply inv_bind; [apply inv_call|]. intros existingParentPage.
      apply inv_bind; [|intros _; apply inv_call].
      destruct (negb _); [|apply inv_ret].
      apply inv_bind; [now apply inv_console|]. intros _.
      apply inv_bind; [apply inv_call | intros parentPage; apply inv_call].
  - unfold resync. apply inv_bind.
    + destruct existingPage; [|apply inv_ret].
      apply inv_bind; [now apply inv_console | intros _; apply inv_call].
    + intros _. apply inv_bind; [apply inv_call|]. intros parentPage.
      unfold write_page. apply inv_bind; [apply inv_call|]. intros pageId.
      apply inv_bind; [now apply inv_console|]. intros _.
      apply inv_bind; [|intros _; apply inv_call].
      apply inv_for_of. intros c. apply embed_section_keeps.
Qed.

Lemma process_source_keeps (refresh : bool) (v : string) (d : Z) (s : EmbeddingSource)
    (w : World) :
  P w -> P (fst (process_source env refresh v d s w)).
Proof.
  intros Hw. unfold process_source, try_catch.
  pose proof (process_source_body_keeps refresh v d s w Hw) as Hb.
  destruct (process_source_body env refresh v d s w) as [w1 [u|e]]; [exact Hb|].
  cbn. destruct HP as [_ H2].
  apply (H2 (logged [ErrPageFailed (src_path s)] w1) (ErrValue e) eq_refl).
  apply (H2 w1 (ErrPageFailed (src_path s)) eq_refl). exact Hb.
Qed.

Lemma loop_keeps (refresh : bool) (v : string) (d : Z) (ss : list EmbeddingSource)
    (w : World) :
  P w -> P (fst (for_of ss (process_source env refresh v d) w)).
Proof.
  revert w. induction ss as [|s ss IH]; intros w Hw; [exact Hw|].
  rewrite loop_cons. apply IH. now apply process_source_keeps.
Qed.

End Footprint.

(** The loop never touches the failure signal of the action. *)
Lemma loop_failures (env : Env) (refresh : bool) (v : string) (d : Z)
    (ss : list EmbeddingSource) (w : World) :
  failures (fst (for_of ss (process_source env refresh v d) w)) = failures w.
Proof.
  apply (loop_keeps env (fun w' => failures w' = failures w)); [|reflexivity].
  split; intros; assumption.
Qed.

(* ===================================================================== *)
(** ** The entry point *)
(* ===================================================================== *)

(** C9. [run] itself never throws, and what it reports with
    [core.setFailed] is exactly the first error that leaves
    [generateEmbeddings]: the rejection of [connect], else the error
    thrown by the walk of the tree, else the rejection of the sweep, else
    the rejection of [end], each an instance of [Error] reported by its
    message; nothing is reported otherwise, whatever failed inside the
    iterations of the loop, whose errors only reach the console. *)
Theorem run_reports_first_uncaught_error (env : Env) (w : World) :
  snd (run env w) = Normal tt /\
  failures (fst (run env w))
  = failures w ++
    match db_fault env (db_ops w) with
    | Some message => [message]
    | None =>
        match walk env (getInput env "docs-root-path") with
        | Throws e => reported e
        | Normal entries =>
            let wl := after_loop env false entries w in
            match db_fault env (db_ops wl) with
            | Some message => [message]
            | None =>
                match db_fault env (S (db_ops wl)) with
                | Some message => [message]
                | None => []
                end
            end
        end
    end.
Proof.
  unfold run, try_catch. rewrite generateEmbeddings_run.
  cbn [docsRootPath refresh_flag shouldRefresh].
  destruct (db_fault env (db_ops w)) as [m|]; [now split|].
  destruct (walk env (getInput env "docs-root-path")) as [entries|e].
  - cbv zeta.
    assert (Hfl : failures (after_loop env false entries w) = failures w).
    { unfold after_loop. now rewrite loop_failures. }
    unfold after_sweep. cbn [db_ops logged accepted].
    destruct (db_fault env (db_ops (after_loop env false entries w))) as [m|].
    + cbn. now rewrite Hfl.
    + destruct (db_fault env (S (db_ops (after_loop env false entries w)))) as [m|].
      * cbn. now rewrite Hfl.
      * cbn. now rewrite Hfl, app_nil_r.
  - destruct e as [m|x]; cbn; [now split|]. now rewrite app_nil_r.
Qed.

(** C10. [run] builds the properties without [shouldRefresh], which
    [generateEmbeddings] reads as false: every run is the run with the
    flag set to false, and the line announcing a forced refresh is never
    written. *)
Theorem run_never_forces_refresh (env : Env) (w : World) :
  (forall conn key root,
     generateEmbeddings env (mkProps None conn key root)
     = generateEmbeddings env (mkProps (Some false) conn key root)) /\
  run env w
  = try_catch
      (generateEmbeddings env
         (mkProps (Some false) (getInput env "postgres-connection-string")
                  (getInput env "openai-key") (getInput env "docs-root-path")))
      (fun error => match error with
                    | ErrorObj message => setFailed message
                    | ThrownValue _ => ret tt
                    end) w /\
  filter is_refresh_line (console (fst (run env w)))
  = filter is_refresh_line (console w).
Proof.
  split; [reflexivity|]. split; [reflexivity|].
  unfold run, try_catch. rewrite generateEmbeddings_run.
  cbn [docsRootPath refresh_flag shouldRefresh].
  destruct (db_fault env (db_ops w)) as [m|]; [reflexivity|].
  destruct (walk env (getInput env "docs-root-path")) as [entries|e].
  - cbv zeta.
    assert (Hc : filter is_refresh_line (console (after_loop env false entries w))
                 = filter is_refresh_line (console w)).
    { unfold after_loop.
      apply (loop_keeps env (fun w' => filter is_refresh_line (console w')
                                       = filter is_refresh_line (console w))).
      - split; [intros; assumption|].
        intros w0 ev Hev H0. cbn. rewrite filter_app, H0. cbn.
        destruct ev; try discriminate; cbn; apply app_nil_r.
      - cbn. rewrite !filter_app. cbn. now rewrite !app_nil_r. }
    unfold after_sweep. cbn [db_ops logged accepted].
    destruct (db_fault env (db_ops (after_loop env false entries w))) as [m|].
    + cbn. rewrite filter_app, Hc. cbn. apply app_nil_r.
    + destruct (db_fault env (S (db_ops (after_loop env false entries w)))) as [m|];
        cbn; rewrite !filter_app, Hc; cbn; now rewrite !app_nil_r.
  - destruct e as [m|x]; reflexivity.
Qed.

(* ===================================================================== *)
(** ** Partial failure *)
(* ===================================================================== *)

(** C4. In a batch of sources with pairwise distinct paths, processed
    against a store that accepts every call, let the provider never answer
    usably for some chunk of one source [sk] that is not unchanged, while
    every other source loads and is embeddable.  The loop still ends
    normally after going through every source: the row of [sk] ends with a
    [NULL] checksum and owns the rows of a strict prefix of its chunks,
    and the row of every other source carries the checksum just loaded
    and owns one row per chunk (or, for an unchanged source, the rows it
    owned before). *)
Theorem partial_failure_is_contained (env : Env) (refresh : bool) (v : string) (d : Z)
    (sources : list EmbeddingSource) (sk : EmbeddingSource) (lk : LoadResult)
    (w : World) :
  wf (db w) ->
  no_db_fault env ->
  NoDup (map src_path sources) ->
  In sk sources ->
  src_load sk = Normal lk ->
  unchanged refresh (page_at (db w) (src_path sk)) (checksum lk) = false ->
  (exists c, In c (sections lk) /\
             forall n, usable (embed_outcome env n (normalized c)) = false) ->
  (forall s, In s sources -> s <> sk ->
     exists l, src_load s = Normal l /\ embeddable env (sections l)) ->
  let w' := fst (for_of sources (process_source env refresh v d) w) in
  snd (for_of sources (process_source env refresh v d) w) = Normal tt /\
  (exists (pg : Page) (k : nat),
     page_at (db w') (src_path sk) = Some pg /\
     page_checksum pg = None /\
     (k < List.length (sections lk))%nat /\
     Forall2 (row_of env (page_id pg)) (firstn k (sections lk))
             (sections_at (db w') (src_path sk))) /\
  (forall s l, In s sources -> s <> sk -> src_load s = Normal l ->
     exists pg,
       page_at (db w') (src_path s) = Some pg /\
       page_checksum pg = Some (checksum l) /\
       if unchanged refresh (page_at (db w) (src_path s)) (checksum l)
       then sections_at (db w') (src_path s) = sections_at (db w) (src_path s)
       else Forall2 (row_of env (page_id pg)) (sections l)
                    (sections_at (db w') (src_path s))).
Proof.
  intros Hwf Hdb Hnd Hin Hload Hun [c [Hc Hbad]] Hothers w'.
  split; [apply loop_never_throws|]. split.
  - destruct (loop_view env refresh v d sources sk w Hnd Hin Hwf)
      as (w1 & Hwf1 & Hp1 & Hs1 & Hpf & Hsf).
    fold w' in Hpf, Hsf. rewrite <- Hp1 in Hun.
    destruct (iteration_resync env refresh v d sk lk w1 Hdb Hwf1 Hload Hun)
      as (pg & k & rows & Hat & _ & Hrows & Hsat & _ & _ & Hres & _ & Hlt).
    specialize (Hlt c Hc Hbad).
    exists pg, k. rewrite Hpf, Hsf, Hsat. repeat split; auto.
    destruct Hres as [[Hk _]|[_ Hck]]; [lia | assumption].
  - intros s l Hs Hne Hl.
    destruct (Hothers s Hs Hne) as (l' & Hl' & Hemb).
    assert (l' = l) by congruence. subst l'.
    destruct (loop_view env refresh v d sources s w Hnd Hs Hwf)
      as (w1 & Hwf1 & Hp1 & Hs1 & Hpf & Hsf).
    fold w' in Hpf, Hsf. rewrite Hpf, Hsf, <- Hp1, <- Hs1.
    destruct (unchanged refresh (page_at (db w1) (src_path s)) (checksum l)) eqn:Hu.
    + destruct (unchanged_true _ _ _ Hu) as (_ & ep & Hep & Hck).
      rewrite Hep in Hu.
      destruct (iteration_unchanged env refresh v d s l ep w1 Hl Hep Hu)
        as (_ & _ & _ & Hsat & f & _ & Hsame & Hat & _).
      exists (f ep). split; [assumption|]. split; [|assumption].
      destruct (Hsame ep) as (_ & _ & Hc'). congruence.
    + destruct (iteration_resync env refresh v d s l w1 Hdb Hwf1 Hl Hu)
        as (pg & k & rows & Hat & _ & Hrows & Hsat & _ & _ & Hres & Hall & _).
      specialize (Hall Hemb). subst k. rewrite firstn_all in Hrows.
      exists pg. rewrite Hsat. repeat split; auto.
      destruct Hres as [[_ Hck]|[Hlt _]]; [assumption | lia].
Qed.

Lemma partial_failure_is_contained_witness :
  snd (for_of [Demo.src_a; Demo.flaky_c]
              (process_source Demo.flaky_env false "run-1" 1000) Demo.world0) = Normal tt /\
  (exists (pg : Page) (k : nat),
     page_at (db (fst (for_of [Demo.src_a; Demo.flaky_c]
                         (process_source Demo.flaky_env false "run-1" 1000)
                         Demo.world0))) "b/c.mdx" = Some pg /\
     page_checksum pg = None /\
     (k < 2)%nat /\
     Forall2 (row_of Demo.flaky_env (page_id pg)) (firstn k Demo.chunks_c)
             (sections_at (db (fst (for_of [Demo.src_a; Demo.flaky_c]
                                      (process_source Demo.flaky_env false "run-1" 1000)
                                      Demo.world0))) "b/c.mdx")) /\
  (exists pg,
     page_at (db (fst (for_of [Demo.src_a; Demo.flaky_c]
                         (process_source Demo.flaky_env false "run-1" 1000)
                         Demo.world0))) "a.md" = Some pg /\
     page_checksum pg = Some "sha:a.md" /\
     Forall2 (row_of Demo.flaky_env (page_id pg)) (Demo.chunks_of "a.md")
             (sections_at (db (fst (for_of [Demo.src_a; Demo.flaky_c]
                                      (process_source Demo.flaky_env false "run-1" 1000)
                                      Demo.world0))) "a.md")).
Proof.
  assert (Hwf : wf (db Demo.world0)) by (constructor; simpl; constructor).
  assert (Hdb : no_db_fault Demo.flaky_env) by (intros n; reflexivity).
  assert (Hnd : NoDup (map src_path [Demo.src_a; Demo.flaky_c])).
  { simpl. constructor; [|constructor; [|constructor]]; simpl.
    - intros [H|[]]. discriminate H.
    - intros []. }
  assert (Hin : In Demo.flaky_c [Demo.src_a; Demo.flaky_c]) by (right; left; reflexivity).
  assert (Hbad : exists c, In c (sections (mkLoad "sha:b/c.mdx" "{}" Demo.chunks_c)) /\
                   forall n, usable (embed_outcome Demo.flaky_env n (normalized c)) = false).
  { exists Demo.usage_c. split; [right; left; reflexivity | intros n; reflexivity]. }
  assert (Hothers : forall s, In s [Demo.src_a; Demo.flaky_c] -> s <> Demo.flaky_c ->
                      exists l, src_load s = Normal l /\
                                embeddable Demo.flaky_env (sections l)).
  { intros s [<-|[<-|[]]] Hne.
    - exists (Demo.loaded "a.md"). split; [reflexivity|].
      intros n c [<-|[<-|[]]]; reflexivity.
    - contradiction Hne. reflexivity. }
  destruct (partial_failure_is_contained Demo.flaky_env false "run-1" 1000
              [Demo.src_a; Demo.flaky_c] Demo.flaky_c
              (mkLoad "sha:b/c.mdx" "{}" Demo.chunks_c) Demo.world0 Hwf Hdb Hnd
              Hin eq_refl eq_refl Hbad Hothers) as (Hn & Hk & Hrest).
  split; [exact Hn|]. split; [exact Hk|].
  assert (Hne : Demo.src_a <> Demo.flaky_c) by discriminate.
  exact (Hrest Demo.src_a (Demo.loaded "a.md") (or_introl eq_refl) Hne eq_refl).
Defined.

(* ===================================================================== *)
(** ** Which rows survive a run *)
(* ===================================================================== *)

Section Stamping.

Context (env : Env).
Variables (refresh : bool) (v : string) (d : Z).

(** When the store accepts every call, a source that loads leaves its row
    stamped with the version of the run. *)
Lemma iteration_stamps (s : EmbeddingSource) (l : LoadResult) (w : World) :
  no_db_fault env -> wf (db w) -> src_load s = Normal l ->
  stamped v (db (fst (process_source env refresh v d s w))) (src_path s).
Proof.
  intros Hdb Hwf Hload.
  destruct (unchanged refresh (page_at (db w) (src_path s)) (checksum l)) eqn:Hun.
  - destruct (unchanged_true _ _ _ Hun) as (_ & ep & Hep & _).
    rewrite Hep in Hun.
    destruct (iteration_unchanged env refresh v d s l ep w Hload Hep Hun)
      as (_ & _ & _ & _ & f & _ & _ & Hat & Hf).
    exists (f ep). split; [assumption|]. now rewrite (Hf Hdb).
  - destruct (iteration_resync env refresh v d s l w Hdb Hwf Hload Hun)
      as (pg & k & rows & Hat & Hver & _).
    now exists pg.
Qed.

Lemma loop_stamps (ss : list EmbeddingSource) (w : World) :
  no_db_fault env -> wf (db w) ->
  (forall s, In s ss -> exists l, src_load s = Normal l) ->
  let w' := fst (for_of ss (process_source env refresh v d) w) in
  forall q, (In q (map src_path ss) \/ stamped v (db w) q) -> stamped v (db w') q.
Proof.
  intros Hdb. revert w. induction ss as [|s ss IH]; intros w Hwf Hloads w' q Hq.
  - destruct Hq as [[]|Hq]. exact Hq.
  - subst w'. rewrite loop_cons.
    pose proof (iteration_confined env refresh v d s w Hwf) as Hc.
    destruct (Hloads s (or_introl eq_refl)) as [l Hl].
    pose proof (iteration_stamps s l w Hdb Hwf Hl) as Hs.
    apply IH.
    + apply Hc.
    + intros s' Hs'. apply Hloads. now right.
    + destruct (in_dec string_dec q (map src_path ss)) as [Hin|Hnin]; [now left|].
      right. destruct (string_dec q (src_path s)) as [->|Hne]; [exact Hs|].
      destruct Hq as [[Heq|Hin]|Hst]; [congruence | contradiction |].
      destruct Hst as (pg & Hpg & Hv). exists pg.
      split; [|assumption]. now rewrite (conf_pages _ _ _ Hc q Hne).
Qed.

(** A row the loop leaves with the version of the run belongs to one of
    the sources of the loop, if no row carried that version before. *)
Lemma loop_stamps_only_sources (ss : list EmbeddingSource) (w : World) (pg : Page) :
  wf (db w) ->
  (forall x, In x (pages (db w)) -> page_version x <> v) ->
  In pg (pages (db (fst (for_of ss (process_source env refresh v d) w)))) ->
  page_version pg = v ->
  In (page_path pg) (map src_path ss).
Proof.
  intros Hwf Hfresh Hin Hv.
  destruct (loop_confined env refresh v d ss w Hwf) as (Hwf' & Hout & _).
  destruct (in_dec string_dec (page_path pg) (map src_path ss)) as [H|Hnot]; [exact H|].
  exfalso. destruct (Hout _ Hnot) as [Hp _].
  rewrite (page_at_in _ pg (wf_paths _ Hwf') Hin) in Hp.
  symmetry in Hp. apply page_at_some in Hp. destruct Hp as [Hp _].
  exact (Hfresh pg Hp Hv).
Qed.

(** A path whose sources all fail to load is left by the loop as it found
    it: the iterations of those sources stop at the load, the others are
    confined to their own path. *)
Lemma loop_skips_unreadable (ss : list EmbeddingSource) (q : string) (w : World) :
  wf (db w) ->
  (forall s, In s ss -> src_path s = q -> exists e, src_load s = Throws e) ->
  page_at (db (fst (for_of ss (process_source env refresh v d) w))) q = page_at (db w) q.
Proof.
  revert w. induction ss as [|s ss IH]; intros w Hwf Hbad; [reflexivity|].
  rewrite loop_cons.
  pose proof (iteration_confined env refresh v d s w Hwf) as Hc.
  rewrite IH; [|apply Hc|intros s' Hs'; apply Hbad; now right].
  destruct (string_dec q (src_path s)) as [Heq|Hne].
  - destruct (Hbad s (or_introl eq_refl) (eq_sym Heq)) as [e He].
    destruct (process_source_catch env refresh v d s w) as (_ & Hdb & _).
    cbv zeta in Hdb. rewrite Hdb, (body_load_failure env refresh v d s e w He).
    reflexivity.
  - now apply (conf_pages _ _ _ Hc).
Qed.

End Stamping.

(** The catalog the first run leaves satisfies the constraints. *)
Lemma settled_catalog_wf : wf (db Scene.settled).
Proof.
  constructor; vm_compute.
  - constructor; [intros [H|[]]; discriminate H|].
    constructor; [intros []|constructor].
  - constructor; [intros [H|[]]; discriminate H|].
    constructor; [intros []|constructor].
  - repeat constructor.
  - repeat (apply Forall_cons; [auto|]). apply Forall_nil.
Qed.

(** The store at the end of a run that completed. *)
Lemma completed_run_db (env : Env) (props : GenerateEmbeddingsProps)
    (entries : list string) (w : World) :
  walk env (docsRootPath props) = Normal entries ->
  snd (generateEmbeddings env props w) = Normal tt ->
  db (fst (generateEmbeddings env props w))
  = fst (delete_stale_pages (uuidv4 env)
           (db (after_loop env (refresh_flag props) entries w))) /\
  embed_calls (fst (generateEmbeddings env props w))
  = embed_calls (after_loop env (refresh_flag props) entries w).
Proof.
  intros Hwalk. rewrite generateEmbeddings_run, Hwalk. cbv zeta.
  destruct (db_fault env (db_ops w)); [discriminate|].
  destruct (db_fault env _); [discriminate|].
  destruct (db_fault env _); [discriminate|].
  intros _. split; reflexivity.
Qed.

Lemma completes_without_fault (env : Env) (props : GenerateEmbeddingsProps)
    (entries : list string) (w : World) :
  no_db_fault env ->
  walk env (docsRootPath props) = Normal entries ->
  snd (generateEmbeddings env props w) = Normal tt.
Proof.
  intros Hdb Hwalk. rewrite generateEmbeddings_run, Hwalk. cbv zeta.
  now rewrite !Hdb.
Qed.

(** C3 (amended). After a run that completed, started with a version
    token no stored row carries: every remaining row carries the token
    and is the row of a discovered source (one that passed the extension
    filter and the ignore list), the remaining rows being exactly those
    stamped during the loop; every other row is gone.  Each discovered
    source has its row when every source loads and the store accepts
    every call.  A path at which every discovered source fails to load
    has no row after the run: the path of a source that cannot be read,
    unless another discovered file resolves to the same path, and the
    paths no discovered source resolves to. *)
Theorem sweep_leaves_the_stamped_sources (env : Env) (props : GenerateEmbeddingsProps)
    (entries : list string) (w : World) :
  wf (db w) ->
  (forall pg, In pg (pages (db w)) -> page_version pg <> uuidv4 env) ->
  walk env (docsRootPath props) = Normal entries ->
  snd (generateEmbeddings env props w) = Normal tt ->
  let w' := fst (generateEmbeddings env props w) in
  let sources := discover env entries in
  (forall pg, In pg (pages (db w')) ->
     page_version pg = uuidv4 env /\ In (page_path pg) (map src_path sources)) /\
  (forall pg, In pg (pages (db w')) <->
     In pg (pages (db (after_loop env (refresh_flag props) entries w))) /\
     page_version pg = uuidv4 env) /\
  (no_db_fault env ->
   (forall s, In s sources -> exists l, src_load s = Normal l) ->
   forall s, In s sources ->
     exists pg, In pg (pages (db w')) /\ page_path pg = src_path s) /\
  (forall q,
     (forall s, In s sources -> src_path s = q -> exists e, src_load s = Throws e) ->
     ~ stamped (uuidv4 env) (db (after_loop env (refresh_flag props) entries w)) q /\
     page_at (db w') q = None).
Proof.
  intros Hwf Hfresh Hwalk Hdone w' sources.
  destruct (completed_run_db env props entries w Hwalk Hdone) as [Hdb' _].
  fold w' in Hdb'.
  assert (Hstart : forall w0, db w0 = db w ->
            wf (db w0) /\ forall x, In x (pages (db w0)) -> page_version x <> uuidv4 env)
    by (intros w0 ->; now split).
  split; [|split; [|split]].
  - intros pg Hpg. rewrite Hdb' in Hpg. apply in_sweep in Hpg.
    destruct Hpg as [Hpg Hv]. split; [assumption|].
    unfold after_loop in Hpg.
    eapply loop_stamps_only_sources; [| |exact Hpg|exact Hv]; now apply Hstart.
  - intros pg. rewrite Hdb'. apply in_sweep.
  - intros Hnf Hloads s Hs.
    assert (Hst : stamped (uuidv4 env)
                    (db (after_loop env (refresh_flag props) entries w)) (src_path s)).
    { unfold after_loop. apply loop_stamps; auto.
      left. now apply in_map. }
    destruct Hst as (pg & Hat & Hv). exists pg.
    pose proof (page_at_sweep _ _ _ _ Hat Hv) as Hkeep.
    rewrite <- Hdb' in Hkeep. apply page_at_some in Hkeep. exact Hkeep.
  - intros q Hbad.
    assert (Hleft : page_at (db (after_loop env (refresh_flag props) entries w)) q
                    = page_at (db w) q).
    { unfold after_loop. fold sources.
      rewrite (loop_skips_unreadable env (refresh_flag props) (uuidv4 env) (now env)
                 sources q); [reflexivity | now apply Hstart | exact Hbad]. }
    assert (Hnot : ~ stamped (uuidv4 env)
                     (db (after_loop env (refresh_flag props) entries w)) q).
    { intros (pg & Hat & Hv). rewrite Hleft in Hat.
      apply page_at_some in Hat. exact (Hfresh pg (proj1 Hat) Hv). }
    split; [exact Hnot|].
    destruct (page_at (db w') q) as [pg|] eqn:Hat; [exfalso|reflexivity].
    apply page_at_some in Hat. destruct Hat as [Hin Hq].
    rewrite Hdb' in Hin. apply in_sweep in Hin. destruct Hin as [Hin Hv].
    apply Hnot. exists pg. split; [|exact Hv]. subst q.
    apply page_at_in; [|exact Hin].
    unfold after_loop.
    destruct (loop_confined env (refresh_flag props) (uuidv4 env) (now env) sources
                (logged [if negb (refresh_flag props) then LogChecking else LogRefreshFlag]
                   (logged [LogDiscovered (List.length sources)] (accepted (db w) w))))
      as (Hwf' & _); [now apply Hstart|].
    apply (wf_paths _ Hwf').
Qed.

Lemma sweep_leaves_the_stamped_sources_witness :
  ((exists pg,
      In pg (pages (db (fst (generateEmbeddings Demo.env1
                               (mkProps None "docs" "docs" "docs") Demo.world0)))) /\
      page_path pg = "a.md") /\
   (exists pg,
      In pg (pages (db (fst (generateEmbeddings Demo.env1
                               (mkProps None "docs" "docs" "docs") Demo.world0)))) /\
      page_path pg = "b/c.mdx")) /\
  (page_at (db Demo.world1) "a.md" = Some Scene.page_a /\
   page_at (db (fst (generateEmbeddings Demo.unreadable_env
                       (mkProps None "docs" "docs" "docs") Demo.world1))) "a.md"
   = None).
Proof.
  split.
  - assert (Hwf : wf (db Demo.world0)) by (constructor; simpl; constructor).
    assert (Hfresh : forall pg, In pg (pages (db Demo.world0)) ->
                                page_version pg <> uuidv4 Demo.env1)
      by (intros pg []).
    assert (Hdone : snd (generateEmbeddings Demo.env1 (mkProps None "docs" "docs" "docs")
                           Demo.world0) = Normal tt)
      by (vm_compute; reflexivity).
    assert (Hdb : no_db_fault Demo.env1) by (intros n; reflexivity).
    assert (Hloads : forall s, In s (discover Demo.env1 Demo.tree) ->
                               exists l, src_load s = Normal l)
      by (intros s [<-|[<-|[]]]; eexists; reflexivity).
    destruct (sweep_leaves_the_stamped_sources Demo.env1
                (mkProps None "docs" "docs" "docs") Demo.tree Demo.world0
                Hwf Hfresh eq_refl Hdone) as (_ & _ & H & _).
    split.
    + apply (H Hdb Hloads Demo.src_a). left. reflexivity.
    + apply (H Hdb Hloads Demo.src_c). right. left. reflexivity.
  - assert (Hfresh : forall pg, In pg (pages (db Demo.world1)) ->
                                page_version pg <> uuidv4 Demo.unreadable_env)
      by (intros pg [<-|[<-|[]]]; discriminate).
    assert (Hdone : snd (generateEmbeddings Demo.unreadable_env
                           (mkProps None "docs" "docs" "docs") Demo.world1) = Normal tt)
      by (vm_compute; reflexivity).
    assert (Hbad : forall s, In s (discover Demo.unreadable_env Demo.tree) ->
                             src_path s = "a.md" -> exists e, src_load s = Throws e)
      by (intros s [<-|[<-|[]]] Hp; [eexists; reflexivity | discriminate Hp]).
    destruct (sweep_leaves_the_stamped_sources Demo.unreadable_env
                (mkProps None "docs" "docs" "docs") Demo.tree Demo.world1
                settled_catalog_wf Hfresh eq_refl Hdone) as (_ & _ & _ & H).
    split; [reflexivity|]. exact (proj2 (H "a.md" Hbad)).
Defined.

(** The claim as the specification has it fails when a source cannot be
    loaded: the run completes without a fatal failure, but the unreadable
    source, discovered like the other one, has no row at the end. *)
Lemma unreadable_source_has_no_page :
  snd (run Demo.unreadable_env Demo.world0) = Normal tt /\
  failures (fst (run Demo.unreadable_env Demo.world0)) = [] /\
  map src_path (discover Demo.unreadable_env Demo.tree) = ["a.md"; "b/c.mdx"] /\
  map page_path
      (filter (fun pg => String.eqb (page_version pg) "run-2")
              (pages (db (fst (run Demo.unreadable_env Demo.world0)))))
  = ["b/c.mdx"] /\
  ~ (forall q, In q (map src_path (discover Demo.unreadable_env Demo.tree)) <->
               In q (map page_path
                       (filter (fun pg => String.eqb (page_version pg) "run-2")
                               (pages (db (fst (run Demo.unreadable_env
                                                  Demo.world0))))))).
Proof.
  vm_compute. repeat split.
  intros H. destruct (H "a.md") as [H1 _].
  destruct (H1 (or_introl eq_refl)) as [Heq|[]]. discriminate Heq.
Qed.

(** The same failure on a catalog in which the source was current: its
    row and its sections are gone after the run. *)
Example unreadable_source_loses_its_page :
  map page_path (pages (db Demo.world1)) = ["a.md"; "b/c.mdx"] /\
  map page_path (pages (db (fst (run Demo.unreadable_env Demo.world1)))) = ["b/c.mdx"] /\
  map section_page_id (page_sections (db Demo.world1)) = [1; 1; 2; 2] /\
  map section_page_id (page_sections (db (fst (run Demo.unreadable_env Demo.world1))))
  = [2; 2].
Proof. vm_compute. repeat split. Qed.

(** Why the other files of the path matter: two discovered files resolve
    to the path [a], the first cannot be read, the second is stored; the
    run leaves a stamped row at the path of the unreadable source. *)
Example shared_path_keeps_the_row :
  map src_path (discover Study.twin_env ["a.md"; "a.mdx"]) = ["a"; "a"] /\
  map src_load (discover Study.twin_env ["a.md"; "a.mdx"])
  = [Throws (ErrorObj "EACCES");
     Normal (mkLoad "sha:a.mdx" "{}" [mkChunk "two" "Two" "from a.mdx"])] /\
  snd (run Study.twin_env Demo.world0) = Normal tt /\
  map (fun pg => (page_path pg, page_checksum pg, page_version pg))
      (pages (db (fst (run Study.twin_env Demo.world0))))
  = [("a", Some "sha:a.mdx", "run-1")].
Proof. vm_compute. repeat split. Qed.

(* ===================================================================== *)
(** ** Two runs in a row *)
(* ===================================================================== *)

Section Idempotence.

Context (env : Env).
Variables (v : string) (d : Z).

(** When nothing fails, an iteration leaves the row of its source with
    the checksum just loaded and the version of the run. *)
Lemma iteration_current (refresh : bool) (s : EmbeddingSource) (l : LoadResult)
    (w : World) :
  no_db_fault env -> wf (db w) -> src_load s = Normal l ->
  embeddable env (sections l) ->
  exists pg, page_at (db (fst (process_source env refresh v d s w))) (src_path s) = Some pg /\
             page_checksum pg = Some (checksum l) /\ page_version pg = v.
Proof.
  intros Hdb Hwf Hload Hemb.
  destruct (unchanged refresh (page_at (db w) (src_path s)) (checksum l)) eqn:Hun.
  - destruct (unchanged_true _ _ _ Hun) as (_ & ep & Hep & Hck).
    rewrite Hep in Hun.
    destruct (iteration_unchanged env refresh v d s l ep w Hload Hep Hun)
      as (_ & _ & _ & _ & f & _ & Hsame & Hat & Hf).
    exists (f ep). split; [assumption|]. split.
    + destruct (Hsame ep) as (_ & _ & Hc). congruence.
    + now rewrite (Hf Hdb).
  - destruct (iteration_resync env refresh v d s l w Hdb Hwf Hload Hun)
      as (pg & k & rows & Hat & Hver & _ & _ & _ & _ & Hres & Hall & _).
    exists pg. split; [assumption|]. split; [|assumption].
    specialize (Hall Hemb).
    destruct Hres as [[_ Hck]|[Hlt _]]; [assumption | lia].
Qed.

(** A loop over sources whose rows are all current, with the refresh flag
    off: no section row and no provider call is added or removed, and the
    rows keep their paths and checksums. *)
Lemma loop_all_current (ss : list EmbeddingSource) (w : World) :
  wf (db w) ->
  (forall s, In s ss -> exists l, src_load s = Normal l /\ current (db w) s l) ->
  let w' := fst (for_of ss (process_source env false v d) w) in
  page_sections (db w') = page_sections (db w) /\
  embed_calls w' = embed_calls w /\
  page_paths (db w') = page_paths (db w).
Proof.
  revert w. induction ss as [|a ss IH]; intros w Hwf Hcur; [now cbn|].
  cbv zeta. rewrite loop_cons.
  destruct (Hcur a (or_introl eq_refl)) as (l & Hl & ep & Hep & Hck).
  assert (Hun : unchanged false (Some ep) (checksum l) = true).
  { unfold unchanged. simpl. rewrite Hck. simpl. apply String.eqb_refl. }
  destruct (iteration_unchanged env false v d a l ep w Hl Hep Hun)
    as (Hsec & Hcalls & _ & _ & f & Hpages & Hsame & _ & _).
  pose proof (iteration_confined env false v d a w Hwf) as Hc.
  set (wa := fst (process_source env false v d a w)) in *.
  assert (Hat : forall q, page_at (db wa) q
                 = option_map (fun x => if has_id (page_id ep) x then f x else x)
                              (page_at (db w) q)).
  { intros q. unfold page_at. rewrite Hpages. apply find_update_where.
    intros x. unfold has_path. destruct (Hsame x) as (_ & Hp & _). now rewrite Hp. }
  destruct (IH wa (conf_wf _ _ _ Hc)) as (Hsec' & Hcalls' & Hpaths').
  - intros s Hs. destruct (Hcur s (or_intror Hs)) as (l' & Hl' & pg & Hpg & Hck').
    exists l'. split; [assumption|].
    eexists. rewrite Hat, Hpg. split; [reflexivity|].
    destruct (has_id (page_id ep) pg); [|assumption].
    destruct (Hsame pg) as (_ & _ & Hc'). congruence.
  - split; [congruence|]. split; [congruence|].
    rewrite Hpaths'. unfold page_paths. rewrite Hpages.
    apply map_update_where. intros x. apply Hsame.
Qed.

End Idempotence.

(** The state a run leaves when nothing failed: the constraints hold,
    every discovered source has a current row, and every row belongs to a
    discovered source. *)
Lemma settled_after_run (env : Env) (props : GenerateEmbeddingsProps)
    (entries : list string) (w : World) :
  wf (db w) ->
  (forall pg, In pg (pages (db w)) -> page_version pg <> uuidv4 env) ->
  no_db_fault env ->
  walk env (docsRootPath props) = Normal entries ->
  NoDup (map src_path (discover env entries)) ->
  (forall s, In s (discover env entries) ->
     exists l, src_load s = Normal l /\ embeddable env (sections l)) ->
  let w1 := fst (generateEmbeddings env props w) in
  wf (db w1) /\
  (forall s, In s (discover env entries) ->
     exists l, src_load s = Normal l /\ current (db w1) s l) /\
  (forall pg, In pg (pages (db w1)) ->
     In (page_path pg) (map src_path (discover env entries))).
Proof.
  intros Hwf Hfresh Hdb Hwalk Hnd Hok w1.
  pose proof (completes_without_fault env props entries w Hdb Hwalk) as Hdone.
  destruct (completed_run_db env props entries w Hwalk Hdone) as [Hdb1 _].
  fold w1 in Hdb1. rewrite Hdb1. unfold after_loop.
  set (w0 := logged _ (logged _ (accepted (db w) w))).
  assert (Hwf0 : wf (db w0)) by exact Hwf.
  destruct (loop_confined env (refresh_flag props) (uuidv4 env) (now env)
              (discover env entries) w0 Hwf0) as (Hwfl & _).
  split; [now apply wf_sweep|]. split.
  - intros s Hs. destruct (Hok s Hs) as (l & Hl & Hemb).
    exists l. split; [assumption|].
    destruct (loop_view env (refresh_flag props) (uuidv4 env) (now env)
                (discover env entries) s w0 Hnd Hs Hwf0)
      as (wi & Hwfi & _ & _ & Hpf & _).
    destruct (iteration_current env (uuidv4 env) (now env) (refresh_flag props)
                s l wi Hdb Hwfi Hl Hemb) as (pg & Hpg & Hck & Hv).
    exists pg. split; [|assumption].
    apply page_at_sweep; [|assumption]. now rewrite Hpf.
  - intros pg Hpg. apply in_sweep in Hpg. destruct Hpg as [Hpg Hv].
    eapply loop_stamps_only_sources; [exact Hwf0| |exact Hpg|exact Hv].
    exact Hfresh.
Qed.

(** A run with the refresh flag off on a settled store changes no section
    row and calls the provider for nothing. *)
Lemma idle_on_settled_store (env : Env) (props : GenerateEmbeddingsProps)
    (entries : list string) (w : World) :
  wf (db w) ->
  no_db_fault env ->
  walk env (docsRootPath props) = Normal entries ->
  refresh_flag props = false ->
  (forall s, In s (discover env entries) ->
     exists l, src_load s = Normal l /\ current (db w) s l) ->
  (forall pg, In pg (pages (db w)) ->
     In (page_path pg) (map src_path (discover env entries))) ->
  let w2 := fst (generateEmbeddings env props w) in
  page_sections (db w2) = page_sections (db w) /\
  embed_calls w2 = embed_calls w.
Proof.
  intros Hwf Hdb Hwalk Hflag Hcur Hall w2.
  pose proof (completes_without_fault env props entries w Hdb Hwalk) as Hdone.
  destruct (completed_run_db env props entries w Hwalk Hdone) as [Hdb2 Hcalls2].
  fold w2 in Hdb2, Hcalls2. rewrite Hdb2, Hcalls2, Hflag. unfold after_loop.
  set (w0 := logged _ (logged _ (accepted (db w) w))).
  assert (Hwf0 : wf (db w0)) by exact Hwf.
  destruct (loop_all_current env (uuidv4 env) (now env) (discover env entries) w0
              Hwf0 Hcur) as (Hsec & Hcalls & Hpaths).
  destruct (loop_confined env false (uuidv4 env) (now env)
              (discover env entries) w0 Hwf0) as (Hwfl & _).
  rewrite sweep_noop.
  - split; [exact Hsec | exact Hcalls].
  - intros pg Hpg.
    assert (Hin : In (page_path pg) (map src_path (discover env entries))).
    { assert (Hp : In (page_path pg) (page_paths (db w0))).
      { rewrite <- Hpaths. unfold page_paths. now apply in_map. }
      unfold page_paths in Hp. apply in_map_iff in Hp.
      destruct Hp as (pg0 & Hpath & Hpg0). rewrite <- Hpath. now apply Hall. }
    assert (Hst : stamped (uuidv4 env)
                    (db (fst (for_of (discover env entries)
                                (process_source env false (uuidv4 env) (now env)) w0)))
                    (page_path pg)).
    { apply loop_stamps; auto.
      intros s Hs. destruct (Hcur s Hs) as (l & Hl & _). now exists l. }
    destruct Hst as (pg' & Hat & Hv).
    rewrite (page_at_in _ pg (wf_paths _ Hwfl) Hpg) in Hat.
    injection Hat as ->. exact Hv.
Qed.

(** C5. Two runs in a row on an unchanged tree, the first one free of
    failures, the second one with the refresh flag off and a store that
    accepts every call: the second run leaves the table of section rows,
    vectors and token counts included, exactly as the first run left it,
    and makes no call to the provider. *)
Theorem second_run_is_idle (env1 env2 : Env) (props1 props2 : GenerateEmbeddingsProps)
    (entries : list string) (w : World) :
  wf (db w) ->
  (forall pg, In pg (pages (db w)) -> page_version pg <> uuidv4 env1) ->
  no_db_fault env1 -> no_db_fault env2 ->
  walk env1 (docsRootPath props1) = Normal entries ->
  walk env2 (docsRootPath props2) = Normal entries ->
  (forall source path, MarkdownSource env2 source path = MarkdownSource env1 source path) ->
  refresh_flag props2 = false ->
  NoDup (map src_path (discover env1 entries)) ->
  (forall s, In s (discover env1 entries) ->
     exists l, src_load s = Normal l /\ embeddable env1 (sections l)) ->
  let w1 := fst (generateEmbeddings env1 props1 w) in
  let w2 := fst (generateEmbeddings env2 props2 w1) in
  page_sections (db w2) = page_sections (db w1) /\
  embed_calls w2 = embed_calls w1.
Proof.
  intros Hwf Hfresh Hdb1 Hdb2 Hwalk1 Hwalk2 Hsame Hflag Hnd Hok w1 w2.
  destruct (settled_after_run env1 props1 entries w Hwf Hfresh Hdb1 Hwalk1 Hnd Hok)
    as (Hwf1 & Hcur & Hall).
  fold w1 in Hwf1, Hcur, Hall.
  assert (Hdisc : discover env2 entries = discover env1 entries).
  { unfold discover. apply map_ext. intros path. apply Hsame. }
  apply (idle_on_settled_store env2 props2 entries w1 Hwf1 Hdb2 Hwalk2 Hflag);
    rewrite Hdisc; assumption.
Qed.

Lemma second_run_is_idle_witness :
  page_sections (db (fst (generateEmbeddings Demo.env2 (mkProps None "docs" "docs" "docs")
                            Demo.world1)))
  = page_sections (db Demo.world1) /\
  embed_calls (fst (generateEmbeddings Demo.env2 (mkProps None "docs" "docs" "docs")
                      Demo.world1))
  = embed_calls Demo.world1.
Proof.
  assert (Hwf : wf (db Demo.world0)) by (constructor; simpl; constructor).
  assert (Hfresh : forall pg, In pg (pages (db Demo.world0)) ->
                              page_version pg <> uuidv4 Demo.env1)
    by (intros pg []).
  assert (Hnd : NoDup (map src_path (discover Demo.env1 Demo.tree))).
  { vm_compute. constructor; [|constructor; [|constructor]].
    - intros [H|[]]. discriminate H.
    - intros []. }
  apply (second_run_is_idle Demo.env1 Demo.env2 (mkProps None "docs" "docs" "docs")
           (mkProps None "docs" "docs" "docs") Demo.tree Demo.world0 Hwf Hfresh).
  - intros n. reflexivity.
  - intros n. reflexivity.
  - reflexivity.
  - reflexivity.
  - intros source path. reflexivity.
  - reflexivity.
  - exact Hnd.
  - intros s [<-|[<-|[]]]; eexists; (split; [reflexivity|]);
      intros n c _; reflexivity.
Defined.

(* ===================================================================== *)
(** ** The window between the upsert and the commit of the checksum *)
(* ===================================================================== *)

Section Window.

Context (env : Env).
Variables (refresh : bool) (v : string) (d : Z) (s : EmbeddingSource) (l : LoadResult).

Let p := src_path s.


(** From the upsert on: every store recorded has the row pending, except
    the last one when [write_page] ends normally, which is the final store
    and has the row complete.  Nothing is recorded exactly when the upsert
    is rejected. *)
Lemma write_page_window (parentPage : option Page) (w : World) :
  wf (db w) -> sections_at (db w) p = [] ->
  let w' := fst (write_page env v d s l parentPage w) in
  exists after,
    history w' = after ++ history w /\
    Forall (pending p) (tl after) /\
    (after = [] -> db w' = db w) /\
    match snd (write_page env v d s l parentPage w) with
    | Normal _ => hd_error after = Some (db w') /\ complete env p l (db w')
    | Throws _ => Forall (pending p) after /\ (after <> [] -> pending p (db w'))
    end.
Proof.
  intros Hwf Hnone w'.
  pose proof (write_page_run env v d s l parentPage w) as Hrun.
  cbv zeta in Hrun. fold p in Hrun. fold w' in Hrun.
  destruct (db_fault env (db_ops w)) as [m|] eqn:Hf.
  - destruct Hrun as (Hdb & Hh & _ & _ & e & He).
    exists []. rewrite He. repeat split; auto. congruence.
  - pose proof (write_page_view env v d s l parentPage w Hwf Hf) as Hview.
    cbv zeta in Hview. fold p in Hview. fold w' in Hview.
    destruct Hrun as (k & rows & hs & _ & _ & _ & Hall & _ & _ & Hres).
    destruct Hview as (pg & k' & rows' & Hat & _ & Hrows & Hsat & _ & _ & Hres').
    destruct (upsert_row p (src_type s) (src_source s) (meta l) (id_of parentPage) v d
                (db w) Hwf) as (pg1 & Hpg1 & _ & Hck1 & _).
    set (st1 := fst (upsert_page p (src_type s) (src_source s) (meta l)
                       (id_of parentPage) v d (db w))) in *.
    assert (Hpend : Forall (pending p) (hs ++ [st1])).
    { apply Forall_app. split.
      - eapply Forall_impl; [|exact Hall]. cbn. intros st Hst.
        exists pg1. split; [|assumption]. now rewrite (page_at_same_pages st1).
      - constructor; [|constructor]. now exists pg1. }
    rewrite Hnone in Hsat. cbn [app] in Hsat.
    destruct (snd (write_page env v d s l parentPage w)) as [u|e].
    + destruct Hres as (_ & _ & Hh). destruct Hres' as (Hk & Hck).
      exists (db w' :: hs ++ [st1]).
      split; [rewrite Hh; cbn; now rewrite <- app_assoc|].
      split; [exact Hpend|]. split; [discriminate|]. split; [reflexivity|].
      exists pg. split; [assumption|]. split; [assumption|].
      subst k'. rewrite firstn_all in Hrows. now rewrite Hsat.
    + destruct Hres as (Hpages & Hh & _). destruct Hres' as (Hck & _).
      exists (hs ++ [st1]).
      split; [now rewrite Hh, <- app_assoc|].
      split; [destruct hs; [constructor | now inversion Hpend]|].
      split; [intros Hnil; now destruct hs|].
      split; [exact Hpend|].
      intros _. now exists pg.
Qed.

(** The same, with the calls counted: the body stops before the upsert
    exactly at the first call the store rejects, having recorded one store
    per accepted call; otherwise it reaches [write_page] after
    [calls_before_upsert] accepted calls. *)
Lemma body_resync_trace (w : World) :
  wf (db w) ->
  src_load s = Normal l ->
  unchanged refresh (page_at (db w) p) (checksum l) = false ->
  let n := calls_before_upsert (page_at (db w) p) in
  (exists e w1 before,
     process_source_body env refresh v d s w = (w1, Throws e) /\
     pages (db w1) = pages (db w) /\
     history w1 = before ++ history w /\
     Forall (fun st => pages st = pages (db w)) before /\
     Forall (fun st => sections_at st p = []) (removelast before) /\
     (List.length before < n)%nat /\
     db_fault env (db_ops w + List.length before)%nat <> None) \/
  (exists w3 parentPage before,
     process_source_body env refresh v d s w = write_page env v d s l parentPage w3 /\
     wf (db w3) /\
     sections_at (db w3) p = [] /\
     pages (db w3) = pages (db w) /\
     history w3 = before ++ history w /\
     Forall (fun st => pages st = pages (db w)) before /\
     Forall (fun st => sections_at st p = []) (removelast before) /\
     List.length before = n /\
     db_ops w3 = (db_ops w + n)%nat /\
     accepts env (db_ops w) n).
Proof.
  intros Hwf Hload Hun n.
  assert (Hbody : process_source_body env refresh v d s w
                  = match db_fault env (db_ops w) with
                    | Some m => (rejected w, Throws (ErrorObj m))
                    | None => resync env refresh v d s l (page_at (db w) p)
                                     (accepted (db w) w)
                    end).
  { unfold process_source_body, bind at 1, await. rewrite Hload.
    unfold client_query. rewrite bind_call.
    destruct (db_fault env (db_ops w)); [reflexivity|].
    cbn [fst snd select_page_by_path]. fold p. fold (page_at (db w) p).
    now rewrite Hun. }
  rewrite Hbody. clear Hbody.
  assert (Hn : (2 <= n)%nat) by (subst n; destruct (page_at (db w) p); cbn; lia).
  destruct (db_fault env (db_ops w)) as [m|] eqn:Hf1.
  { left. exists (ErrorObj m), (rejected w), [].
    split; [reflexivity|]. split; [reflexivity|]. split; [reflexivity|].
    split; [constructor|]. split; [constructor|]. split; [cbn; lia|].
    cbn [List.length]. rewrite Nat.add_0_r, Hf1. discriminate. }
  assert (Hsel : forall st, fst (select_parent_by_path (src_parentPath s) st) = st)
    by (intros st; unfold select_parent_by_path; destruct (src_parentPath s); reflexivity).
  set (tail := (parentPage <- client_query env (select_parent_by_path (src_parentPath s)) ;;
                write_page env v d s l parentPage)) in *.
  assert (Hrest : forall w0 before0,
            wf (db w0) -> sections_at (db w0) p = [] -> pages (db w0) = pages (db w) ->
            history w0 = before0 ++ history w ->
            Forall (fun st => pages st = pages (db w)) before0 ->
            Forall (fun st => sections_at st p = []) (removelast before0) ->
            before0 <> [] ->
            S (List.length before0) = n ->
            db_ops w0 = (db_ops w + List.length before0)%nat ->
            accepts env (db_ops w) (List.length before0) ->
            (exists e w1 before,
               tail w0 = (w1, Throws e) /\
               pages (db w1) = pages (db w) /\
               history w1 = before ++ history w /\
               Forall (fun st => pages st = pages (db w)) before /\
               Forall (fun st => sections_at st p = []) (removelast before) /\
               (List.length before < n)%nat /\
               db_fault env (db_ops w + List.length before)%nat <> None) \/
            (exists w3 parentPage before,
               tail w0 = write_page env v d s l parentPage w3 /\
               wf (db w3) /\
               sections_at (db w3) p = [] /\
               pages (db w3) = pages (db w) /\
               history w3 = before ++ history w /\
               Forall (fun st => pages st = pages (db w)) before /\
               Forall (fun st => sections_at st p = []) (removelast before) /\
               List.length before = n /\
               db_ops w3 = (db_ops w + n)%nat /\
               accepts env (db_ops w) n)).
  { intros w0 before0 Hwf0 Hs0 Hp0 Hh0 Hall0 Hrl0 Hne0 Hlen Hops Hacc.
    subst tail. cbv beta. unfold client_query. rewrite bind_call.
    destruct (db_fault env (db_ops w0)) as [m|] eqn:Hf.
    - left. exists (ErrorObj m), (rejected w0), before0.
      split; [reflexivity|]. split; [assumption|]. split; [assumption|].
      split; [assumption|]. split; [assumption|]. split; [lia|].
      rewrite <- Hops, Hf. discriminate.
    - right. eexists. eexists. exists (db w0 :: before0).
      split; [reflexivity|]. cbn [db accepted history db_ops]. rewrite Hsel.
      split; [assumption|]. split; [assumption|]. split; [assumption|].
      split; [now rewrite Hh0|]. split; [now constructor|].
      split.
      { destruct before0 as [|b bs]; [now contradiction Hne0|].
        change (removelast (db w0 :: b :: bs)) with (db w0 :: removelast (b :: bs)).
        now constructor. }
      split; [exact Hlen|]. split; [lia|].
      intros i Hi. destruct (Nat.eq_dec i (List.length before0)) as [->|Hne].
      + now rewrite <- Hops.
      + apply Hacc. lia. }
  assert (Hacc1 : accepts env (db_ops w) 1).
  { intros i Hi. assert (i = 0%nat) by lia. subst i. now rewrite Nat.add_0_r. }
  subst n.
  destruct (page_at (db w) p) as [ep|] eqn:Hep; cbn [calls_before_upsert] in *.
  - assert (Heq : resync env refresh v d s l (Some ep) (accepted (db w) w)
                  = match db_fault env (S (db_ops w)) with
                    | Some m =>
                        (rejected (logged [LogRemovingSections p refresh]
                                          (accepted (db w) w)),
                         Throws (ErrorObj m))
                    | None =>
                        tail (accepted (fst (delete_sections_of (page_id ep) (db w)))
                                (logged [LogRemovingSections p refresh]
                                        (accepted (db w) w)))
                    end).
    { unfold resync. unfold bind at 1. unfold bind at 1. unfold console_write at 1.
      unfold client_query at 1, client_call at 1. cbn [db_ops db accepted].
      destruct (db_fault env (S (db_ops w))); reflexivity. }
    rewrite Heq. clear Heq.
    destruct (db_fault env (S (db_ops w))) as [m|] eqn:Hf2.
    + left. eexists. eexists. exists [db w].
      split; [reflexivity|]. cbn [db rejected logged accepted history List.length app].
      split; [reflexivity|]. split; [reflexivity|].
      split; [repeat constructor|]. split; [constructor|]. split; [lia|].
      rewrite Nat.add_1_r, Hf2. discriminate.
    + pose proof (confined_delete_sections p (db w) ep Hwf Hep) as Hc.
      assert (Hpurged : sections_at (fst (delete_sections_of (page_id ep) (db w))) p = []).
      { unfold sections_at, page_at. cbn. fold (page_at (db w) p). rewrite Hep.
        unfold sections_of. cbn. apply filter_filter_same. }
      apply Hrest with (before0 := [fst (delete_sections_of (page_id ep) (db w)); db w]).
      * apply Hc.
      * exact Hpurged.
      * reflexivity.
      * reflexivity.
      * repeat constructor.
      * cbn [removelast]. constructor; [exact Hpurged | constructor].
      * discriminate.
      * reflexivity.
      * cbn. lia.
      * intros i Hi. cbn [List.length] in Hi.
        destruct i as [|[|i]]; [now rewrite Nat.add_0_r | now rewrite Nat.add_1_r | lia].
  - assert (Heq : resync env refresh v d s l None (accepted (db w) w)
                  = tail (accepted (db w) w)) by reflexivity.
    rewrite Heq. clear Heq.
    apply Hrest with (before0 := [db w]).
    + assumption.
    + unfold sections_at. cbn [db accepted]. now rewrite Hep.
    + reflexivity.
    + reflexivity.
    + repeat constructor.
    + constructor.
    + discriminate.
    + reflexivity.
    + cbn. lia.
    + exact Hacc1.
Qed.

(** The first store [write_page] records is the one the upsert leaves:
    the row is there with a [NULL] checksum and the version of the run,
    and the page owns no section.  It is recorded exactly when the store
    accepts the upsert. *)
Lemma write_page_upsert (parentPage : option Page) (w : World) (st0 : Store) :
  wf (db w) -> sections_at (db w) p = [] ->
  forall after,
    history (fst (write_page env v d s l parentPage w)) = after ++ history w ->
    (after <> [] <-> db_fault env (db_ops w) = None) /\
    (after = [] -> exists e, snd (write_page env v d s l parentPage w) = Throws e) /\
    (after <> [] ->
     exists pg, page_at (last after st0) p = Some pg /\
                page_checksum pg = None /\ page_version pg = v /\
                sections_at (last after st0) p = []).
Proof.
  intros Hwf Hnone after Hafter.
  pose proof (write_page_run env v d s l parentPage w) as Hrun.
  cbv zeta in Hrun. fold p in Hrun.
  destruct (db_fault env (db_ops w)) as [m|] eqn:Hf.
  - destruct Hrun as (_ & Hh & _ & _ & e & He).
    assert (Hnil : after = []).
    { rewrite Hh in Hafter. symmetry. apply (app_inv_tail (history w) [] after).
      exact Hafter. }
    subst after. split; [split; [intros H; now contradiction H | discriminate]|].
    split; [intros _; now exists e | intros H; now contradiction H].
  - destruct (upsert_row p (src_type s) (src_source s) (meta l) (id_of parentPage) v d
                (db w) Hwf) as (pg1 & Hpg1 & _ & Hck1 & Hv1 & Hsat1).
    set (st1 := fst (upsert_page p (src_type s) (src_source s) (meta l)
                       (id_of parentPage) v d (db w))) in *.
    destruct Hrun as (k & rows & hs & _ & _ & _ & _ & _ & _ & Hres).
    assert (Hshape : exists front, after = front ++ [st1]).
    { destruct (snd (write_page env v d s l parentPage w)) as [u|e].
      - destruct Hres as (_ & _ & Hh). exists (db (fst (write_page env v d s l parentPage w)) :: hs).
        apply (app_inv_tail (history w)). rewrite <- Hafter, Hh.
        cbn. now rewrite <- app_assoc.
      - destruct Hres as (_ & Hh & _). exists hs.
        apply (app_inv_tail (history w)). rewrite <- Hafter, Hh.
        now rewrite <- app_assoc. }
    destruct Hshape as [front ->].
    assert (Hne : front ++ [st1] <> []) by (destruct front; discriminate).
    split; [split; [reflexivity | intros _; exact Hne]|].
    split; [intros H; now contradiction Hne|].
    intros _. rewrite last_last. exists pg1.
    split; [assumption|]. split; [assumption|]. split; [assumption|].
    now rewrite Hsat1.
Qed.

End Window.

(** C1 (amended). For a source that is processed as changed, forced or
    new, the stores recorded during its iteration split at the upsert.
    Before it, at most [calls_before_upsert] stores are recorded and the
    page table is untouched in each of them: a row that exists keeps its
    stored checksum, also in the stores that follow the page lookup, in
    which the page owns no section any more.  The upsert is
    recorded exactly when the store accepts every call up to it, and the
    store it leaves, on a fresh insert and on an overwrite alike, has the
    row of the source with a [NULL] checksum, the version of the run and
    no section.  From the upsert on the row has a [NULL] checksum in every
    recorded store but possibly the last; the last one carries the loaded
    checksum exactly when the body of the iteration ends normally, and
    then the page owns one section row per chunk, all embedded and
    inserted.  From the upsert on the row never has a non-null checksum
    while a section is missing. *)
Theorem checksum_is_null_until_sections_are_stored (env : Env) (refresh : bool)
    (v : string) (d : Z) (s : EmbeddingSource) (l : LoadResult) (w : World) :
  wf (db w) ->
  src_load s = Normal l ->
  unchanged refresh (page_at (db w) (src_path s)) (checksum l) = false ->
  let w' := fst (process_source env refresh v d s w) in
  let n := calls_before_upsert (page_at (db w) (src_path s)) in
  exists before after,
    history w' = after ++ before ++ history w /\
    (List.length before <= n)%nat /\
    Forall (fun st => pages st = pages (db w)) before /\
    Forall (fun st => sections_at st (src_path s) = []) (removelast before) /\
    (after <> [] <-> accepts env (db_ops w) (S n)) /\
    (after <> [] ->
     List.length before = n /\
     exists pg, page_at (last after (db w)) (src_path s) = Some pg /\
                page_checksum pg = None /\ page_version pg = v /\
                sections_at (last after (db w)) (src_path s) = []) /\
    (after = [] ->
     pages (db w') = pages (db w) /\
     exists e, snd (process_source_body env refresh v d s w) = Throws e) /\
    Forall (pending (src_path s)) (tl after) /\
    match snd (process_source_body env refresh v d s w) with
    | Normal _ =>
        hd_error after = Some (db w') /\ complete env (src_path s) l (db w')
    | Throws _ =>
        Forall (pending (src_path s)) after /\
        (after <> [] -> pending (src_path s) (db w'))
    end.
Proof.
  intros Hwf Hload Hun w' n.
  destruct (process_source_catch env refresh v d s w)
    as (_ & Hdb & _ & _ & _ & Hh & _).
  cbv zeta in Hdb, Hh. fold w' in Hdb, Hh. rewrite Hdb, Hh.
  pose proof (body_resync_trace env refresh v d s l w Hwf Hload Hun) as Ht.
  cbv zeta in Ht. fold n in Ht.
  destruct Ht
    as [(e & w1 & before & Hbody & Hpages & Hhist & Hall & Hrl & Hlen & Hflt)
       |(w3 & parentPage & before & Hbody & Hwf3 & Hnone & Hpages & Hhist & Hall
         & Hrl & Hlen & Hops & Hacc)].
  - rewrite Hbody. cbn [fst snd]. exists before, [].
    split; [assumption|]. split; [lia|]. split; [assumption|]. split; [assumption|].
    split.
    { split; [intros H; now contradiction H|].
      intros Ha. exfalso. apply Hflt. apply Ha. lia. }
    split; [intros H; now contradiction H|].
    split; [intros _; split; [assumption | now exists e]|].
    split; [constructor|]. split; [constructor | intros H; now contradiction H].
  - rewrite Hbody.
    destruct (write_page_window env v d s l parentPage w3 Hwf3 Hnone)
      as (after & Hh3 & Htl & Hnil & Hres).
    destruct (write_page_upsert env v d s l parentPage w3 (db w) Hwf3 Hnone after Hh3)
      as (Hiff & Hthrow & Hup).
    exists before, after.
    split; [now rewrite Hh3, Hhist|]. split; [lia|]. split; [assumption|].
    split; [assumption|].
    split.
    { rewrite Hiff, Hops. split.
      - intros Hf i Hi. destruct (Nat.eq_dec i n) as [->|Hne]; [exact Hf|].
        apply Hacc. lia.
      - intros Ha. apply Ha. lia. }
    split; [intros Ha; split; [exact Hlen | exact (Hup Ha)]|].
    split; [intros Ha; split; [now rewrite (Hnil Ha) | exact (Hthrow Ha)]|].
    split; [assumption|]. exact Hres.
Qed.

Lemma checksum_is_null_until_sections_are_stored_witness :
  exists before after,
    history (fst (process_source Demo.flaky_env true "run-2" 2000 Demo.flaky_c
                    Scene.settled))
    = after ++ before ++ history Scene.settled /\
    (List.length before <= 3)%nat /\
    Forall (fun st => pages st = pages (db Scene.settled)) before /\
    Forall (fun st => sections_at st "b/c.mdx" = []) (removelast before) /\
    (after <> [] <-> accepts Demo.flaky_env 0 4) /\
    (after <> [] ->
     List.length before = 3%nat /\
     exists pg, page_at (last after (db Scene.settled)) "b/c.mdx" = Some pg /\
                page_checksum pg = None /\ page_version pg = "run-2" /\
                sections_at (last after (db Scene.settled)) "b/c.mdx" = []) /\
    (after = [] ->
     pages (db (fst (process_source Demo.flaky_env true "run-2" 2000 Demo.flaky_c
                       Scene.settled)))
     = pages (db Scene.settled) /\
     exists e, snd (process_source_body Demo.flaky_env true "run-2" 2000 Demo.flaky_c
                      Scene.settled) = Throws e) /\
    Forall (pending "b/c.mdx") (tl after) /\
    Forall (pending "b/c.mdx") after /\
    (after <> [] ->
     pending "b/c.mdx"
       (db (fst (process_source Demo.flaky_env true "run-2" 2000 Demo.flaky_c
                   Scene.settled)))).
Proof.
  exact (checksum_is_null_until_sections_are_stored Demo.flaky_env true "run-2" 2000
           Demo.flaky_c (mkLoad "sha:b/c.mdx" "{}" Demo.chunks_c) Scene.settled
           settled_catalog_wf eq_refl eq_refl).
Defined.

(** The claim as the specification has it fails before the upsert: once
    the old sections are purged, the row still has its stored checksum
    and the page owns no section, for an edited page and for a forced
    refresh alike.  Seen from the path of [a.md], the stores of the
    iteration are, oldest first: the lookup, the purge, the parent lookup,
    the upsert, one insert per chunk and the commit. *)
Lemma stored_checksum_outlives_the_purge :
  unchanged false (page_at (db Scene.settled) "a.md") "sha:a.md (edited)" = false /\
  trace "a.md" (fst (process_source Demo.env2 false "run-2" 2000 Study.edited_a
                       Scene.settled))
  = [(Some (Some "sha:a.md"), 2%nat); (Some (Some "sha:a.md"), 0%nat);
     (Some (Some "sha:a.md"), 0%nat); (Some None, 0%nat); (Some None, 1%nat);
     (Some None, 2%nat); (Some (Some "sha:a.md (edited)"), 2%nat)] /\
  unchanged true (page_at (db Scene.settled) "a.md") "sha:a.md" = false /\
  trace "a.md" (fst (process_source Demo.env2 true "run-2" 2000 Demo.src_a
                       Scene.settled))
  = [(Some (Some "sha:a.md"), 2%nat); (Some (Some "sha:a.md"), 0%nat);
     (Some (Some "sha:a.md"), 0%nat); (Some None, 0%nat); (Some None, 1%nat);
     (Some None, 2%nat); (Some (Some "sha:a.md"), 2%nat)] /\
  ~ (forall st pg c,
       In st (history (fst (process_source Demo.env2 false "run-2" 2000 Study.edited_a
                              Scene.settled))) ->
       page_at st "a.md" = Some pg -> page_checksum pg = Some c ->
       List.length (sections_at st "a.md") = List.length (Demo.chunks_of "a.md")).
Proof.
  split; [reflexivity|]. split; [vm_compute; reflexivity|].
  split; [reflexivity|]. split; [vm_compute; reflexivity|].
  intros H.
  specialize (H (fst (delete_sections_of 1 (db Scene.settled))) Scene.page_a "sha:a.md").
  assert (Hin : In (fst (delete_sections_of 1 (db Scene.settled)))
                   (history (fst (process_source Demo.env2 false "run-2" 2000
                                    Study.edited_a Scene.settled))))
    by (vm_compute; auto 10).
  specialize (H Hin eq_refl eq_refl). vm_compute in H. discriminate H.
Qed.

(* ===================================================================== *)
(** ** A failing source *)
(* ===================================================================== *)



(* ===================================================================== *)
(** ** Discovery: the extension filter and the ignore list *)
(* ===================================================================== *)

Lemma length_append (a b : string) :
  String.length (String.append a b) = (String.length a + String.length b)%nat.
Proof. induction a as [|c a IH]; simpl; [reflexivity | now rewrite IH]. Qed.

Lemma substring_whole (s : string) : substring 0 (String.length s) s = s.
Proof. induction s as [|c s IH]; simpl; [reflexivity | now rewrite IH]. Qed.

Lemma substring_skip_prefix (pre s : string) (m : nat) :
  substring (String.length pre) m (String.append pre s) = substring 0 m s.
Proof. induction pre as [|c pre IH]; simpl; [reflexivity | exact IH]. Qed.

Lemma substring_split (s : string) (k : nat) :
  (k <= String.length s)%nat ->
  s = String.append (substring 0 k s) (substring k (String.length s - k) s).
Proof.
  revert k. induction s as [|c s IH]; intros k Hk.
  - simpl in Hk. assert (k = 0%nat) by lia. subst k. reflexivity.
  - destruct k as [|k].
    + simpl. now rewrite substring_whole.
    + simpl in Hk. simpl. f_equal. apply IH. lia.
Qed.

Lemma ends_with_suffix (suffix s : string) :
  ends_with suffix s = true <-> has_suffix suffix s.
Proof.
  unfold ends_with, has_suffix. rewrite andb_true_iff, Nat.leb_le, String.eqb_eq.
  split.
  - intros [Hle Hsub].
    exists (substring 0 (String.length s - String.length suffix) s).
    pose proof (substring_split s (String.length s - String.length suffix)) as Hs.
    replace (String.length s - (String.length s - String.length suffix))%nat
      with (String.length suffix) in Hs by lia.
    rewrite Hsub in Hs. apply Hs. lia.
  - intros [pre ->]. rewrite length_append. split; [lia|].
    replace (String.length pre + String.length suffix - String.length suffix)%nat
      with (String.length pre) by lia.
    rewrite substring_skip_prefix. apply substring_whole.
Qed.

(** X1. A file of the walked tree becomes an embedding source exactly
    when its path ends with [.md] or [.mdx] and is not the one ignored
    path [pages/404.mdx]; the source is built from that path with the
    source tag [markdown], and the sources keep the order of the walk. *)
Theorem discover_keeps_markdown_files (env : Env) (entries : list string) :
  (forall s, In s (discover env entries) <->
     exists path, In path entries /\
                  (has_suffix ".md" path \/ has_suffix ".mdx" path) /\
                  path <> "pages/404.mdx" /\
                  s = MarkdownSource env "markdown" path) /\
  (forall more, discover env (entries ++ more)
                = discover env entries ++ discover env more).
Proof.
  split.
  - intros s. unfold discover. rewrite in_map_iff. split.
    + intros (path & <- & Hin). apply filter_In in Hin. destruct Hin as [Hin Hign].
      apply filter_In in Hin. destruct Hin as [Hin Hmd].
      exists path. split; [assumption|].
      unfold is_markdown in Hmd. apply orb_true_iff in Hmd.
      rewrite !ends_with_suffix in Hmd. split; [assumption|].
      split; [|reflexivity].
      intros ->. discriminate Hign.
    + intros (path & Hin & Hmd & Hne & ->). exists path. split; [reflexivity|].
      apply filter_In. split.
      * apply filter_In. split; [assumption|].
        unfold is_markdown. apply orb_true_iff. now rewrite !ends_with_suffix.
      * unfold includes, ignoredFiles. simpl. rewrite orb_false_r.
        apply negb_true_iff. now apply String.eqb_neq.
  - intros more. unfold discover. now rewrite !filter_app, map_app.
Qed.

(* ===================================================================== *)
(** ** Normalisation of the text sent to the provider *)
(* ===================================================================== *)

Lemma replace_newlines_clean (s : string) : no_newline (replace_newlines s).
Proof.
  induction s as [|c s IH]; intros i; simpl.
  - destruct i; discriminate.
  - destruct i as [|i]; [|apply IH].
    destruct (Ascii.eqb c "010") eqn:Hc; [discriminate|].
    apply Ascii.eqb_neq in Hc. congruence.
Qed.

Lemma replace_newlines_fixed (s : string) :
  no_newline s -> replace_newlines s = s.
Proof.
  induction s as [|c s IH]; intros Hs; simpl; [reflexivity|].
  assert (Hc : Ascii.eqb c "010" = false).
  { apply Ascii.eqb_neq. intros ->. exact (Hs 0%nat eq_refl). }
  rewrite Hc. f_equal. apply IH. intros i. exact (Hs (S i)).
Qed.

(** X2. Whatever the chunks contain, no text the section loop sends to the
    provider has a line feed in it; normalising is idempotent and leaves
    a text without line feed as it is. *)
Theorem provider_never_sees_a_newline (env : Env) (path : string) (pid : Z)
    (cs : list Chunk) (w : World) :
  (exists inputs,
     embed_calls (fst (for_of cs (embed_section env path pid) w))
     = embed_calls w ++ inputs /\
     Forall no_newline inputs) /\
  (forall s, replace_newlines (replace_newlines s) = replace_newlines s) /\
  (forall s, no_newline s <-> replace_newlines s = s).
Proof.
  split; [|split].
  - destruct (embed_sections_run env path pid cs w)
      as (k & rows & hs & _ & _ & _ & _ & _ & _ & _ & Hres).
    cbv zeta in Hres.
    assert (Hclean : forall l, Forall no_newline (map normalized l)).
    { intros l. apply Forall_forall. intros x Hx. apply in_map_iff in Hx.
      destruct Hx as (c & <- & _). apply replace_newlines_clean. }
    destruct (snd (for_of cs (embed_section env path pid) w));
      destruct Hres as [_ Hc]; eexists; (split; [exact Hc | apply Hclean]).
  - intros s. apply replace_newlines_fixed, replace_newlines_clean.
  - intros s. split; [apply replace_newlines_fixed|].
    intros <-. apply replace_newlines_clean.
Qed.

(* ===================================================================== *)
(** ** Runs on an empty or unreadable tree *)
(* ===================================================================== *)

(** X5. A run that completes on a tree without any file to embed (none,
    or only files of other kinds and the ignored page) removes every row
    of both tables, whatever they were, and calls the provider for
    nothing. *)
Theorem barren_tree_empties_the_catalog (env : Env) (props : GenerateEmbeddingsProps)
    (entries : list string) (w : World) :
  wf (db w) ->
  (forall pg, In pg (pages (db w)) -> page_version pg <> uuidv4 env) ->
  walk env (docsRootPath props) = Normal entries ->
  discover env entries = [] ->
  snd (generateEmbeddings env props w) = Normal tt ->
  pages (db (fst (generateEmbeddings env props w))) = [] /\
  page_sections (db (fst (generateEmbeddings env props w))) = [] /\
  embed_calls (fst (generateEmbeddings env props w)) = embed_calls w.
Proof.
  intros Hwf Hfresh Hwalk Hnone Hdone.
  destruct (completed_run_db env props entries w Hwalk Hdone) as [Hdb Hcalls].
  rewrite Hdb, Hcalls. unfold after_loop. rewrite Hnone. cbn [for_of ret fst db logged accepted
    embed_calls].
  assert (Hstale : forall pg, In pg (pages (db w)) ->
                     String.eqb (page_version pg) (uuidv4 env) = false).
  { intros pg Hpg. apply String.eqb_neq. now apply Hfresh. }
  unfold delete_stale_pages. cbn [fst pages page_sections].
  split; [|split; [|reflexivity]].
  - apply filter_none. exact Hstale.
  - apply filter_none. intros x Hx. apply negb_false_iff.
    destruct Hwf as [_ _ _ Hfk]. rewrite Forall_forall in Hfk.
    pose proof (Hfk x Hx) as Hid. unfold page_ids in Hid.
    apply in_map_iff in Hid. destruct Hid as (pg & Hpid & Hpg).
    apply existsb_exists. exists pg. split.
    + apply filter_In. split; [assumption|]. now rewrite (Hstale pg Hpg).
    + now apply has_id_true.
Qed.

Lemma barren_tree_empties_the_catalog_witness :
  pages (db Scene.settled) <> [] /\
  pages (db (fst (generateEmbeddings Scene.barren_env (mkProps None "" "" "docs")
                    Scene.settled))) = [] /\
  page_sections (db (fst (generateEmbeddings Scene.barren_env (mkProps None "" "" "docs")
                            Scene.settled))) = [] /\
  embed_calls (fst (generateEmbeddings Scene.barren_env (mkProps None "" "" "docs")
                      Scene.settled)) = [].
Proof.
  pose proof settled_catalog_wf as Hwf.
  assert (Hfresh : forall pg, In pg (pages (db Scene.settled)) ->
                              page_version pg <> uuidv4 Scene.barren_env).
  { intros pg [<-|[<-|[]]]; discriminate. }
  split; [discriminate|].
  apply (barren_tree_empties_the_catalog Scene.barren_env (mkProps None "" "" "docs")
           Scene.barren_tree Scene.settled Hwf Hfresh eq_refl eq_refl).
  vm_compute. reflexivity.
Defined.

(** X9. When the client connects and the walk of the tree throws, the run
    stops there: no query is made, the connection is not closed, both
    tables, the provider and the console are left as they were, and the
    error is what [run] reports (nothing, if it is not an [Error]). *)
Theorem failed_walk_changes_nothing (env : Env) (w : World) (e : Thrown) :
  db_fault env (db_ops w) = None ->
  walk env (getInput env "docs-root-path") = Throws e ->
  db (fst (run env w)) = db w /\
  db_ops (fst (run env w)) = S (db_ops w) /\
  embed_calls (fst (run env w)) = embed_calls w /\
  console (fst (run env w)) = console w /\
  failures (fst (run env w)) = failures w ++ reported e.
Proof.
  intros Hf Hwalk. unfold run, try_catch. rewrite generateEmbeddings_run.
  cbn [docsRootPath]. rewrite Hf, Hwalk.
  destruct e as [m|x]; cbn; repeat split. now rewrite app_nil_r.
Qed.

Lemma failed_walk_changes_nothing_witness :
  db (fst (run Scene.missing_env Scene.settled)) = db Scene.settled /\
  db_ops (fst (run Scene.missing_env Scene.settled)) = 1%nat /\
  embed_calls (fst (run Scene.missing_env Scene.settled)) = [] /\
  console (fst (run Scene.missing_env Scene.settled)) = [] /\
  failures (fst (run Scene.missing_env Scene.settled)) = ["ENOENT"].
Proof.
  exact (failed_walk_changes_nothing Scene.missing_env Scene.settled (ErrorObj "ENOENT")
           eq_refl eq_refl).
Defined.

(** X6. Whatever fails, a whole run keeps the constraints of the schema:
    ids stay unique and below the sequence, paths stay unique, and every
    section row references an existing page. *)
Theorem run_keeps_the_constraints (env : Env) (w : World) :
  wf (db w) -> wf (db (fst (run env w))).
Proof.
  intros Hwf. unfold run, try_catch. rewrite generateEmbeddings_run.
  cbn [docsRootPath refresh_flag shouldRefresh].
  destruct (db_fault env (db_ops w)) as [m|]; [exact Hwf|].
  destruct (walk env (getInput env "docs-root-path")) as [entries|e].
  - cbv zeta.
    assert (Hl : wf (db (after_loop env false entries w))).
    { unfold after_loop.
      now destruct (loop_confined env false (uuidv4 env) (now env) (discover env entries)
                      (logged [if negb false then LogChecking else LogRefreshFlag]
                         (logged [LogDiscovered (List.length (discover env entries))]
                            (accepted (db w) w))) Hwf) as (H & _). }
    unfold after_sweep. cbn [db_ops logged accepted db].
    destruct (db_fault env (db_ops (after_loop env false entries w))) as [m|];
      [exact Hl|].
    destruct (db_fault env (S (db_ops (after_loop env false entries w)))) as [m|];
      cbn; now apply wf_sweep.
  - destruct e as [m|x]; exact Hwf.
Qed.

Lemma run_keeps_the_constraints_witness :
  wf (db (fst (run Demo.flaky_env Demo.world0))).
Proof.
  apply (run_keeps_the_constraints Demo.flaky_env Demo.world0).
  constructor; simpl; constructor.
Defined.

(* ===================================================================== *)
(** ** Regeneration: forced, after a failure, of duplicates, of nothing *)
(* ===================================================================== *)

(** When nothing fails, a source that is not unchanged ends complete, and
    the provider has been called once per chunk, in order. *)
Lemma iteration_regenerates (env : Env) (refresh : bool) (v : string) (d : Z)
    (s : EmbeddingSource) (l : LoadResult) (w : World) :
  no_db_fault env -> wf (db w) -> src_load s = Normal l ->
  unchanged refresh (page_at (db w) (src_path s)) (checksum l) = false ->
  embeddable env (sections l) ->
  complete env (src_path s) l (db (fst (process_source env refresh v d s w))) /\
  embed_calls (fst (process_source env refresh v d s w))
  = embed_calls w ++ map normalized (sections l).
Proof.
  intros Hdb Hwf Hload Hun Hemb.
  destruct (iteration_resync env refresh v d s l w Hdb Hwf Hload Hun)
    as (pg & k & rows & Hat & _ & Hrows & Hsat & _ & Hcalls & Hres & Hall & _).
  specialize (Hall Hemb). subst k.
  rewrite firstn_all in Hrows. rewrite firstn_all2 in Hcalls by lia.
  split; [|assumption].
  exists pg. split; [assumption|]. split; [|now rewrite Hsat].
  destruct Hres as [[_ Hck]|[Hlt _]]; [assumption | lia].
Qed.

Lemma loop_forced (env : Env) (v : string) (d : Z) (ss : list EmbeddingSource)
    (w : World) :
  no_db_fault env -> wf (db w) ->
  (forall s, In s ss -> exists l, src_load s = Normal l /\ embeddable env (sections l)) ->
  embed_calls (fst (for_of ss (process_source env true v d) w))
  = embed_calls w ++ all_inputs ss.
Proof.
  intros Hdb. revert w. induction ss as [|s ss IH]; intros w Hwf Hok.
  - cbn. now rewrite app_nil_r.
  - rewrite loop_cons.
    destruct (Hok s (or_introl eq_refl)) as (l & Hl & Hemb).
    destruct (iteration_regenerates env true v d s l w Hdb Hwf Hl eq_refl Hemb)
      as [_ Hcalls].
    pose proof (iteration_confined env true v d s w Hwf) as Hc.
    rewrite IH.
    + rewrite Hcalls. unfold all_inputs. cbn [flat_map]. rewrite Hl.
      now rewrite <- app_assoc.
    + apply Hc.
    + intros s' Hs'. apply Hok. now right.
Qed.

(** X7. A call of [generateEmbeddings] with [shouldRefresh] true, when
    nothing fails, sends every chunk of every discovered source to the
    provider, source after source in the order of the walk, chunk after
    chunk, whatever checksums the catalog stores. *)
Theorem forced_run_embeds_everything (env : Env) (props : GenerateEmbeddingsProps)
    (entries : list string) (w : World) :
  wf (db w) ->
  no_db_fault env ->
  walk env (docsRootPath props) = Normal entries ->
  shouldRefresh props = Some true ->
  (forall s, In s (discover env entries) ->
     exists l, src_load s = Normal l /\ embeddable env (sections l)) ->
  embed_calls (fst (generateEmbeddings env props w))
  = embed_calls w ++ all_inputs (discover env entries).
Proof.
  intros Hwf Hdb Hwalk Hflag Hok.
  pose proof (completes_without_fault env props entries w Hdb Hwalk) as Hdone.
  destruct (completed_run_db env props entries w Hwalk Hdone) as [_ Hcalls].
  rewrite Hcalls. unfold after_loop, refresh_flag. rewrite Hflag.
  now rewrite loop_forced.
Qed.

Lemma forced_run_embeds_everything_witness :
  embed_calls (fst (generateEmbeddings Demo.env2 (mkProps (Some true) "" "" "docs")
                      Scene.settled))
  = ["first line second line of a.md"; "usage";
     "first line second line of b/c.mdx"; "usage"].
Proof.
  apply (forced_run_embeds_everything Demo.env2 (mkProps (Some true) "" "" "docs")
           Demo.tree Scene.settled settled_catalog_wf).
  - intros n. reflexivity.
  - reflexivity.
  - reflexivity.
  - intros s [<-|[<-|[]]]; eexists; (split; [reflexivity|]);
      intros n c _; reflexivity.
Defined.

(** X10. Two sources that resolve to the same path with different
    checksums, processed one after the other without failure: the later
    one wins.  The row ends with the checksum of the later source and the
    page owns exactly the sections of the later source, those of the
    earlier one having been purged. *)
Theorem later_duplicate_wins (env : Env) (refresh : bool) (v : string) (d : Z)
    (s1 s2 : EmbeddingSource) (l1 l2 : LoadResult) (w : World) :
  wf (db w) ->
  no_db_fault env ->
  src_path s1 = src_path s2 ->
  src_load s1 = Normal l1 -> src_load s2 = Normal l2 ->
  checksum l1 <> checksum l2 ->
  embeddable env (sections l1) -> embeddable env (sections l2) ->
  complete env (src_path s2) l2
           (db (fst (for_of [s1; s2] (process_source env refresh v d) w))).
Proof.
  intros Hwf Hdb Hpath Hl1 Hl2 Hne He1 He2.
  rewrite !loop_cons. cbn [for_of ret fst].
  pose proof (iteration_confined env refresh v d s1 w Hwf) as Hc.
  destruct (iteration_current env v d refresh s1 l1 w Hdb Hwf Hl1 He1)
    as (pg & Hpg & Hck & _).
  apply iteration_regenerates; auto.
  - apply Hc.
  - rewrite <- Hpath, Hpg. unfold unchanged. simpl. rewrite Hck. simpl.
    apply andb_false_iff. right. now apply String.eqb_neq.
Qed.

Lemma later_duplicate_wins_witness :
  complete Demo.env1 "a" (mkLoad "sha:a.mdx" "{}" [mkChunk "two" "Two" "from a.mdx"])
           (db (fst (for_of [Scene.first_a; Scene.second_a]
                       (process_source Demo.env1 false "run-1" 1000) Demo.world0))).
Proof.
  assert (Hwf : wf (db Demo.world0)) by (constructor; simpl; constructor).
  apply (later_duplicate_wins Demo.env1 false "run-1" 1000 Scene.first_a Scene.second_a
           (mkLoad "sha:a.md" "{}" [mkChunk "one" "One" "from a.md"])
           (mkLoad "sha:a.mdx" "{}" [mkChunk "two" "Two" "from a.mdx"])
           Demo.world0 Hwf).
  - intros n. reflexivity.
  - reflexivity.
  - reflexivity.
  - reflexivity.
  - discriminate.
  - intros n c _. reflexivity.
  - intros n c _. reflexivity.
Defined.

(** X11. A row left with a [NULL] checksum, as a failed iteration leaves
    it, is never taken for unchanged: the next iteration for its source,
    when nothing fails, purges the sections the page owns, inserts one
    row per chunk with one provider call each, and commits the loaded
    checksum, with the refresh flag off as well as on. *)
Theorem pending_row_is_regenerated (env : Env) (refresh : bool) (v : string) (d : Z)
    (s : EmbeddingSource) (l : LoadResult) (w : World) :
  wf (db w) ->
  no_db_fault env ->
  src_load s = Normal l ->
  embeddable env (sections l) ->
  pending (src_path s) (db w) ->
  complete env (src_path s) l (db (fst (process_source env refresh v d s w))) /\
  embed_calls (fst (process_source env refresh v d s w))
  = embed_calls w ++ map normalized (sections l).
Proof.
  intros Hwf Hdb Hload Hemb (pg & Hpg & Hnull).
  apply iteration_regenerates; auto.
  rewrite Hpg. unfold unchanged. simpl. rewrite Hnull. simpl.
  apply andb_false_r.
Qed.

Lemma pending_row_is_regenerated_witness :
  map payload (sections_at (db Scene.interrupted) "b/c.mdx")
  = [("intro", "Intro", "intro of b/c.mdx")] /\
  complete Scene.healed_env "b/c.mdx" (mkLoad "sha:b/c.mdx" "{}" Demo.chunks_c)
           (db (fst (process_source Scene.healed_env false "run-2" 2000 Demo.flaky_c
                       Scene.interrupted))) /\
  embed_calls (fst (process_source Scene.healed_env false "run-2" 2000 Demo.flaky_c
                      Scene.interrupted))
  = embed_calls Scene.interrupted ++ ["intro of b/c.mdx"; "usage of b/c.mdx"].
Proof.
  split; [vm_compute; reflexivity|].
  assert (Hwf : wf (db Scene.interrupted)).
  { apply (conf_wf _ _ _ (iteration_confined Demo.flaky_env false "run-1" 1000
                            Demo.flaky_c Demo.world0
                            ltac:(constructor; simpl; constructor))). }
  apply (pending_row_is_regenerated Scene.healed_env false "run-2" 2000 Demo.flaky_c
           (mkLoad "sha:b/c.mdx" "{}" Demo.chunks_c) Scene.interrupted Hwf).
  - intros n. reflexivity.
  - reflexivity.
  - intros n c _. reflexivity.
  - vm_compute. eexists. split; reflexivity.
Defined.

(** X4. A source that loads without any chunk and is not unchanged, when
    the store accepts every call: its row is written and committed with
    the loaded checksum under the version of the run, the page owns no
    section, and the provider is not called. *)
Theorem source_without_chunks_is_committed (env : Env) (refresh : bool) (v : string)
    (d : Z) (s : EmbeddingSource) (l : LoadResult) (w : World) :
  wf (db w) ->
  no_db_fault env ->
  src_load s = Normal l ->
  sections l = [] ->
  unchanged refresh (page_at (db w) (src_path s)) (checksum l) = false ->
  (exists pg,
     page_at (db (fst (process_source env refresh v d s w))) (src_path s) = Some pg /\
     page_checksum pg = Some (checksum l) /\ page_version pg = v) /\
  sections_at (db (fst (process_source env refresh v d s w))) (src_path s) = [] /\
  embed_calls (fst (process_source env refresh v d s w)) = embed_calls w.
Proof.
  intros Hwf Hdb Hload Hnil Hun.
  assert (Hemb : embeddable env (sections l)).
  { intros n c Hc. rewrite Hnil in Hc. contradiction. }
  destruct (iteration_regenerates env refresh v d s l w Hdb Hwf Hload Hun Hemb)
    as [(pg & Hpg & Hck & Hrows) Hcalls].
  destruct (iteration_current env v d refresh s l w Hdb Hwf Hload Hemb)
    as (pg' & Hpg' & _ & Hver).
  rewrite Hnil in Hrows, Hcalls. cbn in Hcalls. rewrite app_nil_r in Hcalls.
  split; [|split; [|assumption]].
  - exists pg. split; [assumption|]. split; [assumption|]. congruence.
  - now inversion Hrows.
Qed.

Lemma source_without_chunks_is_committed_witness :
  (exists pg,
     page_at (db (fst (process_source Demo.env1 false "run-1" 1000 Scene.blank
                         Demo.world0))) "blank.md" = Some pg /\
     page_checksum pg = Some "sha:blank" /\ page_version pg = "run-1") /\
  sections_at (db (fst (process_source Demo.env1 false "run-1" 1000 Scene.blank
                          Demo.world0))) "blank.md" = [] /\
  embed_calls (fst (process_source Demo.env1 false "run-1" 1000 Scene.blank Demo.world0))
  = [].
Proof.
  assert (Hwf : wf (db Demo.world0)) by (constructor; simpl; constructor).
  apply (source_without_chunks_is_committed Demo.env1 false "run-1" 1000 Scene.blank
           (mkLoad "sha:blank" "{}" []) Demo.world0 Hwf).
  - intros n. reflexivity.
  - reflexivity.
  - reflexivity.
  - reflexivity.
Defined.

(* ===================================================================== *)
(** ** The row a resync writes *)
(* ===================================================================== *)

(** The upsert leaves at its path exactly the proposed row, under the id
    of the row that was there or under the next id of the sequence. *)
Lemma upsert_full_row (p ty so me : string) (parent : option Z) (v : string) (d : Z)
    (st : Store) :
  page_at (fst (upsert_page p ty so me parent v d st)) p
  = Some (mkPage (snd (upsert_page p ty so me parent v d st)) p None ty so me parent v d) /\
  snd (upsert_page p ty so me parent v d st)
  = match page_at st p with
    | Some old => page_id old
    | None => page_seq st
    end.
Proof.
  unfold upsert_page, page_at.
  destruct (find (has_path p) (pages st)) as [old|] eqn:Hold;
    cbn [fst snd pages with_pages].
  - split; [|reflexivity].
    rewrite find_update_where by (intros x; reflexivity).
    rewrite Hold. cbn [option_map].
    apply find_some in Hold. destruct Hold as [_ Hp]. rewrite Hp.
    apply has_path_true in Hp. unfold set_excluded. now rewrite Hp.
  - split; [|reflexivity].
    rewrite find_app_none by assumption.
    assert (Hp : has_path p (mkPage (page_seq st) p None ty so me parent v d) = true)
      by (apply has_path_true; reflexivity).
    now rewrite Hp.
Qed.

Lemma body_resync_parent (env : Env) (refresh : bool) (v : string) (d : Z)
    (s : EmbeddingSource) (l : LoadResult) (w : World) :
  no_db_fault env -> wf (db w) ->
  src_load s = Normal l ->
  unchanged refresh (page_at (db w) (src_path s)) (checksum l) = false ->
  exists (w3 : World) (parentPage : option Page),
    process_source_body env refresh v d s w = write_page env v d s l parentPage w3 /\
    id_of parentPage = resolved_parent s (db w) /\
    page_at (db w3) (src_path s) = page_at (db w) (src_path s) /\
    page_seq (db w3) = page_seq (db w).
Proof.
  intros Hdb Hwf Hload Hun.
  unfold process_source_body, bind at 1, await. rewrite Hload.
  unfold bind at 1, client_query. rewrite call_accepted by apply Hdb.
  cbn [fst snd select_page_by_path]. fold (page_at (db w) (src_path s)).
  cbn [db accepted]. rewrite Hun.
  unfold resync, resolved_parent.
  destruct (page_at (db w) (src_path s)) as [ep|] eqn:Hep.
  - unfold bind at 1 2, console_write. rewrite call_accepted by apply Hdb.
    cbn [fst snd]. unfold bind at 1. rewrite call_accepted by apply Hdb.
    cbn [fst snd].
    eexists. eexists. split; [reflexivity|].
    unfold select_parent_by_path. cbn [db accepted].
    destruct (src_parentPath s); cbn; repeat split; auto.
  - unfold bind at 1 2, ret. rewrite call_accepted by apply Hdb.
    cbn [fst snd].
    eexists. eexists. split; [reflexivity|].
    unfold select_parent_by_path. cbn [db accepted].
    destruct (src_parentPath s); cbn; repeat split; auto.
Qed.

(** X8. The row a new or changed source ends with, when nothing fails,
    column by column: the id of the row that was stored at its path, or
    the next id of the sequence; its path; the loaded checksum; type,
    source and meta of the source; as parent the id of the row that was
    stored at [parentPath] when the iteration began, [NULL] if there was
    none yet; the version and the date of the run. *)
Theorem resynced_row_is_determined (env : Env) (refresh : bool) (v : string) (d : Z)
    (s : EmbeddingSource) (l : LoadResult) (w : World) :
  wf (db w) ->
  no_db_fault env ->
  src_load s = Normal l ->
  unchanged refresh (page_at (db w) (src_path s)) (checksum l) = false ->
  embeddable env (sections l) ->
  page_at (db (fst (process_source env refresh v d s w))) (src_path s)
  = Some (mkPage (match page_at (db w) (src_path s) with
                  | Some old => page_id old
                  | None => page_seq (db w)
                  end)
                 (src_path s) (Some (checksum l)) (src_type s) (src_source s) (meta l)
                 (resolved_parent s (db w)) v d).
Proof.
  intros Hwf Hdb Hload Hun Hemb.
  destruct (process_source_catch env refresh v d s w) as (_ & Hdb' & _).
  cbv zeta in Hdb'. rewrite Hdb'.
  destruct (body_resync_parent env refresh v d s l w Hdb Hwf Hload Hun)
    as (w3 & parentPage & Hbody & Hparent & Hat3 & Hseq3).
  rewrite Hbody.
  pose proof (write_page_run env v d s l parentPage w3) as Hrun.
  cbv zeta in Hrun. rewrite (Hdb (db_ops w3)) in Hrun.
  destruct Hrun as (k & rows & hs & _ & _ & _ & _ & _ & _ & Hres).
  destruct (write_page_outcome env v d s l parentPage w3 Hdb) as [Hok _].
  rewrite (Hok Hemb) in Hres. destruct Hres as (_ & Hpages & _).
  destruct (upsert_full_row (src_path s) (src_type s) (src_source s) (meta l)
              (id_of parentPage) v d (db w3)) as [Hrow Hid].
  unfold page_at at 1. rewrite Hpages.
  rewrite find_update_where by (intros x; reflexivity).
  fold (page_at (fst (upsert_page (src_path s) (src_type s) (src_source s) (meta l)
                        (id_of parentPage) v d (db w3))) (src_path s)).
  rewrite Hrow. cbn [option_map].
  unfold has_id at 1. cbn [page_id]. rewrite Z.eqb_refl.
  unfold set_checksum. cbn. rewrite Hid, Hat3, Hseq3, Hparent. reflexivity.
Qed.

Lemma resynced_row_is_determined_witness :
  page_at (db (fst (process_source Demo.env1 false "run-1" 1000 Demo.src_c Demo.world0)))
          "b/c.mdx"
  = Some (mkPage 1 "b/c.mdx" (Some "sha:b/c.mdx") "markdown" "markdown" "{}" None
                 "run-1" 1000).
Proof.
  assert (Hwf : wf (db Demo.world0)) by (constructor; simpl; constructor).
  apply (resynced_row_is_determined Demo.env1 false "run-1" 1000 Demo.src_c
           (Demo.loaded "b/c.mdx") Demo.world0 Hwf).
  - intros n. reflexivity.
  - reflexivity.
  - reflexivity.
  - intros n c _. reflexivity.
Defined.

(* ===================================================================== *)
(** ** The purge is not covered by the checksum *)
(* ===================================================================== *)

(** X3. When the store accepts the lookup of the row and the purge of its
    sections and then rejects the lookup of the parent, the iteration ends
    with the row untouched, stored checksum included, and no section left
    for the page; the provider has not been called and the console has
    the purge line and the two lines of the [catch].  If that purge was a
    forced refresh of a current page, a later iteration for the same
    source with the flag off takes the page for unchanged and leaves it
    without sections. *)
Theorem rejected_lookup_after_purge (env : Env) (refresh : bool) (v : string) (d : Z)
    (s : EmbeddingSource) (l : LoadResult) (ep : Page) (w : World) (m : string) :
  src_load s = Normal l ->
  page_at (db w) (src_path s) = Some ep ->
  unchanged refresh (Some ep) (checksum l) = false ->
  db_fault env (db_ops w) = None ->
  db_fault env (S (db_ops w)) = None ->
  db_fault env (S (S (db_ops w))) = Some m ->
  let w' := fst (process_source env refresh v d s w) in
  page_at (db w') (src_path s) = Some ep /\
  sections_at (db w') (src_path s) = [] /\
  page_sections (db w')
  = filter (fun x => negb (section_page_id x =? page_id ep)) (page_sections (db w)) /\
  embed_calls w' = embed_calls w /\
  console w' = console w ++ [LogRemovingSections (src_path s) refresh;
                             ErrPageFailed (src_path s); ErrValue (ErrorObj m)] /\
  (page_checksum ep = Some (checksum l) ->
   forall env' v' d',
     sections_at (db (fst (process_source env' false v' d' s w'))) (src_path s) = [] /\
     embed_calls (fst (process_source env' false v' d' s w')) = embed_calls w).
Proof.
  intros Hload Hep Hun Hf0 Hf1 Hf2 w'.
  assert (Hbody : exists w1,
            process_source_body env refresh v d s w = (w1, Throws (ErrorObj m)) /\
            db w1 = fst (delete_sections_of (page_id ep) (db w)) /\
            embed_calls w1 = embed_calls w /\
            console w1 = console w ++ [LogRemovingSections (src_path s) refresh]).
  { unfold process_source_body, bind at 1, await. rewrite Hload.
    unfold client_query. rewrite bind_call, Hf0.
    cbn [fst snd select_page_by_path]. fold (page_at (db w) (src_path s)).
    rewrite Hep, Hun. unfold resync, client_query.
    unfold bind at 1. unfold bind at 1. unfold console_write at 1.
    unfold client_call at 1. cbn [db_ops accepted db]. rewrite Hf1.
    cbn [fst snd]. rewrite bind_call. cbn [db_ops accepted db]. rewrite Hf2.
    eexists. split; [reflexivity|]. cbn. repeat split. }
  destruct Hbody as (w1 & Hrun & Hdb1 & Hcalls1 & Hcons1).
  destruct (process_source_catch env refresh v d s w)
    as (_ & Hdb & _ & Hcalls & _ & _ & Hcons).
  cbv zeta in Hdb, Hcalls, Hcons. fold w' in Hdb, Hcalls, Hcons.
  rewrite Hrun in Hdb, Hcalls, Hcons. cbn [fst snd] in Hdb, Hcalls, Hcons.
  assert (Hat : page_at (db w') (src_path s) = Some ep).
  { rewrite Hdb, Hdb1. exact Hep. }
  assert (Hnone : sections_at (db w') (src_path s) = []).
  { unfold sections_at. rewrite Hat. unfold sections_of. rewrite Hdb, Hdb1. cbn.
    apply filter_filter_same. }
  split; [assumption|]. split; [assumption|].
  split; [now rewrite Hdb, Hdb1|].
  split; [congruence|].
  split; [rewrite Hcons, Hcons1, <- app_assoc; reflexivity|].
  intros Hck env' v' d'.
  assert (Hun' : unchanged false (Some ep) (checksum l) = true).
  { unfold unchanged. simpl. rewrite Hck. simpl. apply String.eqb_refl. }
  destruct (iteration_unchanged env' false v' d' s l ep w' Hload Hat Hun')
    as (_ & Hc' & _ & Hs' & _).
  split; congruence.
Qed.

Lemma rejected_lookup_after_purge_witness :
  page_at (db (fst (process_source Scene.dropping_env true "run-2" 2000 Demo.src_a
                      Scene.settled))) "a.md" = Some Scene.page_a /\
  sections_at (db (fst (process_source Scene.dropping_env true "run-2" 2000 Demo.src_a
                          Scene.settled))) "a.md" = [] /\
  sections_at (db (fst (process_source Demo.env2 false "run-3" 3000 Demo.src_a
                          (fst (process_source Scene.dropping_env true "run-2" 2000
                                  Demo.src_a Scene.settled))))) "a.md" = [] /\
  embed_calls (fst (process_source Demo.env2 false "run-3" 3000 Demo.src_a
                      (fst (process_source Scene.dropping_env true "run-2" 2000
                              Demo.src_a Scene.settled)))) = [].
Proof.
  destruct (rejected_lookup_after_purge Scene.dropping_env true "run-2" 2000 Demo.src_a
              (Demo.loaded "a.md") Scene.page_a Scene.settled "connection lost"
              eq_refl eq_refl eq_refl eq_refl eq_refl eq_refl)
    as (Hat & Hnone & _ & _ & _ & Hlater).
  split; [exact Hat|]. split; [exact Hnone|].
  exact (Hlater eq_refl Demo.env2 "run-3" 3000).
Defined.

(* ===================================================================== *)
(** ** Rows outside an iteration, and the lazy hierarchy *)
(* ===================================================================== *)

(** X12. Whatever fails, the loop over the sources deletes no row of
    [page] and changes no id, and it leaves alone, row and sections, every
    path that is not the path of one of its sources: rows only disappear
    in the final sweep. *)
Theorem loop_never_removes_a_page (env : Env) (refresh : bool) (v : string) (d : Z)
    (ss : list EmbeddingSource) (w : World) :
  wf (db w) ->
  (forall q pg, page_at (db w) q = Some pg ->
     exists pg',
       page_at (db (fst (for_of ss (process_source env refresh v d) w))) q = Some pg' /\
       page_id pg' = page_id pg) /\
  (forall q, ~ In q (map src_path ss) ->
     page_at (db (fst (for_of ss (process_source env refresh v d) w))) q
     = page_at (db w) q /\
     sections_at (db (fst (for_of ss (process_source env refresh v d) w))) q
     = sections_at (db w) q).
Proof.
  intros Hwf.
  destruct (loop_confined env refresh v d ss w Hwf) as (_ & Hout & Hkeep).
  split; assumption.
Qed.

Lemma loop_never_removes_a_page_witness :
  (exists pg',
     page_at (db (fst (for_of [Demo.src_a] (process_source Scene.dropping_env true
                                              "run-2" 2000) Scene.settled))) "a.md"
     = Some pg' /\ page_id pg' = 1) /\
  page_at (db (fst (for_of [Demo.src_a] (process_source Scene.dropping_env true
                                           "run-2" 2000) Scene.settled))) "b/c.mdx"
  = Some Demo.page_c.
Proof.
  destruct (loop_never_removes_a_page Scene.dropping_env true "run-2" 2000 [Demo.src_a]
              Scene.settled settled_catalog_wf) as [Hkeep Hout].
  split.
  - exact (Hkeep "a.md" Scene.page_a eq_refl).
  - assert (Hnot : ~ In "b/c.mdx" (map src_path [Demo.src_a])).
    { intros [H|[]]. discriminate H. }
    destruct (Hout "b/c.mdx" Hnot) as [H _]. exact H.
Defined.

(** X13. The hierarchy is repaired lazily.  A current page that was stored
    without parent, because the row of its [parentPath] did not exist yet,
    gets the id of that row as [parent_page_id] in the next iteration for
    its source with the flag off, once the row exists and the store
    accepts every call; its checksum and the section table are as they
    were and the provider is not called. *)
Theorem unresolved_parent_is_repaired (env : Env) (v : string) (d : Z)
    (s : EmbeddingSource) (l : LoadResult) (ep pq : Page) (q : string) (w : World) :
  no_db_fault env ->
  src_load s = Normal l ->
  page_at (db w) (src_path s) = Some ep ->
  page_checksum ep = Some (checksum l) ->
  parent_page_id ep = None ->
  src_parentPath s = Some q ->
  page_at (db w) q = Some pq ->
  (exists pg,
     page_at (db (fst (process_source env false v d s w))) (src_path s) = Some pg /\
     parent_page_id pg = Some (page_id pq) /\
     page_checksum pg = Some (checksum l) /\
     page_version pg = v) /\
  page_sections (db (fst (process_source env false v d s w))) = page_sections (db w) /\
  embed_calls (fst (process_source env false v d s w)) = embed_calls w.
Proof.
  intros Hdb Hload Hep Hck Hnone Hparent Hpq.
  assert (Hun : unchanged false (Some ep) (checksum l) = true).
  { unfold unchanged. simpl. rewrite Hck. simpl. apply String.eqb_refl. }
  destruct (iteration_unchanged env false v d s l ep w Hload Hep Hun)
    as (Hsec & Hcalls & _ & _ & f & _ & _ & Hat & Hf).
  split; [|split; assumption].
  exists (f ep). split; [assumption|].
  rewrite (Hf Hdb). unfold refreshed, parent_differs, resolved_parent.
  rewrite Hnone, Hparent. cbn [select_page_by_id snd stored_path option_eqb negb].
  unfold select_parent_by_path, select_page_by_path. cbn [snd].
  fold (page_at (db w) q). rewrite Hpq. cbn. repeat split; assumption.
Qed.

Lemma unresolved_parent_is_repaired_witness :
  exists pg,
    page_at (db (fst (process_source Demo.env2 false "run-2" 2000 Scene.child
                        Scene.family))) "guide/intro.md" = Some pg /\
    parent_page_id pg = Some 2 /\
    page_checksum pg = Some "sha:intro" /\
    page_version pg = "run-2".
Proof.
  assert (Hdb : no_db_fault Demo.env2) by (intros n; reflexivity).
  destruct (unresolved_parent_is_repaired Demo.env2 "run-2" 2000 Scene.child
              (mkLoad "sha:intro" "{}" []) Scene.child_page Scene.parent_page "guide.md"
              Scene.family Hdb eq_refl eq_refl eq_refl eq_refl eq_refl eq_refl)
    as [H _].
  exact H.
Defined.
